(** * STREAM memory-bandwidth benchmark (stream.c): model and properties

    The development embeds [src/stream.c] in Rocq and settles the
    properties C1 to C10 of its specification.

    - C scalars follow the LP64 Linux ABI the program targets (it uses
      [sched_getcpu]): [int] is 32 bits, [unsigned long] and [size_t] are
      64 bits.  Unsigned arithmetic wraps modulo 2^64; signed overflow and
      an out-of-range floating-to-integer conversion are undefined and are
      reported as [Fault].
    - [double] is IEEE-754 binary64, modelled by [spec_float] of the
      standard library with precision 53 and [emax] 1024, i.e. with the
      rounding of every operation.
    - An OpenMP [parallel] region is a small-step interleaving of its
      threads.  The loop counter [i] is declared in [main], outside every
      region, and no region lists it in a [private] clause: under the OpenMP
      data-sharing rules it is one variable shared by all the threads
      ([tid], declared inside the regions, is private).
    - The operating system and the C library are an explicit environment:
      the size of the thread team, the success of each [malloc], the
      successive readings of the monotonic clock and the schedule of each
      parallel region.
    - Of the output, the error message and the rows of the report are
      events of the trace; the message on the granularity of the clock and
      the advised minimum (lines 204-215 and 245-246) are functions of the
      result of [checktick] and the six numbers of the memory report
      (lines 192-200) functions of the array size and the team size; the
      banner and the other advisory [printf]s are left out.

    The first half of the file is the program, the second half its
    properties: trace invariants, command line (C7, C9, C10), statistics
    (C4), conversions and array size (C3), clock calibration (C8),
    allocation (C3, C6), kernels (C1, C2) and reported bandwidth (C5);
    then the order of a run and what its timings measure, the values of a
    whole run, the shared counter and the bounds of the buffers, empty
    arrays, uninitialised memory, a best time of zero, what the threads
    share and the report of the memory used. *)

From Stdlib Require Import ZArith List Bool Lia String Ascii.
From Stdlib Require Import Floats.SpecFloat.
Import ListNotations.
Open Scope Z_scope.

(* ===================================================================== *)
(** * C scalar types *)
(* ===================================================================== *)

Definition INT_MIN : Z := -2147483648.
Definition INT_MAX : Z := 2147483647.
Definition ULONG_MAX : Z := 18446744073709551615.

(** Conversion to [unsigned long] / [size_t]: reduction modulo 2^64. *)
Definition to_ulong (z : Z) : Z := z mod 2 ^ 64.

Definition in_int (z : Z) : bool := (INT_MIN <=? z) && (z <=? INT_MAX).

(** [sizeof(STREAM_TYPE)] with the default [STREAM_TYPE double]. *)
Definition sizeof_STREAM_TYPE : Z := 8.

(* ===================================================================== *)
(** * IEEE-754 binary64 *)
(* ===================================================================== *)

Definition prec : Z := 53.
Definition emax : Z := 1024.

Definition double : Type := spec_float.

Definition dadd : double -> double -> double := SFadd prec emax.
Definition dsub : double -> double -> double := SFsub prec emax.
Definition dmul : double -> double -> double := SFmul prec emax.
Definition ddiv : double -> double -> double := SFdiv prec emax.
Definition dlt : double -> double -> bool := SFltb.
Definition dle : double -> double -> bool := SFleb.

(** [(double) n] for an integer [n]: rounding to nearest even. *)
Definition double_of_Z (n : Z) : double := binary_normalize prec emax n 0 false.

(** Truncation toward zero of a finite double. *)
Definition Ztrunc_double (x : double) : option Z :=
  match x with
  | S754_zero _ => Some 0
  | S754_finite s m e =>
      let a := Z.shiftl (Zpos m) e in Some (if s then - a else a)
  | S754_infinity _ | S754_nan => None
  end.

(** [(int) x]: the truncated value when it fits an [int], undefined
    otherwise (C11 6.3.1.4). *)
Definition int_of_double (x : double) : option Z :=
  match Ztrunc_double x with
  | Some z => if in_int z then Some z else None
  | None => None
  end.

(** The floating constants of the source. *)
Definition d0 : double := S754_zero false.                    (* 0.0 *)
Definition d1 : double := Eval vm_compute in double_of_Z 1.   (* 1.0 *)
Definition d2 : double := Eval vm_compute in double_of_Z 2.   (* 2.0, 2.0E0 *)
Definition SCALAR : double := Eval vm_compute in double_of_Z 3.
Definition d1024 : double := Eval vm_compute in double_of_Z 1024.
Definition d1e6 : double := Eval vm_compute in double_of_Z 1000000.
Definition d1e9 : double := Eval vm_compute in double_of_Z 1000000000.
(** [1.0E-6]: the double nearest to 10^-6, which is also the correctly
    rounded quotient 1/10^6. *)
Definition d1em6 : double := Eval vm_compute in ddiv d1 d1e6.

(** The macros [MIN] and [MAX]. *)
Definition MIN (x y : double) : double := if dlt x y then x else y.
Definition MAX (x y : double) : double := if dlt y x then x else y.
Definition MINi (x y : Z) : Z := if x <? y then x else y.
Definition MAXi (x y : Z) : Z := if x >? y then x else y.

(* ===================================================================== *)
(** * Command line *)
(* ===================================================================== *)

Definition isspace (c : ascii) : bool :=
  let n := Z.of_nat (nat_of_ascii c) in
  (n =? 32) || ((9 <=? n) && (n <=? 13)).

Definition digit_of (c : ascii) : option Z :=
  let n := Z.of_nat (nat_of_ascii c) in
  if (48 <=? n) && (n <=? 57) then Some (n - 48) else None.

Fixpoint skip_spaces (s : string) : string :=
  match s with
  | String c r => if isspace c then skip_spaces r else s
  | EmptyString => s
  end.

(** Value of the longest decimal prefix of [s], continuing from [acc]. *)
Fixpoint digits_acc (acc : Z) (s : string) : Z :=
  match s with
  | String c r =>
      match digit_of c with
      | Some d => digits_acc (10 * acc + d) r
      | None => acc
      end
  | EmptyString => acc
  end.

Definition starts_with_digit (s : string) : bool :=
  match s with
  | String c _ => match digit_of c with Some _ => true | None => false end
  | EmptyString => false
  end.

(** [strtoul(s, &end, 10)] of the C library (C11 7.22.1.4): white space is
    skipped, an optional sign is read, then the longest run of decimal
    digits.  Without a digit no conversion is performed and the result is
    0; a value above [ULONG_MAX] gives [ULONG_MAX]; after a minus sign the
    value is negated in the unsigned type. *)
Definition strtoul (s : string) : Z :=
  let s1 := skip_spaces s in
  let '(neg, s2) :=
    match s1 with
    | String "-"%char r => (true, r)
    | String "+"%char r => (false, r)
    | _ => (false, s1)
    end in
  if starts_with_digit s2 then
    let v := digits_acc 0 s2 in
    if v >? ULONG_MAX then ULONG_MAX
    else if neg then to_ulong (- v) else v
  else 0.

(** Compile-time configuration. *)
Record config := {
  STREAM_ARRAY_SIZE : Z;      (* default 20000000 *)
  NTIMES_given : option Z     (* -DNTIMES=..., if any *)
}.

(** The preprocessor logic of lines 59-66. *)
Definition NTIMES (cfg : config) : Z :=
  match NTIMES_given cfg with
  | Some n => if n <=? 1 then 10 else n
  | None => 10
  end.

Inductive arg_result :=
| UseSize (n : Z)        (* stream_array_size *)
| InvalidInput           (* message printed, return -1 *)
| ArgvOutOfBounds.       (* argv[1] read with argc = 0 *)

(** Lines 127-137; [argv] includes the program name, [argc = length argv]. *)
Definition read_args (cfg : config) (argv : list string) : arg_result :=
  let argc := Z.of_nat (List.length argv) in
  if (argc =? 1) || (argc >? 2) then UseSize (to_ulong (STREAM_ARRAY_SIZE cfg))
  else
    match nth_error argv 1 with
    | Some s =>
        let n := strtoul s in
        if n <? 1 then InvalidInput else UseSize n
    | None => ArgvOutOfBounds
    end.

(** Line 182: [(int) ((double) stream_array_size / (double) nthreads)]. *)
Definition compute_array_size (stream_array_size nthreads : Z) : option Z :=
  int_of_double (ddiv (double_of_Z stream_array_size) (double_of_Z nthreads)).

(* ===================================================================== *)
(** * Observable events, outcomes and the program monad *)
(* ===================================================================== *)

Inductive region_name := RInit | RWarm | RCopy | RScale | RAdd | RTriad.

(** What a run does that the properties speak about.  The banner and the
    advisory [printf]s are not recorded. *)
Inductive event :=
| EvError (msg : string)                    (* the error message is printed *)
| EvMalloc (tid which : nat) (bytes : Z) (ok : bool)
| EvClock                                   (* one call of [clock_gettime] *)
| EvRegion (r : region_name)                (* a parallel loop region is run *)
| EvReport (k : nat) (bandwidth avg mn mx : double).

Record world := {
  trace : list event;     (* events so far, oldest first *)
  ticks : nat             (* calls of [clock_gettime] so far *)
}.

Definition world0 : world := {| trace := []; ticks := 0 |}.

Definition log (e : event) (w : world) : world :=
  {| trace := trace w ++ [e]; ticks := ticks w |}.

Inductive outcome (A : Type) :=
| Ok (x : A) (w : world)
| Fault (w : world)      (* undefined behaviour was reached *)
| Stuck (w : world).     (* a loop did not finish within the fuel or schedule *)
Arguments Ok {A} x w.
Arguments Fault {A} w.
Arguments Stuck {A} w.

Definition Prog (A : Type) : Type := world -> outcome A.

Definition ret {A} (x : A) : Prog A := fun w => Ok x w.
Definition fault {A} : Prog A := fun w => Fault w.
Definition bind {A B} (m : Prog A) (f : A -> Prog B) : Prog B :=
  fun w => match m w with
           | Ok x w' => f x w'
           | Fault w' => Fault w'
           | Stuck w' => Stuck w'
           end.
Definition emit (e : event) : Prog unit := fun w => Ok tt (log e w).
Definition lift_option {A} (o : option A) : Prog A :=
  match o with Some x => ret x | None => fault end.

Notation "x <- m ;; f" := (bind m (fun x => f))
  (at level 61, m at next level, right associativity).
Notation "' p <- m ;; f" := (bind m (fun x => let p := x in f))
  (at level 61, p pattern, m at next level, right associativity).

(** The environment of one run. *)
Record env := {
  omp_threads : Z;                    (* omp_get_num_threads() *)
  malloc_ok : nat -> nat -> bool;     (* thread, buffer (0 a, 1 b, 2 c) *)
  heap_junk : double;                 (* content of fresh heap memory *)
  clock : nat -> Z * Z;               (* n-th reading: tv_sec, tv_nsec *)
  schedule : region_name -> nat -> list nat;
                                      (* region, round k: thread picked at each step *)
  spin_fuel : nat                     (* bound on the iterations of a busy wait *)
}.

(* ===================================================================== *)
(** * Buffers *)
(* ===================================================================== *)

(** A pointer returned by [malloc]: [None] is the null pointer. *)
Definition buffer : Type := option (list double).

Inductive arr := ArrA | ArrB | ArrC.

(** The variables of [main] that the parallel regions share. *)
Record store := {
  arr_a : list buffer;     (* STREAM_TYPE *a[nthreads] *)
  arr_b : list buffer;
  arr_c : list buffer;
  var_i : Z                (* int i *)
}.

Definition get_arr (x : arr) (st : store) : list buffer :=
  match x with ArrA => arr_a st | ArrB => arr_b st | ArrC => arr_c st end.

Definition set_arr (x : arr) (v : list buffer) (st : store) : store :=
  match x with
  | ArrA => {| arr_a := v; arr_b := arr_b st; arr_c := arr_c st; var_i := var_i st |}
  | ArrB => {| arr_a := arr_a st; arr_b := v; arr_c := arr_c st; var_i := var_i st |}
  | ArrC => {| arr_a := arr_a st; arr_b := arr_b st; arr_c := v; var_i := var_i st |}
  end.

Definition set_i (v : Z) (st : store) : store :=
  {| arr_a := arr_a st; arr_b := arr_b st; arr_c := arr_c st; var_i := v |}.

Fixpoint replace_nth {A} (n : nat) (v : A) (l : list A) : list A :=
  match l, n with
  | [], _ => []
  | _ :: r, O => v :: r
  | x :: r, S n' => x :: replace_nth n' v r
  end.

(** [x[tid][i]] as an rvalue; [None] when the access is undefined (null
    pointer or index outside the block). *)
Definition load (x : arr) (tid : nat) (i : Z) (st : store) : option double :=
  match nth_error (get_arr x st) tid with
  | Some (Some buf) => if i <? 0 then None else nth_error buf (Z.to_nat i)
  | _ => None
  end.

(** [x[tid][i] = v]. *)
Definition store_elem (x : arr) (tid : nat) (i : Z) (v : double) (st : store)
  : option store :=
  match nth_error (get_arr x st) tid with
  | Some (Some buf) =>
      if (i <? 0) || (Z.of_nat (List.length buf) <=? i) then None
      else Some (set_arr x (replace_nth tid (Some (replace_nth (Z.to_nat i) v buf))
                                        (get_arr x st)) st)
  | _ => None
  end.

(** One C statement of a loop body, run by thread [tid]; it reads the
    shared counter when it runs. *)
Definition stmt : Type := nat -> store -> option store.

Definition assign_const (x : arr) (v : double) : stmt :=
  fun tid st => store_elem x tid (var_i st) v st.

(** Lines 225-227. *)
Definition init_body : list stmt :=
  [assign_const ArrA d1; assign_const ArrB d2; assign_const ArrC d0].

(** Line 238: [a[tid][i] = 2.0E0 * a[tid][i]]. *)
Definition warm_stmt : stmt := fun tid st =>
  match load ArrA tid (var_i st) st with
  | Some x => store_elem ArrA tid (var_i st) (dmul d2 x) st
  | None => None
  end.

(** Line 264: [c[tid][i] = a[tid][i]]. *)
Definition copy_stmt : stmt := fun tid st =>
  match load ArrA tid (var_i st) st with
  | Some x => store_elem ArrC tid (var_i st) x st
  | None => None
  end.

(** Line 273: [b[tid][i] = SCALAR * c[tid][i]]. *)
Definition scale_stmt : stmt := fun tid st =>
  match load ArrC tid (var_i st) st with
  | Some x => store_elem ArrB tid (var_i st) (dmul SCALAR x) st
  | None => None
  end.

(** Line 282: [c[tid][i] = a[tid][i] + b[tid][i]]. *)
Definition add_stmt : stmt := fun tid st =>
  match load ArrA tid (var_i st) st, load ArrB tid (var_i st) st with
  | Some x, Some y => store_elem ArrC tid (var_i st) (dadd x y) st
  | _, _ => None
  end.

(** Line 291: [a[tid][i] = b[tid][i] + SCALAR * c[tid][i]]. *)
Definition triad_stmt : stmt := fun tid st =>
  match load ArrB tid (var_i st) st, load ArrC tid (var_i st) st with
  | Some x, Some y => store_elem ArrA tid (var_i st) (dadd x (dmul SCALAR y)) st
  | _, _ => None
  end.

Definition body_of (r : region_name) : list stmt :=
  match r with
  | RInit => init_body
  | RWarm => [warm_stmt]
  | RCopy => [copy_stmt]
  | RScale => [scale_stmt]
  | RAdd => [add_stmt]
  | RTriad => [triad_stmt]
  end.

(* ===================================================================== *)
(** * Parallel regions *)
(* ===================================================================== *)

(** Where a thread stands in
    [for (i = 0; i < array_size; i++) { s_0; ...; s_(m-1); }]:
    before [i = 0], before the test, before statement [k] of the body
    ([k = m] is the increment), or past the loop. *)
Inductive pc := AtInit | AtTest | AtBody (k : nat) | AtEnd.

Record region_state := {
  mem : store;
  pcs : list pc        (* one per thread of the team *)
}.

(** One step of thread [tid].  Steps are whole statements (a statement is
    not interleaved with another thread).  [None] is undefined behaviour. *)
Definition thread_step (body : list stmt) (n : Z) (tid : nat)
  (rs : region_state) : option region_state :=
  let goto p st := Some {| mem := st; pcs := replace_nth tid p (pcs rs) |} in
  match nth_error (pcs rs) tid with
  | None | Some AtEnd => Some rs
  | Some AtInit => goto AtTest (set_i 0 (mem rs))
  | Some AtTest =>
      if var_i (mem rs) <? n then goto (AtBody 0) (mem rs) else goto AtEnd (mem rs)
  | Some (AtBody k) =>
      match nth_error body k with
      | Some s =>
          match s tid (mem rs) with
          | Some st => goto (AtBody (S k)) st
          | None => None
          end
      | None =>
          if var_i (mem rs) <? INT_MAX
          then goto AtTest (set_i (var_i (mem rs) + 1) (mem rs))
          else None
      end
  end.

Fixpoint run_schedule (body : list stmt) (n : Z) (sched : list nat)
  (rs : region_state) : option region_state :=
  match sched with
  | [] => Some rs
  | tid :: rest =>
      match thread_step body n tid rs with
      | Some rs' => run_schedule body n rest rs'
      | None => None
      end
  end.

Definition is_end (p : pc) : bool :=
  match p with AtEnd => true | _ => false end.

(** A region ends at its implicit barrier, when every thread has left the
    loop. *)
Definition run_region (body : list stmt) (n : Z) (nthreads : nat)
  (sched : list nat) (st : store) : option (option store) :=
  match run_schedule body n sched {| mem := st; pcs := repeat AtInit nthreads |} with
  | None => None
  | Some rs => Some (if forallb is_end (pcs rs) then Some (mem rs) else None)
  end.

Definition parallel_for (e : env) (r : region_name) (k : nat) (n : Z)
  (nthreads : nat) (st : store) : Prog store :=
  fun w =>
    match run_region (body_of r) n nthreads (schedule e r k) st with
    | None => Fault (log (EvRegion r) w)
    | Some None => Stuck (log (EvRegion r) w)
    | Some (Some st') => Ok st' (log (EvRegion r) w)
    end.

(** The schedule that runs the threads of [order] one after the other,
    each for the [2 + n * (2 + m)] steps of its whole loop. *)
Definition serial_schedule (order : list nat) (n m : nat) : list nat :=
  flat_map (fun tid => repeat tid (2 + n * (2 + m))) order.

(* ===================================================================== *)
(** * Timer and clock calibration *)
(* ===================================================================== *)

(** Line 375: [(double) tv_sec + ((double) tv_nsec / 1.0E9)]. *)
Definition seconds_of (ts : Z * Z) : double :=
  dadd (double_of_Z (fst ts)) (ddiv (double_of_Z (snd ts)) d1e9).

(** [mysecond()]: the next reading of the clock. *)
Definition mysecond (e : env) : Prog double :=
  fun w => Ok (seconds_of (clock e (ticks w)))
              {| trace := trace w ++ [EvClock]; ticks := S (ticks w) |}.

Definition M : nat := 20.     (* # define M 20 *)

(** Line 351: [while(((t2 = mysecond()) - t1) < 1.0E-6);] and the value of
    [t2] on exit. *)
Fixpoint spin (e : env) (fuel : nat) (t1 : double) : Prog double :=
  match fuel with
  | O => fun w => Stuck w
  | S fuel' =>
      t2 <- mysecond e ;;
      if dlt (dsub t2 t1) d1em6 then spin e fuel' t1 else ret t2
  end.

(** Lines 348-353, for [m] rounds: the list [timesfound]. *)
Fixpoint collect_ticks (e : env) (fuel : nat) (m : nat) : Prog (list double) :=
  match m with
  | O => ret []
  | S m' =>
      t1 <- mysecond e ;;
      t2 <- spin e fuel t1 ;;
      rest <- collect_ticks e fuel m' ;;
      ret (t2 :: rest)
  end.

(** Lines 362-366, from [timesfound[i-1] = prev] on. *)
Fixpoint min_delta (prev : double) (rest : list double) (minDelta : Z)
  : option Z :=
  match rest with
  | [] => Some minDelta
  | t :: rest' =>
      match int_of_double (dmul d1e6 (dsub t prev)) with
      | Some Delta => min_delta t rest' (MINi minDelta (MAXi Delta 0))
      | None => None
      end
  end.

Definition granularity (timesfound : list double) : option Z :=
  match timesfound with
  | [] => Some 1000000
  | t0 :: rest => min_delta t0 rest 1000000
  end.

Definition checktick (e : env) (fuel : nat) : Prog Z :=
  timesfound <- collect_ticks e fuel M ;;
  lift_option (granularity timesfound).

(* ===================================================================== *)
(** * Allocation *)
(* ===================================================================== *)

(** [malloc(sizeof(STREAM_TYPE) * array_size)] by thread [tid] for buffer
    [which]: the product is taken in [size_t]. *)
Definition malloc_bytes (array_size : Z) : Z :=
  to_ulong (sizeof_STREAM_TYPE * to_ulong array_size).

Definition malloc (e : env) (tid which : nat) (bytes : Z) : Prog buffer :=
  fun w =>
    let ok := malloc_ok e tid which in
    Ok (if ok
        then Some (repeat (heap_junk e) (Z.to_nat (bytes / sizeof_STREAM_TYPE)))
        else None)
       (log (EvMalloc tid which bytes ok) w).

(** Lines 184-190 for threads [tid], [tid+1], ... ([count] of them).  Each
    thread writes its own slot only and the result of the region does not
    depend on the interleaving; the events are listed thread by thread. *)
Fixpoint allocate_from (e : env) (array_size : Z) (tid count : nat)
  : Prog (list buffer * list buffer * list buffer) :=
  match count with
  | O => ret ([], [], [])
  | S count' =>
      pa <- malloc e tid 0 (malloc_bytes array_size) ;;
      pb <- malloc e tid 1 (malloc_bytes array_size) ;;
      pc <- malloc e tid 2 (malloc_bytes array_size) ;;
      '(la, lb, lc) <- allocate_from e array_size (S tid) count' ;;
      ret (pa :: la, pb :: lb, pc :: lc)
  end.

Definition allocate (e : env) (array_size : Z) (nthreads : nat) (i0 : Z)
  : Prog store :=
  '(la, lb, lc) <- allocate_from e array_size 0 nthreads ;;
  ret {| arr_a := la; arr_b := lb; arr_c := lc; var_i := i0 |}.

(* ===================================================================== *)
(** * Timed kernels *)
(* ===================================================================== *)

(** [times[4][NTIMES]]. *)
Definition table : Type := nat -> nat -> double.

Definition set_entry (t : table) (j k : nat) (v : double) : table :=
  fun j' k' => if (Nat.eqb j j' && Nat.eqb k k')%bool then v else t j' k'.

(** One kernel of lines 259-293: start time, region, elapsed time. *)
Definition timed (e : env) (r : region_name) (k : nat) (n : Z)
  (nthreads : nat) (st : store) : Prog (double * store) :=
  t0 <- mysecond e ;;
  st' <- parallel_for e r k n nthreads st ;;
  t1 <- mysecond e ;;
  ret (dsub t1 t0, st').

(** The body of the loop on [k], lines 259-293. *)
Definition iteration (e : env) (n : Z) (nthreads : nat) (k : nat)
  (ts : table) (st : store) : Prog (table * store) :=
  '(t, st) <- timed e RCopy k n nthreads st ;;
  let ts := set_entry ts 0 k t in
  '(t, st) <- timed e RScale k n nthreads st ;;
  let ts := set_entry ts 1 k t in
  '(t, st) <- timed e RAdd k n nthreads st ;;
  let ts := set_entry ts 2 k t in
  '(t, st) <- timed e RTriad k n nthreads st ;;
  let ts := set_entry ts 3 k t in
  ret (ts, st).

(** [for (k = k0; k < k0 + count; k++)] over {!iteration}. *)
Fixpoint iterations (e : env) (n : Z) (nthreads : nat) (k0 count : nat)
  (ts : table) (st : store) : Prog (table * store) :=
  match count with
  | O => ret (ts, st)
  | S count' =>
      '(ts, st) <- iteration e n nthreads k0 ts st ;;
      iterations e n nthreads (S k0) count' ts st
  end.

(* ===================================================================== *)
(** * Statistics and report *)
(* ===================================================================== *)

(** [avgtime], [mintime], [maxtime]. *)
Record stats := {
  avgtime : nat -> double;
  mintime : nat -> double;
  maxtime : nat -> double
}.

Definition upd (f : nat -> double) (i : nat) (v : double) : nat -> double :=
  fun j => if Nat.eqb i j then v else f j.

(** [for (x = start; x < start + count; x++) s = body x s]. *)
Fixpoint for_loop {T : Type} (start count : nat) (body : nat -> T -> T)
  (s : T) : T :=
  match count with
  | O => s
  | S count' => for_loop (S start) count' body (body start s)
  end.

(** Lines 301-303. *)
Definition stats_first (times : table) (i : nat) (s : stats) : stats :=
  {| avgtime := upd (avgtime s) i (times i 1%nat);
     mintime := upd (mintime s) i (times i 1%nat);
     maxtime := upd (maxtime s) i (times i 1%nat) |}.

(** Lines 309-311. *)
Definition stats_next (times : table) (k i : nat) (s : stats) : stats :=
  {| avgtime := upd (avgtime s) i (dadd (avgtime s i) (times i k));
     mintime := upd (mintime s) i (MIN (mintime s i) (times i k));
     maxtime := upd (maxtime s) i (MAX (maxtime s i) (times i k)) |}.

(** Line 316. *)
Definition stats_div (ntimes : Z) (i : nat) (s : stats) : stats :=
  {| avgtime := upd (avgtime s) i (ddiv (avgtime s i) (double_of_Z (ntimes - 1)));
     mintime := mintime s;
     maxtime := maxtime s |}.

(** Lines 296-316; [s0] is the indeterminate initial content of the three
    arrays. *)
Definition reduce (ntimes : Z) (times : table) (s0 : stats) : stats :=
  let s1 := for_loop 0 4 (stats_first times) s0 in
  let s2 := for_loop 2 (Z.to_nat ntimes - 2)
              (fun k => for_loop 0 4 (stats_next times k)) s1 in
  for_loop 0 4 (stats_div ntimes) s2.

(** Lines 319-322: [f * sizeof(STREAM_TYPE) * array_size * nthreads] in
    [size_t], stored in a [double]. *)
Definition bytes_count (f array_size nthreads : Z) : Z :=
  to_ulong (to_ulong (to_ulong (f * sizeof_STREAM_TYPE)
                      * to_ulong array_size) * to_ulong nthreads).

Definition words_of (k : nat) : Z :=
  match k with 0%nat | 1%nat => 2 | _ => 3 end.

Definition bytes (array_size nthreads : Z) (k : nat) : double :=
  double_of_Z (bytes_count (words_of k) array_size nthreads).

(** Line 329: the bandwidth printed for kernel [k]. *)
Definition bandwidth (array_size nthreads : Z) (s : stats) (k : nat) : double :=
  ddiv (ddiv (ddiv (bytes array_size nthreads k) d1024) d1024) (mintime s k).

(** Lines 325-333. *)
Fixpoint report_from (array_size nthreads : Z) (s : stats) (k count : nat)
  : Prog unit :=
  match count with
  | O => ret tt
  | S count' =>
      _ <- emit (EvReport k (bandwidth array_size nthreads s k)
                          (avgtime s k) (mintime s k) (maxtime s k)) ;;
      report_from array_size nthreads s (S k) count'
  end.

(* ===================================================================== *)
(** * The program *)
(* ===================================================================== *)

(** Indeterminate initial contents of the automatic arrays. *)
Definition junk_table (e : env) : table := fun _ _ => heap_junk e.
Definition junk_stats (e : env) : stats :=
  {| avgtime := fun _ => heap_junk e; mintime := fun _ => heap_junk e;
     maxtime := fun _ => heap_junk e |}.

(** Lines 219-294 with the loop on [k] cut after [iters] rounds:
    initialisation, the timing estimate of lines 233-243, which doubles
    [a] and converts the elapsed microseconds to [int] for printing, and
    the timed kernels. *)
Definition run_loops (e : env) (array_size : Z) (nthreads : nat) (iters : nat)
  (st : store) : Prog (table * store) :=
  st <- parallel_for e RInit 0 array_size nthreads st ;;
  t <- mysecond e ;;
  st <- parallel_for e RWarm 0 array_size nthreads st ;;
  t' <- mysecond e ;;
  estimate <- lift_option (int_of_double (dmul d1e6 (dsub t' t))) ;;
  iterations e array_size nthreads 0 iters (junk_table e) st.

(** Lines 156-294: team size, allocation, calibration, then {!run_loops}.
    A team of fewer than one thread would make the arrays [cpu_id], [a],
    [b], [c] of non-positive length.  [i] holds [nthreads] after the loop
    of line 176. *)
Definition run_kernels (e : env) (stream_array_size : Z) (iters : nat)
  : Prog (Z * table * store) :=
  let nthreads := omp_threads e in
  if (nthreads <? 1) || negb (in_int nthreads) then fault else
  array_size <- lift_option (compute_array_size stream_array_size nthreads) ;;
  st <- allocate e array_size (Z.to_nat nthreads) nthreads ;;
  quantum <- checktick e (spin_fuel e) ;;
  '(ts, st) <- run_loops e array_size (Z.to_nat nthreads) iters st ;;
  ret (array_size, ts, st).

(** Lines 139-337. *)
Definition benchmark (cfg : config) (e : env) (stream_array_size : Z)
  : Prog stats :=
  '(array_size, ts, st) <- run_kernels e stream_array_size
                             (Z.to_nat (NTIMES cfg)) ;;
  let s := reduce (NTIMES cfg) ts (junk_stats e) in
  _ <- report_from array_size (omp_threads e) s 0 4 ;;
  ret s.

Inductive termination :=
| Returned (status : Z)     (* [main] returns *)
| Crashed                   (* undefined behaviour *)
| Hung.                     (* no result within the fuel and schedules given *)

Definition error_message : string := "[ERROR] The input value is invalid!".

(** [main(argc, argv)]: [argv] lists the program name and the arguments. *)
Definition main (cfg : config) (argv : list string) (e : env)
  : termination * list event :=
  match read_args cfg argv with
  | InvalidInput => (Returned (-1), [EvError error_message])
  | ArgvOutOfBounds => (Crashed, [])
  | UseSize n =>
      match benchmark cfg e n world0 with
      | Ok _ w => (Returned 0, trace w)
      | Fault w => (Crashed, trace w)
      | Stuck w => (Hung, trace w)
      end
  end.

(* ===================================================================== *)
(** * Vocabulary of the properties *)
(* ===================================================================== *)

(** ** Runs *)

Definition world_of {A} (o : outcome A) : world :=
  match o with Ok _ w | Fault w | Stuck w => w end.

Definition result_of {A} (o : outcome A) : option A :=
  match o with Ok x _ => Some x | _ => None end.

Definition not_error (ev : event) : Prop := forall msg, ev <> EvError msg.

(** No error message has been printed. *)
Definition quiet (tr : list event) : Prop := forall msg, ~ In (EvError msg) tr.

(** The run has started the region of initialisation. *)
Definition reaches_init (tr : list event) : Prop := In (EvRegion RInit) tr.

(** The exit status seen by the parent process: the low eight bits of the
    value returned by [main]. *)
Definition exit_status (ret : Z) : Z := ret mod 256.

(** The run took the error path of lines 132-136. *)
Definition took_error_path (cfg : config) (argv : list string) (e : env) : Prop :=
  fst (main cfg argv e) = Returned (-1) \/
  exists msg, In (EvError msg) (snd (main cfg argv e)).

(** ** Arguments *)

(** The part of an argument that [strtoul] reads the digits from. *)
Definition after_sign (s : string) : string :=
  match s with
  | String "-"%char r => r
  | String "+"%char r => r
  | _ => s
  end.

Definition is_minus (s : string) : bool :=
  match s with String "-"%char _ => true | _ => false end.

(** No decimal digit follows the white space and the optional sign. *)
Definition non_numeric (s : string) : bool :=
  negb (starts_with_digit (after_sign (skip_spaces s))).

(** The argument is a minus sign followed by at least one digit. *)
Definition minus_then_digits (s : string) : bool :=
  match s with
  | String "-"%char r => starts_with_digit r
  | _ => false
  end.

(** Some digit of the leading digit run of [s] is not ['0']. *)
Fixpoint digit_run_nonzero (s : string) : bool :=
  match s with
  | String c r =>
      match digit_of c with
      | Some d => negb (d =? 0) || digit_run_nonzero r
      | None => false
      end
  | EmptyString => false
  end.

(** ** Doubles *)

Definition d3 : double := SCALAR.
Definition d4 : double := Eval vm_compute in double_of_Z 4.
Definition d6 : double := Eval vm_compute in double_of_Z 6.
Definition d8 : double := Eval vm_compute in double_of_Z 8.
Definition d15 : double := Eval vm_compute in double_of_Z 15.
Definition d30 : double := Eval vm_compute in double_of_Z 30.
Definition d128 : double := Eval vm_compute in double_of_Z 128.
(** The double nearest to 0.1. *)
Definition tenth : double := Eval vm_compute in ddiv d1 (double_of_Z 10).

Definition not_nan (x : double) : bool :=
  match x with S754_nan => false | _ => true end.

(** The double [x] is exactly the positive integer [n]. *)
Definition holds_integer (x : double) (n : Z) : Prop :=
  exists m e, x = S754_finite false m e /\ e <= 0 /\ Zpos m = n * 2 ^ (- e).

(** The last step of [binary_round_aux]: renormalisation after rounding. *)
Definition finish (mr e : Z) : double :=
  let '(mrs, e') := shr_fexp prec emax mr e loc_Exact in
  match shr_m mrs with
  | Z0 => S754_zero false
  | Zpos m => if e' <=? emax - prec then S754_finite false m e' else S754_infinity false
  | Zneg _ => S754_nan
  end.

(** ** Statistics *)

(** [times[k][1]], ..., [times[k][ntimes-1]]. *)
Definition timings (times : table) (ntimes : Z) (k : nat) : list double :=
  map (times k) (seq 1 (Z.to_nat ntimes - 1)).

(** The binary64 sum of a list, added from left to right. *)
Definition float_sum (l : list double) : double :=
  match l with [] => d0 | x :: r => fold_left dadd r x end.

(** The binary64 mean: the sum divided by the converted length. *)
Definition float_mean (l : list double) : double :=
  ddiv (float_sum l) (double_of_Z (Z.of_nat (List.length l))).

Definition float_min (l : list double) : double :=
  match l with [] => d0 | x :: r => fold_left MIN r x end.

Definition float_max (l : list double) : double :=
  match l with [] => d0 | x :: r => fold_left MAX r x end.

(** [m] is a least element of [l] for the order of the doubles. *)
Definition is_minimum (m : double) (l : list double) : Prop :=
  In m l /\ forall x, In x l -> dle m x = true.

Definition is_maximum (m : double) (l : list double) : Prop :=
  In m l /\ forall x, In x l -> dle x m = true.

(** ** Clock *)

(** The [n]-th value returned by [mysecond]. *)
Definition reading (e : env) (n : nat) : double := seconds_of (clock e n).

(** Line 351 leaves its loop on reading [m] when started on reading [n]. *)
Definition apart (e : env) (n m : nat) : bool :=
  negb (dlt (dsub (reading e m) (reading e n)) d1em6).

(** The clock keeps advancing over the readings [first] to [last]: every
    reading before [last] is followed, within [d] readings, by one that
    the test of line 351 finds at least a microsecond later. *)
Definition advances (e : env) (d first last : nat) : Prop :=
  forall n, (first <= n < last)%nat ->
    exists m, (n < m <= n + d)%nat /\ apart e n m = true.

(** [(int) x] is defined. *)
Definition fits_int (x : double) : bool :=
  match int_of_double x with Some _ => true | None => false end.

(** The readings [first] to [last] are close enough for the difference of
    any two of them, in microseconds, to fit an [int] (line 364). *)
Definition steady (e : env) (first last : nat) : Prop :=
  forall n m, (first <= n)%nat -> (n < m)%nat -> (m <= last)%nat ->
    fits_int (dmul d1e6 (dsub (reading e m) (reading e n))) = true.

(** [tf] lists the ticks found from reading [n] on: each round takes a
    first reading [n], then reads until a reading [m] is a microsecond
    apart from it, and records that one; the next round starts on the
    reading after [m]. *)
Inductive tick_sequence (e : env) : nat -> list double -> Prop :=
| ticks_nil n : tick_sequence e n []
| ticks_cons n m tf :
    (n < m)%nat ->
    apart e n m = true ->
    (forall j, (n < j < m)%nat -> apart e n j = false) ->
    tick_sequence e (S m) tf ->
    tick_sequence e n (reading e m :: tf).

(** The successive differences of [tf] in microseconds, as line 364
    converts them; [None] when a conversion is undefined. *)
Fixpoint deltas_from (prev : double) (rest : list double) : option (list Z) :=
  match rest with
  | [] => Some []
  | t :: rest' =>
      match int_of_double (dmul d1e6 (dsub t prev)), deltas_from t rest' with
      | Some d, Some ds => Some (d :: ds)
      | _, _ => None
      end
  end.

Definition deltas (tf : list double) : option (list Z) :=
  match tf with [] => Some [] | t0 :: rest => deltas_from t0 rest end.

(** The least of 1000000 and the differences, each raised to 0 first. *)
Definition capped_minimum (ds : list Z) : Z :=
  fold_left Z.min (map (fun d => Z.max d 0) ds) 1000000.

(** The calibration of the clock returns when started on the first
    reading. *)
Definition calibration_returns (e : env) : Prop :=
  forall w, ticks w = 0%nat -> exists q w', checktick e (spin_fuel e) w = Ok q w'.

(** Moreover the two readings that follow the calibration are close
    enough for the estimate of line 240 to fit the [int] it is printed
    as. *)
Definition timing_returns (e : env) : Prop :=
  forall w, ticks w = 0%nat ->
    exists q w',
      checktick e (spin_fuel e) w = Ok q w' /\
      int_of_double
        (dmul d1e6 (dsub (reading e (S (ticks w'))) (reading e (ticks w'))))
        <> None.

(** ** Buffers *)

Definition which_of (x : arr) : nat :=
  match x with ArrA => 0 | ArrB => 1 | ArrC => 2 end.

(** What [malloc] hands to thread [tid] for buffer [which]. *)
Definition fresh_buffer (e : env) (array_size : Z) (tid which : nat) : buffer :=
  if malloc_ok e tid which
  then Some (repeat (heap_junk e)
               (Z.to_nat (malloc_bytes array_size / sizeof_STREAM_TYPE)))
  else None.

(** The pointer arrays after the region of lines 184-190. *)
Definition fresh_store (e : env) (array_size : Z) (nthreads : nat) (i0 : Z)
  : store :=
  {| arr_a := map (fun t => fresh_buffer e array_size t 0) (seq 0 nthreads);
     arr_b := map (fun t => fresh_buffer e array_size t 1) (seq 0 nthreads);
     arr_c := map (fun t => fresh_buffer e array_size t 2) (seq 0 nthreads);
     var_i := i0 |}.

(** Two threads, four elements each, every element of an array alike. *)
Definition uniform (va vb vc : double) (i : Z) : store :=
  {| arr_a := [Some (repeat va 4); Some (repeat va 4)];
     arr_b := [Some (repeat vb 4); Some (repeat vb 4)];
     arr_c := [Some (repeat vc 4); Some (repeat vc 4)];
     var_i := i |}.

(** The two threads run every loop one after the other, in some order. *)
Definition runs_serially (e : env) : Prop :=
  forall r k,
    schedule e r k = serial_schedule [0%nat; 1%nat] 4 (List.length (body_of r)) \/
    schedule e r k = serial_schedule [1%nat; 0%nat] 4 (List.length (body_of r)).

(** ** Kernels *)

(** The effect of kernel [r] on the elements [(a, b, c)] at one index. *)
Definition elementwise (r : region_name) (v : double * double * double)
  : double * double * double :=
  let '(x, y, z) := v in
  match r with
  | RInit => (d1, d2, d0)
  | RWarm => (dmul d2 x, y, z)
  | RCopy => (x, y, x)
  | RScale => (x, dmul SCALAR z, z)
  | RAdd => (x, y, dadd x y)
  | RTriad => (dadd y (dmul SCALAR z), y, z)
  end.

(** [(a[t][i], b[t][i], c[t][i])]. *)
Definition element (t : nat) (i : Z) (st : store)
  : option (double * double * double) :=
  match load ArrA t i st, load ArrB t i st, load ArrC t i st with
  | Some x, Some y, Some z => Some (x, y, z)
  | _, _, _ => None
  end.

(** Every thread of the team owns three buffers of [n] elements. *)
Definition owns_buffers (nthreads : nat) (n : Z) (st : store) : Prop :=
  forall x t, (t < nthreads)%nat ->
    exists buf, nth_error (get_arr x st) t = Some (Some buf) /\
                Z.of_nat (List.length buf) = n.

(** [st'] has the pointers and the buffer lengths of [st]. *)
Definition same_shape (st st' : store) : Prop :=
  forall x t,
    option_map (option_map (@List.length double)) (nth_error (get_arr x st') t)
    = option_map (option_map (@List.length double)) (nth_error (get_arr x st) t).

(** From [st] to [st'] kernel [r] has been applied to the elements
    [lo <= i < hi] of thread [t], and nothing else has changed. *)
Definition applied (r : region_name) (t : nat) (lo hi : Z) (st st' : store)
  : Prop :=
  same_shape st st' /\
  (forall x t' j, ~ (t' = t /\ lo <= j < hi) -> load x t' j st' = load x t' j st) /\
  (forall j, lo <= j < hi ->
     element t j st' = option_map (elementwise r) (element t j st)).

(** The statements of a body in sequence. *)
Fixpoint exec_stmts (ss : list stmt) (tid : nat) (st : store) : option store :=
  match ss with
  | [] => Some st
  | s :: rest =>
      match s tid st with
      | Some st' => exec_stmts rest tid st'
      | None => None
      end
  end.

Definition arr_eqb (x y : arr) : bool :=
  match x, y with
  | ArrA, ArrA | ArrB, ArrB | ArrC, ArrC => true
  | _, _ => false
  end.

(** From [st] to [st'] kernel [r] has been applied to the [n] elements
    of every thread of [done], and nothing else has changed. *)
Definition applied_to (r : region_name) (done : list nat) (n : Z)
  (st st' : store) : Prop :=
  same_shape st st' /\
  (forall x t j, ~ In t done -> load x t j st' = load x t j st) /\
  (forall t j, In t done -> 0 <= j < n ->
     element t j st' = option_map (elementwise r) (element t j st)).

(** ** Environments of the examples *)

Definition default_config : config :=
  {| STREAM_ARRAY_SIZE := 20000000; NTIMES_given := None |}.

(** A team of two threads that run every loop one after the other, with
    every allocation successful and a clock that advances by one second
    per reading. *)
Definition two_threads : env :=
  {| omp_threads := 2;
     malloc_ok := fun _ _ => true;
     heap_junk := S754_nan;
     clock := fun n => (Z.of_nat n, 0);
     schedule := fun r _ => serial_schedule [0%nat; 1%nat] 4 (List.length (body_of r));
     spin_fuel := 1 |}.

(** The same team when the first [malloc] of thread 0 fails. *)
Definition failing_malloc : env :=
  {| omp_threads := 2;
     malloc_ok := fun tid which => negb (Nat.eqb tid 0 && Nat.eqb which 0);
     heap_junk := S754_nan;
     clock := fun n => (Z.of_nat n, 0);
     schedule := fun r _ => serial_schedule [0%nat; 1%nat] 4 (List.length (body_of r));
     spin_fuel := 1 |}.

(** A clock that advances by two seconds per reading. *)
Definition slow_clock : env :=
  {| omp_threads := 1;
     malloc_ok := fun _ _ => true;
     heap_junk := S754_nan;
     clock := fun n => (2 * Z.of_nat n, 0);
     schedule := fun _ _ => [];
     spin_fuel := 1 |}.

(** A clock that is read every three microseconds. *)
Definition microsecond_clock : env :=
  {| omp_threads := 1;
     malloc_ok := fun _ _ => true;
     heap_junk := S754_nan;
     clock := fun n => let ns := 3000 * Z.of_nat n in
                       (ns / 1000000000, ns mod 1000000000);
     schedule := fun _ _ => [];
     spin_fuel := 1 |}.

(** An interleaving of two threads in a loop of two rounds.  Thread 0
    enters the loop and passes the test; thread 1 then restarts the shared
    counter, runs the body for [i = 0] and increments; thread 0 resumes
    with [i = 1], runs the body and increments to 2; both threads find
    [i = 2] and leave. *)
Definition racy_schedule : list nat := [0; 0; 1; 1; 1; 1; 0; 0; 0; 1]%nat.

Definition racy_threads : env :=
  {| omp_threads := 2;
     malloc_ok := fun _ _ => true;
     heap_junk := S754_nan;
     clock := fun n => (Z.of_nat n, 0);
     schedule := fun r _ =>
       match r with
       | RCopy => racy_schedule
       | _ => serial_schedule [0%nat; 1%nat] 2 (List.length (body_of r))
       end;
     spin_fuel := 1 |}.

Definition before_copy : store :=
  {| arr_a := [Some [d1; d2]; Some [d3; d4]];
     arr_b := [Some [d0; d0]; Some [d0; d0]];
     arr_c := [Some [d0; d0]; Some [d0; d0]];
     var_i := 2 |}.

Definition after_racy_copy : store :=
  {| arr_a := [Some [d1; d2]; Some [d3; d4]];
     arr_b := [Some [d0; d0]; Some [d0; d0]];
     arr_c := [Some [d0; d2]; Some [d3; d0]];
     var_i := 2 |}.

(** Statistics whose minimum is one second for every kernel. *)
Definition one_second : stats :=
  {| avgtime := fun _ => d1; mintime := fun _ => d1; maxtime := fun _ => d1 |}.

(* ===================================================================== *)
(** * Further vocabulary *)
(* ===================================================================== *)

(** ** Traces *)

(** The events of the allocation region for a team of [nthreads]. *)
Definition alloc_events (e : env) (array_size : Z) (nthreads : nat) : list event :=
  flat_map (fun tid =>
              map (fun which => EvMalloc tid which (malloc_bytes array_size)
                                         (malloc_ok e tid which))
                  [0; 1; 2]%nat)
           (seq 0 nthreads).

(** The events of one timed kernel, of one iteration of the loop on [k],
    and of lines 219-294 for [iters] iterations. *)
Definition kernel_events (r : region_name) : list event :=
  [EvClock; EvRegion r; EvClock].

Definition iteration_events : list event :=
  flat_map kernel_events [RCopy; RScale; RAdd; RTriad].

Definition loops_events (iters : nat) : list event :=
  [EvRegion RInit; EvClock; EvRegion RWarm; EvClock]
  ++ List.concat (repeat iteration_events iters).

(** The four rows of the report. *)
Definition report_events (array_size nthreads : Z) (s : stats) : list event :=
  map (fun k => EvReport k (bandwidth array_size nthreads s k)
                         (avgtime s k) (mintime s k) (maxtime s k))
      [0; 1; 2; 3]%nat.

(** ** Clock granularity, lines 204-215 and 245-246 *)

Inductive granularity_message :=
| Microseconds (quantum : Z)    (* "... appears to be %d microseconds." *)
| LessThanOne.                  (* "... less than one microsecond." *)

(** Lines 205-215: the message chosen and the value of [quantum] after
    the test. *)
Definition quantum_message (q : Z) : granularity_message :=
  if q >=? 1 then Microseconds q else LessThanOne.

Definition quantum_of (q : Z) : Z := if q >=? 1 then q else 1.

(** Line 246: [quantum*100] in [int]; signed overflow is undefined. *)
Definition advised_minimum (quantum : Z) : option Z :=
  let v := quantum * 100 in if in_int v then Some v else None.

(** A clock that always reports the same time. *)
Definition frozen_clock : env :=
  {| omp_threads := 2;
     malloc_ok := fun _ _ => true;
     heap_junk := S754_nan;
     clock := fun _ => (1, 0);
     schedule := fun r _ => serial_schedule [0%nat; 1%nat] 4 (List.length (body_of r));
     spin_fuel := 1000 |}.

(** ** Whole runs *)

(** One round of Copy, Scale, Add, Triad on the elements at one index. *)
Definition kernel_pass (v : double * double * double) : double * double * double :=
  elementwise RTriad (elementwise RAdd (elementwise RScale (elementwise RCopy v))).

(** Every region is scheduled with the threads of the team running their
    loops one after the other, in some order. *)
Definition serial_env (e : env) (nthreads : nat) (n : Z) : Prop :=
  forall r k, exists order,
    NoDup order /\ (forall t, In t order <-> (t < nthreads)%nat) /\
    schedule e r k = serial_schedule order (Z.to_nat n) (List.length (body_of r)).

(** Every element of every thread holds [(a, b, c) = v]. *)
Definition all_elements (nthreads : nat) (n : Z) (st : store)
  (v : double * double * double) : Prop :=
  forall t j, (t < nthreads)%nat -> 0 <= j < n -> element t j st = Some v.

(** A team of three threads that run every loop one after the other, in
    the order 2, 0, 1, on three elements each. *)
Definition three_threads : env :=
  {| omp_threads := 3;
     malloc_ok := fun _ _ => true;
     heap_junk := S754_nan;
     clock := fun n => (Z.of_nat n, 0);
     schedule := fun r _ => serial_schedule [2; 0; 1]%nat 3 (List.length (body_of r));
     spin_fuel := 1 |}.

(** ** The shared counter *)

(** An interleaving of the first two threads of a team in a loop of [n]
    rounds with [m] statements in its body: thread 0 enters the loop and
    passes the test with [i = 0]; thread 1 then runs its whole loop, which
    leaves [i = n]; thread 0 resumes with the first statement of the
    body. *)
Definition overrun_schedule (n m : nat) : list nat :=
  [0; 0]%nat ++ repeat 1%nat (2 + n * (2 + m)) ++ [0%nat].

(** ** Empty loops *)

(** Where a thread stands in a loop of no round after [c] of its steps. *)
Definition phase (c : nat) : pc :=
  match c with 0%nat => AtInit | 1%nat => AtTest | _ => AtEnd end.

(** The state of a region of no round after the threads have made [c]
    steps each: nothing but the counter has been written. *)
Definition empty_loop_state (nthreads : nat) (st : store) (c : nat -> nat)
  (rs : region_state) : Prop :=
  List.length (pcs rs) = nthreads /\
  (forall t, (t < nthreads)%nat -> nth_error (pcs rs) t = Some (phase (c t))) /\
  (mem rs = st \/ mem rs = set_i 0 st) /\
  ((exists t, (t < nthreads)%nat /\ (1 <= c t)%nat) -> mem rs = set_i 0 st).

(** The schedule gives every thread of the team at least two steps. *)
Definition twice_each (nthreads : nat) (sched : list nat) : Prop :=
  forall t, (t < nthreads)%nat -> (2 <= count_occ Nat.eq_dec sched t)%nat.

(** ** Runs on any content of uninitialised memory *)

(** What uninitialised memory holds, cell by cell: the blocks returned by
    [malloc] (thread, buffer, index) and the automatic arrays [times],
    [avgtime], [mintime] and [maxtime] of [main]. *)
Record memory := {
  heap_cell : nat -> nat -> nat -> double;
  times_cell : table;
  stats_cell : stats
}.

(** [malloc], lines 187-189, on the memory [mem]. *)
Definition malloc_on (e : env) (mem : memory) (tid which : nat) (bytes : Z)
  : Prog buffer :=
  fun w =>
    let ok := malloc_ok e tid which in
    Ok (if ok
        then Some (map (heap_cell mem tid which)
                       (seq 0 (Z.to_nat (bytes / sizeof_STREAM_TYPE))))
        else None)
       (log (EvMalloc tid which bytes ok) w).

(** Lines 184-190. *)
Fixpoint allocate_from_on (e : env) (mem : memory) (array_size : Z)
  (tid count : nat) : Prog (list buffer * list buffer * list buffer) :=
  match count with
  | O => ret ([], [], [])
  | S count' =>
      pa <- malloc_on e mem tid 0 (malloc_bytes array_size) ;;
      pb <- malloc_on e mem tid 1 (malloc_bytes array_size) ;;
      pc <- malloc_on e mem tid 2 (malloc_bytes array_size) ;;
      '(la, lb, lc) <- allocate_from_on e mem array_size (S tid) count' ;;
      ret (pa :: la, pb :: lb, pc :: lc)
  end.

Definition allocate_on (e : env) (mem : memory) (array_size : Z)
  (nthreads : nat) (i0 : Z) : Prog store :=
  '(la, lb, lc) <- allocate_from_on e mem array_size 0 nthreads ;;
  ret {| arr_a := la; arr_b := lb; arr_c := lc; var_i := i0 |}.

(** Lines 219-294 with [times] as [mem] has it at its declaration. *)
Definition run_loops_on (e : env) (mem : memory) (array_size : Z)
  (nthreads : nat) (iters : nat) (st : store) : Prog (table * store) :=
  st <- parallel_for e RInit 0 array_size nthreads st ;;
  t <- mysecond e ;;
  st <- parallel_for e RWarm 0 array_size nthreads st ;;
  t' <- mysecond e ;;
  estimate <- lift_option (int_of_double (dmul d1e6 (dsub t' t))) ;;
  iterations e array_size nthreads 0 iters (times_cell mem) st.

(** Lines 156-294. *)
Definition run_kernels_on (e : env) (mem : memory) (stream_array_size : Z)
  (iters : nat) : Prog (Z * table * store) :=
  let nthreads := omp_threads e in
  if (nthreads <? 1) || negb (in_int nthreads) then fault else
  array_size <- lift_option (compute_array_size stream_array_size nthreads) ;;
  st <- allocate_on e mem array_size (Z.to_nat nthreads) nthreads ;;
  quantum <- checktick e (spin_fuel e) ;;
  '(ts, st) <- run_loops_on e mem array_size (Z.to_nat nthreads) iters st ;;
  ret (array_size, ts, st).

(** Lines 139-337. *)
Definition benchmark_on (cfg : config) (e : env) (mem : memory)
  (stream_array_size : Z) : Prog stats :=
  '(array_size, ts, st) <- run_kernels_on e mem stream_array_size
                             (Z.to_nat (NTIMES cfg)) ;;
  let s := reduce (NTIMES cfg) ts (stats_cell mem) in
  _ <- report_from array_size (omp_threads e) s 0 4 ;;
  ret s.

(** [main] on the memory [mem]. *)
Definition main_on (cfg : config) (argv : list string) (e : env) (mem : memory)
  : termination * list event :=
  match read_args cfg argv with
  | InvalidInput => (Returned (-1), [EvError error_message])
  | ArgvOutOfBounds => (Crashed, [])
  | UseSize n =>
      match benchmark_on cfg e mem n world0 with
      | Ok _ w => (Returned 0, trace w)
      | Fault w => (Crashed, trace w)
      | Stuck w => (Hung, trace w)
      end
  end.

(** The memory in which every cell holds [x]. *)
Definition uniform_memory (x : double) : memory :=
  {| heap_cell := fun _ _ _ => x;
     times_cell := fun _ _ => x;
     stats_cell := {| avgtime := fun _ => x; mintime := fun _ => x;
                      maxtime := fun _ => x |} |}.

(** A memory in which no two cells of a block are alike. *)
Definition garbled_memory : memory :=
  {| heap_cell := fun tid which i => double_of_Z (Z.of_nat (100 * tid + 10 * which + i));
     times_cell := fun j k => double_of_Z (- Z.of_nat (4 * k + j));
     stats_cell := {| avgtime := fun i => double_of_Z (Z.of_nat i);
                      mintime := fun _ => S754_infinity true;
                      maxtime := fun _ => S754_nan |} |}.

(** The two environments agree on the team, the allocations, the clock
    and the schedules. *)
Definition same_but_junk (e1 e2 : env) : Prop :=
  omp_threads e1 = omp_threads e2 /\
  (forall tid which, malloc_ok e1 tid which = malloc_ok e2 tid which) /\
  (forall n, clock e1 n = clock e2 n) /\
  (forall r k, schedule e1 r k = schedule e2 r k) /\
  spin_fuel e1 = spin_fuel e2.

(** The two stores have the same counter, the same null pointers and
    buffers of the same lengths. *)
Definition shape_eq (st1 st2 : store) : Prop :=
  var_i st1 = var_i st2 /\
  forall x, map (option_map (@List.length double)) (get_arr x st1)
          = map (option_map (@List.length double)) (get_arr x st2).

Definition opt_rel {A} (R : A -> A -> Prop) (o1 o2 : option A) : Prop :=
  match o1, o2 with
  | Some a, Some b => R a b
  | None, None => True
  | _, _ => False
  end.

Definition rs_eq (rs1 rs2 : region_state) : Prop :=
  pcs rs1 = pcs rs2 /\ shape_eq (mem rs1) (mem rs2).

(** The two outcomes are of the same kind, in the same world, with
    related results. *)
Definition sim {A} (R : A -> A -> Prop) (o1 o2 : outcome A) : Prop :=
  match o1, o2 with
  | Ok x w1, Ok y w2 => R x y /\ w1 = w2
  | Fault w1, Fault w2 => w1 = w2
  | Stuck w1, Stuck w2 => w1 = w2
  | _, _ => False
  end.

(** The two tables agree on the entries of the first [count] iterations. *)
Definition agree (count : nat) (ts1 ts2 : table) : Prop :=
  forall j k, (j < 4)%nat -> (k < count)%nat -> ts1 j k = ts2 j k.

(** [two_threads] with zeros in fresh memory. *)
Definition two_threads_zeroed : env :=
  {| omp_threads := 2;
     malloc_ok := fun _ _ => true;
     heap_junk := d0;
     clock := fun n => (Z.of_nat n, 0);
     schedule := fun r _ => serial_schedule [0%nat; 1%nat] 4 (List.length (body_of r));
     spin_fuel := 1 |}.

(** ** Times of zero *)

Definition finite_double (x : double) : bool :=
  match x with S754_finite _ _ _ | S754_zero _ => true | _ => false end.

(** Statistics in which every time is zero. *)
Definition no_time : stats :=
  {| avgtime := fun _ => d0; mintime := fun _ => d0; maxtime := fun _ => d0 |}.

(** The arrays of a team of one thread with two elements. *)
Definition one_thread_store : store :=
  {| arr_a := [Some [d1; d2]];
     arr_b := [Some [d0; d0]];
     arr_c := [Some [d0; d0]];
     var_i := 1 |}.

(** ** The report of the memory used, lines 192-200 *)

(** [BytesPerWord], an [int] (line 145). *)
Definition BytesPerWord : Z := sizeof_STREAM_TYPE.

(** [(double) array_size / 1024. / 1024.] and the same divided once more
    by [1024.]. *)
Definition MiB (array_size : Z) : double :=
  ddiv (ddiv (double_of_Z array_size) d1024) d1024.

Definition GiB (array_size : Z) : double :=
  ddiv (ddiv (ddiv (double_of_Z array_size) d1024) d1024) d1024.

(** The six numbers printed: for one array, for one thread and in total,
    each in MiB and in GiB. *)
Record memory_report := {
  per_array : double * double;
  per_thread : double * double;
  in_total : double * double
}.

Definition memory_lines (array_size nthreads : Z) : memory_report :=
  let B := double_of_Z BytesPerWord in
  let three := double_of_Z 3 in
  {| per_array := (dmul B (MiB array_size), dmul B (GiB array_size));
     per_thread := (dmul (dmul three B) (MiB array_size),
                    dmul (dmul three B) (GiB array_size));
     in_total := (dmul (dmul (dmul three B) (double_of_Z nthreads)) (MiB array_size),
                  dmul (dmul (dmul three B) (double_of_Z nthreads)) (GiB array_size)) |}.

(** The double [x] is exactly [v * 2^k], for an integer [v] of at most
    53 bits. *)
Definition exactly (x : double) (v k : Z) : Prop :=
  exists m e, x = S754_finite false m e /\ Zpos (digits2_pos m) = 53 /\
              e <= k /\ Zpos m = v * 2 ^ (k - e).


(* ===================================================================== *)
(** * Invariants of the trace *)
(* ===================================================================== *)

Section TraceInvariant.

(** A property of traces that printing anything but an error message
    preserves. *)
Variable P : list event -> Prop.
Hypothesis P_log : forall tr ev, not_error ev -> P tr -> P (tr ++ [ev]).

Definition keeps {A} (m : Prog A) : Prop :=
  forall w, P (trace w) -> P (trace (world_of (m w))).

Lemma keeps_ret {A} (x : A) : keeps (ret x).
Proof. intros w H. exact H. Qed.

Lemma keeps_fault {A} : keeps (@fault A).
Proof. intros w H. exact H. Qed.

Lemma keeps_bind {A B} (m : Prog A) (f : A -> Prog B) :
  keeps m -> (forall x, keeps (f x)) -> keeps (bind m f).
Proof.
  intros Hm Hf w H. unfold bind. specialize (Hm w H).
  destruct (m w) as [ x w' | w' | w' ]; cbn in *; [ apply Hf | | ]; assumption.
Qed.

Lemma keeps_lift {A} (o : option A) : keeps (lift_option o).
Proof. destruct o; [ apply keeps_ret | apply keeps_fault ]. Qed.

Lemma keeps_mysecond e : keeps (mysecond e).
Proof. intros w H. cbn. apply P_log; [ discriminate | exact H ]. Qed.

Lemma keeps_malloc e tid which n : keeps (malloc e tid which n).
Proof. intros w H. cbn. apply P_log; [ discriminate | exact H ]. Qed.

Lemma keeps_parallel_for e r k n nt st : keeps (parallel_for e r k n nt st).
Proof.
  intros w H. unfold parallel_for.
  destruct (run_region _ _ _ _ _) as [ [ st' | ] | ]; cbn;
    (apply P_log; [ discriminate | exact H ]).
Qed.

Lemma keeps_emit_report k x y z t : keeps (emit (EvReport k x y z t)).
Proof. intros w H. cbn. apply P_log; [ discriminate | exact H ]. Qed.

Create HintDb keeps.
#[local] Hint Resolve keeps_ret keeps_fault keeps_lift keeps_mysecond
  keeps_malloc keeps_parallel_for keeps_emit_report : keeps.

Ltac keeps_step :=
  repeat first
    [ solve [ auto with keeps ]
    | apply keeps_bind; [ | intros ? ]
    | match goal with |- keeps (let '(_, _) := ?p in _) => destruct p end
    | match goal with |- keeps (if ?b then _ else _) => destruct b end ].

Lemma keeps_spin e fuel : forall t1, keeps (spin e fuel t1).
Proof.
  induction fuel as [ | fuel IH ]; intros t1; cbn [spin].
  - intros w H. exact H.
  - keeps_step.
Qed.
#[local] Hint Resolve keeps_spin : keeps.

Lemma keeps_collect e fuel m : keeps (collect_ticks e fuel m).
Proof. induction m as [ | m IH ]; cbn [collect_ticks]; keeps_step. Qed.
#[local] Hint Resolve keeps_collect : keeps.

Lemma keeps_checktick e fuel : keeps (checktick e fuel).
Proof. unfold checktick. keeps_step. Qed.

Lemma keeps_allocate_from e n count :
  forall tid, keeps (allocate_from e n tid count).
Proof.
  induction count as [ | count IH ]; intros tid; cbn [allocate_from]; keeps_step.
Qed.
#[local] Hint Resolve keeps_allocate_from : keeps.

Lemma keeps_allocate e n nt i0 : keeps (allocate e n nt i0).
Proof. unfold allocate. keeps_step. Qed.

Lemma keeps_timed e r k n nt st : keeps (timed e r k n nt st).
Proof. unfold timed. keeps_step. Qed.
#[local] Hint Resolve keeps_timed : keeps.

Lemma keeps_iteration e n nt k ts st : keeps (iteration e n nt k ts st).
Proof. unfold iteration. keeps_step. Qed.
#[local] Hint Resolve keeps_iteration : keeps.

Lemma keeps_iterations e n nt count :
  forall k ts st, keeps (iterations e n nt k count ts st).
Proof.
  induction count as [ | count IH ]; intros k ts st; cbn [iterations]; keeps_step.
Qed.

Lemma keeps_report n nt s count : forall k, keeps (report_from n nt s k count).
Proof.
  induction count as [ | count IH ]; intros k; cbn [report_from]; keeps_step.
Qed.
#[local] Hint Resolve keeps_checktick keeps_allocate keeps_iterations
  keeps_report : keeps.

Lemma keeps_run_loops e n nt iters st : keeps (run_loops e n nt iters st).
Proof. unfold run_loops. keeps_step. Qed.
#[local] Hint Resolve keeps_run_loops : keeps.

Lemma keeps_run_kernels e n iters : keeps (run_kernels e n iters).
Proof. unfold run_kernels. keeps_step. Qed.
#[local] Hint Resolve keeps_run_kernels : keeps.

Lemma keeps_benchmark cfg e n : keeps (benchmark cfg e n).
Proof. unfold benchmark. keeps_step. Qed.

Lemma keeps_after {A B} (m : Prog A) (f : A -> Prog B) w :
  P (trace (world_of (m w))) -> (forall x, keeps (f x)) ->
  P (trace (world_of (bind m f w))).
Proof.
  intros H Hf. unfold bind.
  destruct (m w) as [ x w' | w' | w' ]; cbn in *; [ apply Hf | | ]; assumption.
Qed.

(** A property that holds as soon as the initialisation region is logged
    holds at the end of {!run_loops}. *)
Lemma established_by_init e n nt iters st w :
  (forall tr, P (tr ++ [EvRegion RInit])) ->
  P (trace (world_of (run_loops e n nt iters st w))).
Proof.
  intros Hinit. unfold run_loops. apply keeps_after.
  - unfold parallel_for.
    destruct (run_region _ _ _ _ _) as [ [ st' | ] | ]; cbn; apply Hinit.
  - intros st'. keeps_step.
Qed.

End TraceInvariant.

Lemma quiet_log tr ev : not_error ev -> quiet tr -> quiet (tr ++ [ev]).
Proof.
  intros Hev Hq msg Hin. apply in_app_or in Hin.
  destruct Hin as [ Hin | [ Hin | [] ] ]; [ exact (Hq msg Hin) | exact (Hev msg Hin) ].
Qed.

Lemma seen_log ev0 tr ev : not_error ev -> In ev0 tr -> In ev0 (tr ++ [ev]).
Proof. intros _ H. apply in_or_app. left. exact H. Qed.


(** The message of line 134 is printed on the error path of the argument
    check and nowhere else. *)
Lemma error_printed_only_for_invalid_input cfg argv e msg :
  In (EvError msg) (snd (main cfg argv e)) -> read_args cfg argv = InvalidInput.
Proof.
  unfold main. destruct (read_args cfg argv) as [ n | | ]; [ | reflexivity | intros [] ].
  intros Hin. exfalso.
  assert (Hq : quiet (trace (world_of (benchmark cfg e n world0)))).
  { apply (keeps_benchmark quiet quiet_log). intros m []. }
  destruct (benchmark cfg e n world0); exact (Hq msg Hin).
Qed.

(* ===================================================================== *)
(** * Properties of the command line *)
(* ===================================================================== *)

Section CommandLine.

Variable cfg : config.

Lemma digit_of_range c d : digit_of c = Some d -> 0 <= d <= 9.
Proof.
  unfold digit_of.
  destruct ((48 <=? Z.of_nat (nat_of_ascii c)) && (Z.of_nat (nat_of_ascii c) <=? 57)) eqn:E;
    [ | discriminate ].
  intros [= <-]. apply andb_true_iff in E. lia.
Qed.

Lemma digits_acc_lower s : forall acc, 0 <= acc -> acc <= digits_acc acc s.
Proof.
  induction s as [ | c r IH ]; intros acc Hacc; cbn [digits_acc]; [ lia | ].
  destruct (digit_of c) as [ d | ] eqn:Ed; [ | lia ].
  apply digit_of_range in Ed.
  specialize (IH (10 * acc + d)). lia.
Qed.

Lemma digits_acc_positive s :
  forall acc, 0 <= acc ->
    (0 < digits_acc acc s <-> 0 < acc \/ digit_run_nonzero s = true).
Proof.
  induction s as [ | c r IH ]; intros acc Hacc; cbn [digits_acc digit_run_nonzero].
  - split; [ lia | intros [ H | H ]; [ lia | discriminate ] ].
  - destruct (digit_of c) as [ d | ] eqn:Ed.
    + pose proof (digit_of_range _ _ Ed) as Hd.
      rewrite IH by lia. rewrite orb_true_iff, negb_true_iff, Z.eqb_neq.
      split; intros [ H | H ]; try (left; lia); try (right; tauto).
      * destruct (Z.eq_dec d 0); [ left; lia | right; left; assumption ].
      * destruct H as [ H | H ]; [ left; lia | right; assumption ].
    + split; [ lia | intros [ H | H ]; [ lia | discriminate ] ].
Qed.

Lemma to_ulong_opp v : 0 < v <= ULONG_MAX -> to_ulong (- v) = 2 ^ 64 - v.
Proof.
  unfold to_ulong, ULONG_MAX. intros H.
  symmetry. apply Z.mod_unique with (q := -1); lia.
Qed.

(** What [strtoul] does after a minus sign. *)
Lemma strtoul_minus ds :
  starts_with_digit ds = true ->
  strtoul (String "-" ds) =
    if digits_acc 0 ds >? ULONG_MAX then ULONG_MAX
    else to_ulong (- digits_acc 0 ds).
Proof.
  intros Hd. unfold strtoul. cbn [skip_spaces].
  replace (isspace "-") with false by reflexivity. cbv iota.
  rewrite Hd. reflexivity.
Qed.

Lemma strtoul_after_sign s :
  starts_with_digit (after_sign (skip_spaces s)) = false -> strtoul s = 0.
Proof.
  unfold strtoul, after_sign.
  destruct (skip_spaces s) as [ | c r ]; [ reflexivity | ].
  destruct c as [[] [] [] [] [] [] [] []]; intros H; try rewrite H; reflexivity.
Qed.

Lemma non_numeric_parses_to_zero s : non_numeric s = true -> strtoul s = 0.
Proof.
  unfold non_numeric. rewrite negb_true_iff. apply strtoul_after_sign.
Qed.

Lemma strtoul_unfold s :
  strtoul s =
    let s1 := skip_spaces s in
    if starts_with_digit (after_sign s1) then
      let v := digits_acc 0 (after_sign s1) in
      if v >? ULONG_MAX then ULONG_MAX
      else if is_minus s1 then to_ulong (- v) else v
    else 0.
Proof.
  unfold strtoul, after_sign, is_minus.
  destruct (skip_spaces s) as [ | c r ]; [ reflexivity | ].
  destruct c as [[] [] [] [] [] [] [] []]; reflexivity.
Qed.

Lemma strtoul_range s : 0 <= strtoul s <= ULONG_MAX.
Proof.
  rewrite strtoul_unfold. cbv zeta.
  destruct (starts_with_digit _); [ | unfold ULONG_MAX; lia ].
  destruct (_ >? ULONG_MAX) eqn:E; [ unfold ULONG_MAX; lia | ].
  pose proof (digits_acc_lower (after_sign (skip_spaces s)) 0 ltac:(lia)).
  destruct (is_minus _).
  - unfold to_ulong, ULONG_MAX.
    pose proof (Z.mod_pos_bound (- digits_acc 0 (after_sign (skip_spaces s))) (2 ^ 64)).
    lia.
  - lia.
Qed.

Lemma read_args_invalid argv0 :
  read_args cfg argv0 = InvalidInput ->
  exists prog s, argv0 = [prog; s] /\ strtoul s = 0.
Proof.
  unfold read_args.
  destruct argv0 as [ | prog [ | s [ | x rest ] ] ]; try discriminate.
  - cbn. destruct (strtoul s <? 1) eqn:E; [ | discriminate ].
    intros _. exists prog, s. split; [ reflexivity | ].
    apply Z.ltb_lt in E. pose proof (strtoul_range s). lia.
  - cbn [List.length].
    replace (Z.of_nat (S (S (S (List.length rest)))) >? 2) with true;
      [ rewrite orb_true_r; discriminate | ].
    symmetry. apply Z.gtb_lt. lia.
Qed.

Lemma read_args_many argv0 :
  (3 <= List.length argv0)%nat ->
  read_args cfg argv0 = UseSize (to_ulong (STREAM_ARRAY_SIZE cfg)).
Proof.
  intros H. unfold read_args.
  replace (Z.of_nat (List.length argv0) >? 2) with true;
    [ rewrite orb_true_r; reflexivity | ].
  symmetry. apply Z.gtb_lt. lia.
Qed.

Lemma main_returns_minus_one argv e :
  fst (main cfg argv e) = Returned (-1) -> read_args cfg argv = InvalidInput.
Proof.
  unfold main. destruct (read_args cfg argv) as [ n | | ];
    [ | reflexivity | discriminate ].
  destruct (benchmark cfg e n world0); discriminate.
Qed.

Lemma took_error_path_invalid argv e :
  took_error_path cfg argv e -> read_args cfg argv = InvalidInput.
Proof.
  intros [ H | [ msg H ] ];
    [ exact (main_returns_minus_one _ _ H)
    | exact (error_printed_only_for_invalid_input _ _ _ _ H) ].
Qed.

Lemma main_invalid argv e :
  read_args cfg argv = InvalidInput ->
  main cfg argv e = (Returned (-1), [EvError error_message]).
Proof. intros H. unfold main. rewrite H. reflexivity. Qed.

Lemma read_args_one prog s :
  read_args cfg [prog; s] =
    if strtoul s <? 1 then InvalidInput else UseSize (strtoul s).
Proof. reflexivity. Qed.

(** C7: when the single argument parses to 0, which is also what an
    argument without a leading number parses to, the program prints the
    error message and returns -1 (exit status 255); the message is the
    only event of the run: nothing is allocated, no region is run, the
    clock is not read. *)
Theorem invalid_argument_is_rejected (prog s : string) (e : env) :
  strtoul s = 0 \/ non_numeric s = true ->
  strtoul s = 0 /\
  main cfg [prog; s] e = (Returned (-1), [EvError error_message]) /\
  exit_status (-1) = 255.
Proof.
  intros H.
  assert (H0 : strtoul s = 0).
  { destruct H as [ H | H ]; [ exact H | exact (non_numeric_parses_to_zero _ H) ]. }
  split; [ exact H0 | split; [ | reflexivity ] ].
  apply main_invalid. rewrite read_args_one, H0. reflexivity.
Qed.

(** C10: with two or more arguments the default size is used, the run is
    the run without arguments and prints no error message; the error path
    is taken only with exactly one argument ([argc = 2]). *)
Theorem extra_arguments_fall_back (argv : list string) (e : env) :
  ((3 <= List.length argv)%nat ->
     read_args cfg argv = UseSize (to_ulong (STREAM_ARRAY_SIZE cfg)) /\
     (forall prog, main cfg argv e = main cfg [prog] e) /\
     ~ took_error_path cfg argv e) /\
  (took_error_path cfg argv e -> List.length argv = 2%nat).
Proof.
  split.
  - intros H. pose proof (read_args_many _ H) as Hr.
    split; [ exact Hr | split ].
    + intros prog. unfold main. rewrite Hr. reflexivity.
    + intros Hp. apply took_error_path_invalid in Hp. congruence.
  - intros Hp. apply took_error_path_invalid in Hp.
    destruct (read_args_invalid _ Hp) as (prog & s & -> & _). reflexivity.
Qed.

(** C9, as amended: for an argument made of a minus sign and a run of
    digits of value [v], [strtoul] gives [2^64 - v] when [0 < v <= ULONG_MAX]
    and [ULONG_MAX] above; when some digit is not 0 the result is at least
    1 and the size is accepted; when all the digits are 0 the result is 0
    and the argument is rejected like any other invalid input. *)
Theorem negative_argument_wraps (prog ds : string) (e : env) :
  starts_with_digit ds = true ->
  let v := digits_acc 0 ds in
  let s := String "-" ds in
  (digit_run_nonzero ds = true ->
     strtoul s = (if v >? ULONG_MAX then ULONG_MAX else 2 ^ 64 - v) /\
     1 <= strtoul s <= ULONG_MAX /\
     read_args cfg [prog; s] = UseSize (strtoul s) /\
     ~ took_error_path cfg [prog; s] e) /\
  (digit_run_nonzero ds = false ->
     strtoul s = 0 /\
     main cfg [prog; s] e = (Returned (-1), [EvError error_message])).
Proof.
  intros Hd v s.
  pose proof (strtoul_minus ds Hd) as Hs. fold s v in Hs.
  pose proof (digits_acc_lower ds 0 ltac:(lia)) as Hv0. fold v in Hv0.
  pose proof (digits_acc_positive ds 0 ltac:(lia)) as Hpos. fold v in Hpos.
  split; intros Hnz.
  - assert (Hv : 0 < v) by (apply Hpos; right; exact Hnz).
    assert (Hval : strtoul s = if v >? ULONG_MAX then ULONG_MAX else 2 ^ 64 - v).
    { rewrite Hs. destruct (v >? ULONG_MAX) eqn:E; [ reflexivity | ].
      apply to_ulong_opp. rewrite Z.gtb_ltb in E. apply Z.ltb_ge in E. lia. }
    assert (Hr : 1 <= strtoul s <= ULONG_MAX).
    { rewrite Hval. destruct (v >? ULONG_MAX) eqn:E; unfold ULONG_MAX in *; [ lia | ].
      rewrite Z.gtb_ltb in E. apply Z.ltb_ge in E. lia. }
    assert (Ha : read_args cfg [prog; s] = UseSize (strtoul s)).
    { rewrite read_args_one. destruct (strtoul s <? 1) eqn:E; [ | reflexivity ].
      apply Z.ltb_lt in E. lia. }
    repeat split; try assumption; try lia.
    intros Hp. apply took_error_path_invalid in Hp. congruence.
  - assert (Hv : v = 0).
    { destruct (Z.eq_dec v 0) as [ | Hne ]; [ assumption | ].
      assert (0 < v) as Hlt by lia. apply Hpos in Hlt.
      destruct Hlt as [ Hlt | Hlt ]; [ lia | congruence ]. }
    assert (H0 : strtoul s = 0) by (rewrite Hs, Hv; reflexivity).
    split; [ exact H0 | ].
    apply main_invalid. rewrite read_args_one, H0. reflexivity.
Qed.

End CommandLine.

Lemma invalid_argument_is_rejected_witness :
  (strtoul "abc" = 0 \/ non_numeric "abc" = true) /\
  strtoul "abc" = 0 /\
  main default_config ["stream"; "abc"]%string two_threads
    = (Returned (-1), [EvError error_message]) /\
  exit_status (-1) = 255.
Proof.
  split; [ right; reflexivity | ].
  apply (invalid_argument_is_rejected default_config "stream" "abc" two_threads).
  right; reflexivity.
Defined.

Lemma extra_arguments_fall_back_witness :
  (read_args default_config ["stream"; "0"; "x"]%string
     = UseSize (to_ulong (STREAM_ARRAY_SIZE default_config)) /\
   (forall prog, main default_config ["stream"; "0"; "x"]%string two_threads
                 = main default_config [prog] two_threads) /\
   ~ took_error_path default_config ["stream"; "0"; "x"]%string two_threads) /\
  List.length ["stream"; "0"]%string = 2%nat.
Proof.
  split.
  - apply (proj1 (extra_arguments_fall_back default_config
                    ["stream"; "0"; "x"]%string two_threads)).
    simpl. lia.
  - apply (proj2 (extra_arguments_fall_back default_config
                    ["stream"; "0"]%string two_threads)).
    left. reflexivity.
Defined.

(** C9 as stated fails: ["-0"] is a minus sign followed by a digit, parses
    to 0 and takes the error path. *)
Lemma minus_zero_is_rejected :
  minus_then_digits "-0" = true /\
  strtoul "-0" = 0 /\
  main default_config ["stream"; "-0"]%string two_threads
    = (Returned (-1), [EvError error_message]).
Proof. repeat split. Qed.

Lemma negative_argument_wraps_witness :
  starts_with_digit "5" = true /\
  digit_run_nonzero "5" = true /\
  strtoul "-5" = 18446744073709551611 /\
  read_args default_config ["stream"; "-5"]%string = UseSize 18446744073709551611.
Proof.
  pose proof (negative_argument_wraps default_config "stream" "5" two_threads
                eq_refl) as [ H _ ].
  destruct (H eq_refl) as (H1 & _ & H3 & _).
  split; [ reflexivity | split; [ reflexivity | split ] ].
  - exact H1.
  - rewrite H3. reflexivity.
Defined.

(* ===================================================================== *)
(** * Statistics *)
(* ===================================================================== *)

(** ** The order of the doubles *)

Ltac compare_cases :=
  repeat match goal with
    | |- context [Z.compare ?a ?b] => destruct (Z.compare_spec a b)
    | |- context [Pos.compare_cont Eq ?a ?b] =>
        change (Pos.compare_cont Eq a b) with (Pos.compare a b);
        destruct (Pos.compare_spec a b)
    end.

Ltac float_order :=
  unfold dle, dlt, SFleb, SFltb, SFcompare, not_nan;
  repeat match goal with
    | |- forall x : double, _ => intros [ [] | [] | | [] ? ? ]
    end;
  cbn; compare_cases; cbn; intros; subst; try reflexivity; try discriminate; try lia.

Lemma dle_refl : forall x, not_nan x = true -> dle x x = true.
Proof. float_order. Qed.

Lemma dle_total : forall x y,
  not_nan x = true -> not_nan y = true -> dlt x y = false -> dle y x = true.
Proof. float_order. Qed.

Lemma dlt_dle : forall x y, dlt x y = true -> dle x y = true.
Proof. float_order. Qed.

Lemma dle_trans : forall x y z,
  dle x y = true -> dle y z = true -> dle x z = true.
Proof. float_order. Qed.

(** ** The three loops of lines 299-316 *)

Lemma for_loop_S {T} start count (body : nat -> T -> T) s :
  for_loop start (S count) body s = for_loop (S start) count body (body start s).
Proof. reflexivity. Qed.

Section Reducer.

Variable times : table.

Lemma stats_first_all s0 i : (i < 4)%nat ->
  let s := for_loop 0 4 (stats_first times) s0 in
  avgtime s i = times i 1%nat /\ mintime s i = times i 1%nat /\
  maxtime s i = times i 1%nat.
Proof.
  intros H. destruct i as [ | [ | [ | [ | i ] ] ] ]; [ .. | lia ]; repeat split.
Qed.

Lemma stats_next_all k s i : (i < 4)%nat ->
  let s' := for_loop 0 4 (stats_next times k) s in
  avgtime s' i = dadd (avgtime s i) (times i k) /\
  mintime s' i = MIN (mintime s i) (times i k) /\
  maxtime s' i = MAX (maxtime s i) (times i k).
Proof.
  intros H. destruct i as [ | [ | [ | [ | i ] ] ] ]; [ .. | lia ]; repeat split.
Qed.

Lemma stats_loop_all count i : (i < 4)%nat -> forall start s,
  let s' := for_loop start count (fun k => for_loop 0 4 (stats_next times k)) s in
  avgtime s' i = fold_left dadd (map (times i) (seq start count)) (avgtime s i) /\
  mintime s' i = fold_left MIN (map (times i) (seq start count)) (mintime s i) /\
  maxtime s' i = fold_left MAX (map (times i) (seq start count)) (maxtime s i).
Proof.
  intros H. induction count as [ | count IH ]; intros start s.
  - repeat split.
  - rewrite for_loop_S. cbn [seq map fold_left].
    destruct (stats_next_all start s i H) as (Ha & Hm & Hx).
    destruct (IH (S start) (for_loop 0 4 (stats_next times start) s)) as (Ha' & Hm' & Hx').
    cbv zeta in *. rewrite Ha', Hm', Hx', Ha, Hm, Hx. repeat split.
Qed.

Lemma stats_div_all ntimes s i : (i < 4)%nat ->
  let s' := for_loop 0 4 (stats_div ntimes) s in
  avgtime s' i = ddiv (avgtime s i) (double_of_Z (ntimes - 1)) /\
  mintime s' i = mintime s i /\ maxtime s' i = maxtime s i.
Proof.
  intros H. destruct i as [ | [ | [ | [ | i ] ] ] ]; [ .. | lia ]; repeat split.
Qed.

Lemma timings_cons ntimes k : 2 <= ntimes ->
  timings times ntimes k =
    times k 1%nat :: map (times k) (seq 2 (Z.to_nat ntimes - 2)).
Proof.
  intros H. unfold timings.
  replace (Z.to_nat ntimes - 1)%nat with (S (Z.to_nat ntimes - 2)) by lia.
  reflexivity.
Qed.

Lemma timings_length ntimes k : 2 <= ntimes ->
  Z.of_nat (List.length (timings times ntimes k)) = ntimes - 1.
Proof.
  intros H. unfold timings. rewrite length_map, length_seq. lia.
Qed.

(** What the three loops of lines 299-316 compute. *)
Lemma reduce_computes ntimes s0 k : 2 <= ntimes -> (k < 4)%nat ->
  let s := reduce ntimes times s0 in
  let l := timings times ntimes k in
  avgtime s k = float_mean l /\
  mintime s k = float_min l /\
  maxtime s k = float_max l.
Proof.
  intros Hn Hk s l. unfold s, reduce.
  destruct (stats_div_all ntimes
              (for_loop 2 (Z.to_nat ntimes - 2)
                 (fun k => for_loop 0 4 (stats_next times k))
                 (for_loop 0 4 (stats_first times) s0)) k Hk) as (Ha & Hm & Hx).
  destruct (stats_loop_all (Z.to_nat ntimes - 2) k Hk 2
              (for_loop 0 4 (stats_first times) s0)) as (Ha' & Hm' & Hx').
  destruct (stats_first_all s0 k Hk) as (Ha0 & Hm0 & Hx0).
  cbv zeta in *. rewrite Ha, Hm, Hx, Ha', Hm', Hx', Ha0, Hm0, Hx0.
  unfold float_mean, float_min, float_max, float_sum, l.
  rewrite timings_length by assumption.
  rewrite timings_cons by assumption. repeat split.
Qed.

End Reducer.

(** ** Minimum and maximum by the macros *)

Lemma MIN_cases x y : MIN x y = x \/ MIN x y = y.
Proof. unfold MIN. destruct (dlt x y); auto. Qed.

Lemma MAX_cases x y : MAX x y = x \/ MAX x y = y.
Proof. unfold MAX. destruct (dlt y x); auto. Qed.

Lemma MIN_le x y : not_nan x = true -> not_nan y = true ->
  dle (MIN x y) x = true /\ dle (MIN x y) y = true.
Proof.
  intros Hx Hy. unfold MIN. destruct (dlt x y) eqn:E.
  - split; [ apply dle_refl; assumption | apply dlt_dle; assumption ].
  - split; [ apply dle_total; assumption | apply dle_refl; assumption ].
Qed.

Lemma MAX_ge x y : not_nan x = true -> not_nan y = true ->
  dle x (MAX x y) = true /\ dle y (MAX x y) = true.
Proof.
  intros Hx Hy. unfold MAX. destruct (dlt y x) eqn:E.
  - split; [ apply dle_refl; assumption | apply dlt_dle; assumption ].
  - split; [ apply dle_total; assumption | apply dle_refl; assumption ].
Qed.

Lemma fold_MIN_minimum l : forall x,
  not_nan x = true -> (forall y, In y l -> not_nan y = true) ->
  is_minimum (fold_left MIN l x) (x :: l).
Proof.
  induction l as [ | y l IH ]; intros x Hx Hl; cbn [fold_left].
  - split; [ left; reflexivity | ].
    intros z [ <- | [] ]. apply dle_refl; assumption.
  - assert (Hy : not_nan y = true) by (apply Hl; left; reflexivity).
    assert (Hm : not_nan (MIN x y) = true)
      by (destruct (MIN_cases x y) as [ -> | -> ]; assumption).
    destruct (IH (MIN x y) Hm (fun z Hz => Hl z (or_intror Hz))) as [ Hin Hle ].
    destruct (MIN_le x y Hx Hy) as [ Hmx Hmy ].
    assert (Hr : dle (fold_left MIN l (MIN x y)) (MIN x y) = true)
      by (apply Hle; left; reflexivity).
    split.
    + destruct Hin as [ Hin | Hin ]; [ | right; right; exact Hin ].
      rewrite <- Hin.
      destruct (MIN_cases x y) as [ -> | -> ]; [ left | right; left ]; reflexivity.
    + intros z [ <- | [ <- | Hz ] ].
      * exact (dle_trans _ _ _ Hr Hmx).
      * exact (dle_trans _ _ _ Hr Hmy).
      * apply Hle. right; exact Hz.
Qed.

Lemma fold_MAX_maximum l : forall x,
  not_nan x = true -> (forall y, In y l -> not_nan y = true) ->
  is_maximum (fold_left MAX l x) (x :: l).
Proof.
  induction l as [ | y l IH ]; intros x Hx Hl; cbn [fold_left].
  - split; [ left; reflexivity | ].
    intros z [ <- | [] ]. apply dle_refl; assumption.
  - assert (Hy : not_nan y = true) by (apply Hl; left; reflexivity).
    assert (Hm : not_nan (MAX x y) = true)
      by (destruct (MAX_cases x y) as [ -> | -> ]; assumption).
    destruct (IH (MAX x y) Hm (fun z Hz => Hl z (or_intror Hz))) as [ Hin Hle ].
    destruct (MAX_ge x y Hx Hy) as [ Hmx Hmy ].
    assert (Hr : dle (MAX x y) (fold_left MAX l (MAX x y)) = true)
      by (apply Hle; left; reflexivity).
    split.
    + destruct Hin as [ Hin | Hin ]; [ | right; right; exact Hin ].
      rewrite <- Hin.
      destruct (MAX_cases x y) as [ -> | -> ]; [ left | right; left ]; reflexivity.
    + intros z [ <- | [ <- | Hz ] ].
      * exact (dle_trans _ _ _ Hmx Hr).
      * exact (dle_trans _ _ _ Hmy Hr).
      * apply Hle. right; exact Hz.
Qed.




(* ===================================================================== *)
(** * Conversions between integers and doubles *)
(* ===================================================================== *)

(** ** Binary64 conversions and division on integers *)

Lemma digits2_pos_bounds p :
  2 ^ (Zpos (digits2_pos p) - 1) <= Zpos p < 2 ^ Zpos (digits2_pos p).
Proof.
  induction p as [ p IH | p IH | ]; cbn [digits2_pos].
  - rewrite Pos2Z.inj_succ, (Pos2Z.inj_xI p).
    replace (Z.succ (Zpos (digits2_pos p)) - 1) with (Z.succ (Zpos (digits2_pos p) - 1)) by lia.
    rewrite !Z.pow_succ_r by lia. lia.
  - rewrite Pos2Z.inj_succ, (Pos2Z.inj_xO p).
    replace (Z.succ (Zpos (digits2_pos p)) - 1) with (Z.succ (Zpos (digits2_pos p) - 1)) by lia.
    rewrite !Z.pow_succ_r by lia. lia.
  - cbn. lia.
Qed.

Lemma digits2_pos_unique p d :
  2 ^ (d - 1) <= Zpos p < 2 ^ d -> Zpos (digits2_pos p) = d.
Proof.
  intros H. pose proof (digits2_pos_bounds p) as B.
  set (d' := Zpos (digits2_pos p)) in *.
  assert (Hd : 0 < d).
  { destruct (Z.lt_ge_cases 0 d) as [ | Hle ]; [ assumption | ].
    rewrite (Z.pow_neg_r 2 (d - 1)) in H by lia.
    destruct (Z.eq_dec d 0) as [ -> | ]; [ cbn in H; lia | ].
    rewrite (Z.pow_neg_r 2 d) in H by lia. lia. }
  assert (Hd' : 0 < d') by (unfold d'; lia).
  destruct (Z.lt_trichotomy d d') as [ Hlt | [ Heq | Hgt ] ]; [ | exact (eq_sym Heq) | ].
  - assert (2 ^ d <= 2 ^ (d' - 1)) by (apply Z.pow_le_mono_r; lia). lia.
  - assert (2 ^ d' <= 2 ^ (d - 1)) by (apply Z.pow_le_mono_r; lia). lia.
Qed.

Lemma iter_xO_value p : forall m, Zpos (Pos.iter xO m p) = Zpos m * 2 ^ Zpos p.
Proof.
  induction p as [ | p IH ] using Pos.peano_ind; intros m.
  - cbn. lia.
  - rewrite Pos.iter_succ, Pos2Z.inj_xO, IH, Pos2Z.inj_succ, Z.pow_succ_r by lia. lia.
Qed.

(** A 53-bit significand needs no rounding. *)
Lemma round_aux_exact m e :
  Zpos (digits2_pos m) = 53 -> -1074 <= e <= 971 ->
  binary_round_aux prec emax false (Zpos m) e loc_Exact = S754_finite false m e.
Proof.
  intros Hd He. unfold binary_round_aux, shr_fexp, fexp, emin, prec, emax.
  cbn [Zdigits2 shr_record_of_loc]. rewrite Hd.
  replace (Z.max (53 + e - 53) (3 - 1024 - 53) - e) with 0 by lia.
  cbn [shr shr_m loc_of_shr_record round_nearest_even Zdigits2 shr_record_of_loc].
  rewrite Hd.
  replace (Z.max (53 + e - 53) (3 - 1024 - 53) - e) with 0 by lia.
  cbn [shr shr_m].
  replace (e <=? 1024 - 53) with true by (symmetry; apply Z.leb_le; lia).
  reflexivity.
Qed.

(** [(double) n] is exact below 2^53: the significand has 53 bits and its
    value is [n]. *)
Lemma double_of_Z_small n :
  0 < n < 2 ^ 53 ->
  exists m e, double_of_Z n = S754_finite false m e /\
              Zpos (digits2_pos m) = 53 /\ -52 <= e <= 0 /\
              Zpos m = n * 2 ^ (- e).
Proof.
  intros Hn. destruct n as [ | p | p ]; try lia.
  unfold double_of_Z, binary_normalize, binary_round, shl_align, fexp, emin, prec, emax.
  pose proof (digits2_pos_bounds p) as B.
  set (d := Zpos (digits2_pos p)) in *.
  assert (Hd : 1 <= d <= 53).
  { split; [ unfold d; lia | ].
    destruct (Z.le_gt_cases d 53) as [ | Hgt ]; [ assumption | ].
    assert (2 ^ 53 <= 2 ^ (d - 1)) by (apply Z.pow_le_mono_r; lia). lia. }
  replace (Z.max (d + 0 - 53) (3 - 1024 - 53) - 0) with (d - 53) by lia.
  destruct (d - 53) as [ | q | q ] eqn:Eq; try lia.
  - exists p, 0. split; [ apply round_aux_exact; unfold d in *; lia | ].
    split; [ unfold d in *; lia | split; [ lia | cbn; lia ] ].
  - replace (Z.max (d + 0 - 53) (3 - 1024 - 53)) with (d - 53) by lia.
    exists (Pos.iter xO p q), (d - 53).
    assert (Hq : Zpos q = 53 - d) by lia.
    assert (Hv : Zpos (Pos.iter xO p q) = Zpos p * 2 ^ (53 - d))
      by (rewrite iter_xO_value, Hq; reflexivity).
    assert (Hdig : Zpos (digits2_pos (Pos.iter xO p q)) = 53).
    { apply digits2_pos_unique. rewrite Hv.
      replace (2 ^ (53 - 1)) with (2 ^ (d - 1) * 2 ^ (53 - d))
        by (rewrite <- Z.pow_add_r by lia; f_equal; lia).
      replace (2 ^ 53) with (2 ^ d * 2 ^ (53 - d))
        by (rewrite <- Z.pow_add_r by lia; f_equal; lia).
      assert (0 < 2 ^ (53 - d)) by (apply Z.pow_pos_nonneg; lia).
      nia. }
    rewrite Eq.
    split; [ apply round_aux_exact; [ exact Hdig | lia ] | ].
    split; [ exact Hdig | split; [ lia | ] ].
    rewrite Hv. f_equal. f_equal. lia.
Qed.

Lemma Zdigits2_unique m d :
  2 ^ (d - 1) <= m < 2 ^ d -> 0 < m -> Zdigits2 m = d.
Proof.
  intros H Hm. destruct m as [ | p | p ]; try lia.
  cbn [Zdigits2]. apply digits2_pos_unique. exact H.
Qed.

Lemma shr_fexp_53 m e l :
  Zdigits2 m = 53 -> -1074 <= e ->
  shr_fexp prec emax m e l = (shr_record_of_loc m l, e).
Proof.
  intros Hd He. unfold shr_fexp, fexp, emin, prec, emax. rewrite Hd.
  replace (Z.max (53 + e - 53) (3 - 1024 - 53) - e) with 0 by lia.
  reflexivity.
Qed.

Lemma shr_fexp_54 m e l :
  Zdigits2 m = 54 -> -1075 <= e ->
  shr_fexp prec emax m e l = (shr_1 (shr_record_of_loc m l), e + 1).
Proof.
  intros Hd He. unfold shr_fexp, fexp, emin, prec, emax. rewrite Hd.
  replace (Z.max (54 + e - 53) (3 - 1024 - 53) - e) with 1 by lia.
  reflexivity.
Qed.

Lemma loc_of_shr_record_of_loc m l :
  loc_of_shr_record (shr_record_of_loc m l) = l.
Proof. destruct l as [ | [] ]; reflexivity. Qed.

Lemma shr_m_of_loc m l : shr_m (shr_record_of_loc m l) = m.
Proof. destruct l as [ | [] ]; reflexivity. Qed.

Lemma binary_round_aux_finish q e l :
  binary_round_aux prec emax false q e l =
    let '(mrs, e') := shr_fexp prec emax q e l in
    finish (round_nearest_even (shr_m mrs) (loc_of_shr_record mrs)) e'.
Proof.
  unfold binary_round_aux, finish.
  destruct (shr_fexp prec emax q e l) as [ mrs e' ]. reflexivity.
Qed.

Lemma shiftl_half m e : Z.shiftl m (e + 1) = Z.shiftl (2 * m) e.
Proof.
  replace (2 * m) with (Z.shiftl m 1) by (rewrite Z.shiftl_mul_pow2; lia).
  rewrite Z.shiftl_shiftl by lia. f_equal. lia.
Qed.

Lemma finish_trunc mr e :
  2 ^ 52 <= mr <= 2 ^ 53 -> -1000 <= e <= 900 ->
  Ztrunc_double (finish mr e) = Some (Z.shiftl mr e).
Proof.
  intros Hm He. unfold finish.
  destruct (Z.eq_dec mr (2 ^ 53)) as [ -> | Hne ].
  - rewrite shr_fexp_54 by (reflexivity || lia). cbn [shr_record_of_loc shr_1 shr_m].
    change (2 ^ 53) with (Zpos (xO (Z.to_pos (2 ^ 52)))).
    cbn [shr_1 shr_m].
    replace (e + 1 <=? emax - prec) with true
      by (symmetry; apply Z.leb_le; unfold emax, prec; lia).
    cbn [Ztrunc_double]. f_equal. apply shiftl_half.
  - rewrite shr_fexp_53; [ | apply Zdigits2_unique; lia | lia ].
    cbn [shr_record_of_loc shr_m].
    destruct mr as [ | p | p ]; try lia.
    replace (e <=? emax - prec) with true
      by (symmetry; apply Z.leb_le; unfold emax, prec; lia).
    reflexivity.
Qed.

Lemma round_after_shift q l :
  1 < q ->
  let mrs := shr_1 (shr_record_of_loc q l) in
  let mr := round_nearest_even (shr_m mrs) (loc_of_shr_record mrs) in
  mr = q / 2 \/ (mr = q / 2 + 1 /\ Z.odd q = true).
Proof.
  intros Hq. destruct q as [ | p | p ]; try lia.
  destruct p as [ p | p | ]; try lia.
  - replace (Zpos p~1 / 2) with (Zpos p)
      by (apply Z.div_unique with (r := 1); lia).
    destruct l as [ | [] ];
      cbn [shr_record_of_loc shr_1 shr_m loc_of_shr_record round_nearest_even orb];
      try destruct (Z.even (Zpos p)); auto.
  - replace (Zpos p~0 / 2) with (Zpos p)
      by (apply Z.div_unique with (r := 0); lia).
    destruct l as [ | [] ];
      cbn [shr_record_of_loc shr_1 shr_m loc_of_shr_record round_nearest_even orb];
      auto.
Qed.

(** Rounding a quotient of 53 or 54 bits: the integer part of the result
    in terms of the rounded significand [mr] and the shift [sh]. *)
Lemma round_aux_trunc q e l :
  2 ^ 52 <= q < 2 ^ 54 -> -1000 <= e <= 800 ->
  exists sh mr,
    ((q < 2 ^ 53 /\ sh = 0 /\ mr = round_nearest_even q l) \/
     (2 ^ 53 <= q /\ sh = 1 /\
      (mr = q / 2 \/ (mr = q / 2 + 1 /\ Z.odd q = true)))) /\
    2 ^ 52 <= mr <= 2 ^ 53 /\
    Ztrunc_double (binary_round_aux prec emax false q e l)
      = Some (Z.shiftl mr (e + sh)).
Proof.
  intros Hq He. rewrite binary_round_aux_finish.
  destruct (Z.lt_ge_cases q (2 ^ 53)) as [ Hlt | Hge ].
  - rewrite shr_fexp_53; [ | apply Zdigits2_unique; lia | lia ].
    rewrite shr_m_of_loc, loc_of_shr_record_of_loc.
    exists 0, (round_nearest_even q l).
    assert (Hr : 2 ^ 52 <= round_nearest_even q l <= 2 ^ 53).
    { unfold round_nearest_even. destruct l as [ | [] ]; try destruct (Z.even q); lia. }
    split; [ left; repeat split; assumption | split; [ exact Hr | ] ].
    rewrite Z.add_0_r. apply finish_trunc; [ exact Hr | lia ].
  - rewrite shr_fexp_54; [ | apply Zdigits2_unique; lia | lia ].
    pose proof (round_after_shift q l ltac:(lia)) as Hr. cbv zeta in Hr.
    set (mr := round_nearest_even _ _) in *.
    assert (Hh : 2 ^ 52 <= q / 2 < 2 ^ 53).
    { split; [ apply Z.div_le_lower_bound; lia | apply Z.div_lt_upper_bound; lia ]. }
    exists 1, mr.
    split; [ right; repeat split; assumption | ].
    assert (Hm : 2 ^ 52 <= mr <= 2 ^ 53) by (destruct Hr as [ -> | [ -> _ ] ]; lia).
    split; [ exact Hm | ].
    apply finish_trunc; [ exact Hm | lia ].
Qed.

(** Division of two doubles with full significands. *)
Lemma ddiv_normal m1 e1 m2 e2 :
  Zpos (digits2_pos m1) = 53 -> Zpos (digits2_pos m2) = 53 ->
  -52 <= e1 <= 0 -> -52 <= e2 <= 0 ->
  ddiv (S754_finite false m1 e1) (S754_finite false m2 e2) =
    binary_round_aux prec emax false
      (Zpos m1 * 2 ^ 53 / Zpos m2) (e1 - e2 - 53)
      (new_location (Zpos m2) (Zpos m1 * 2 ^ 53 mod Zpos m2)).
Proof.
  intros H1 H2 He1 He2.
  unfold ddiv, SFdiv, SFdiv_core_binary, fexp, emin, prec, emax.
  cbn [Zdigits2 xorb]. rewrite H1, H2.
  replace (Z.min (Z.max (53 + e1 - (53 + e2) - 53) (3 - 1024 - 53)) (e1 - e2))
    with (e1 - e2 - 53) by lia.
  replace (e1 - e2 - (e1 - e2 - 53)) with 53 by lia.
  rewrite Z.shiftl_mul_pow2 by lia.
  unfold Z.div, Z.modulo.
  destruct (Z.div_eucl (Zpos m1 * 2 ^ 53) (Zpos m2)) as [ q r ]. reflexivity.
Qed.

Lemma round_nearest_even_location q m r :
  0 < m -> 0 <= r < m ->
  round_nearest_even q (new_location m r) = q \/
  (round_nearest_even q (new_location m r) = q + 1 /\ m <= 2 * r).
Proof.
  intros Hm Hr. unfold new_location, new_location_even, new_location_odd.
  destruct (Z.even m) eqn:Ev; destruct (r =? 0) eqn:E0; cbn [round_nearest_even]; auto.
  - destruct (Z.compare_spec (2 * r) m); cbn [round_nearest_even]; auto.
    + destruct (Z.even q); [ auto | right; split; [ reflexivity | lia ] ].
    + right; split; [ reflexivity | lia ].
  - destruct (Z.compare_spec (2 * r + 1) m); cbn [round_nearest_even]; auto.
    right; split; [ reflexivity | lia ].
Qed.

(** Line 182 computes the floor of the quotient whenever the total fits
    the 53 bits of a significand and the quotient fits an [int]. *)
Lemma compute_array_size_floor_any n k :
  1 <= n < 2 ^ 53 -> 1 <= k < 2 ^ 53 -> n / k <= INT_MAX ->
  compute_array_size n k = Some (n / k).
Proof.
  intros Hn Hk HQ.
  destruct (double_of_Z_small n ltac:(lia)) as (m1 & e1 & En & Hd1 & He1 & Hm1).
  destruct (double_of_Z_small k ltac:(lia)) as (m2 & e2 & Ek & Hd2 & He2 & Hm2).
  unfold compute_array_size. rewrite En, Ek, ddiv_normal by assumption.
  pose proof (digits2_pos_bounds m1) as B1. rewrite Hd1 in B1.
  pose proof (digits2_pos_bounds m2) as B2. rewrite Hd2 in B2.
  change (2 ^ (53 - 1)) with (2 ^ 52) in B1, B2.
  set (X := Zpos m1 * 2 ^ 53).
  pose proof (Z.div_mod X (Zpos m2) ltac:(lia)) as HX.
  pose proof (Z.mod_pos_bound X (Zpos m2) ltac:(lia)) as Hr.
  set (q := X / Zpos m2) in *. set (r := X mod Zpos m2) in *.
  assert (Hq : 2 ^ 52 <= q < 2 ^ 54).
  { split.
    - apply Z.div_le_lower_bound; [ lia | ]. unfold X. nia.
    - apply Z.div_lt_upper_bound; [ lia | ]. unfold X. nia. }
  destruct (round_aux_trunc q (e1 - e2 - 53)
              (new_location (Zpos m2) r) Hq ltac:(lia))
    as (sh & mr & Hcase & Hmr & Htr).
  unfold int_of_double. rewrite Htr.
  set (a := - e1) in *. set (b := - e2) in *.
  set (t := a - b + 53 - sh).
  assert (Hsh : sh = 0 \/ sh = 1) by (destruct Hcase as [ (_ & -> & _) | (_ & -> & _) ]; auto).
  assert (Ht : 0 <= t) by (unfold t, a, b; lia).
  replace (e1 - e2 - 53 + sh) with (- t) by (unfold t, a, b; lia).
  rewrite Z.shiftl_opp_r, Z.shiftr_div_pow2 by exact Ht.
  set (Q := n / k) in *.
  assert (HQk : Q * k <= n < (Q + 1) * k).
  { pose proof (Z.div_mod n k ltac:(lia)). pose proof (Z.mod_pos_bound n k ltac:(lia)).
    fold Q in H. nia. }
  assert (HQ0 : 0 <= Q) by (apply Z.div_pos; lia).
  (* the powers of two involved *)
  set (A := 2 ^ a) in *. set (B := 2 ^ b) in *. set (P := 2 ^ t).
  assert (HA : 0 < A) by (apply Z.pow_pos_nonneg; unfold a; lia).
  assert (HB : 0 < B) by (apply Z.pow_pos_nonneg; unfold b; lia).
  assert (HP : 0 < P) by (apply Z.pow_pos_nonneg; lia).
  assert (HS : A * 2 ^ 53 = P * B * 2 ^ sh).
  { unfold A, B, P. rewrite <- !Z.pow_add_r by (unfold a, b in *; lia).
    f_equal. unfold t. lia. }
  assert (HPB : 2 ^ 53 <= 2 * P * B).
  { replace (2 * P * B) with (2 ^ (1 + t + b)).
    - apply Z.pow_le_mono_r; unfold t, a, b in *; lia.
    - unfold P, B. rewrite !Z.pow_add_r by (unfold b in *; lia). lia. }
  assert (HXv : X = n * P * B * 2 ^ sh) by (unfold X; rewrite Hm1; fold A; nia).
  assert (Hlow : Q * P * 2 ^ sh <= q).
  { apply Z.div_le_lower_bound; [ lia | ].
    rewrite HXv, Hm2. fold B.
    assert (0 < 2 ^ sh) by (destruct Hsh as [ -> | -> ]; cbn; lia).
    nia. }
  assert (Hup : 2 ^ (sh + 1) * mr * Zpos m2 <= 2 * X + 2 ^ sh * Zpos m2).
  { destruct Hcase as [ (_ & -> & Hround) | (_ & -> & Hround) ].
    - change (2 ^ (0 + 1)) with 2. change (2 ^ 0) with 1.
      destruct (round_nearest_even_location q (Zpos m2) r ltac:(lia) Hr)
        as [ E | [ E Hhalf ] ]; rewrite Hround, E; nia.
    - change (2 ^ (1 + 1)) with 4. change (2 ^ 1) with 2.
      assert (Hq2 : 2 * (q / 2) <= q) by (apply Z.mul_div_le; lia).
      destruct Hround as [ -> | [ -> Hodd ] ]; [ nia | ].
      assert (q = 2 * (q / 2) + 1).
      { rewrite (Z.div_mod q 2) at 1 by lia. rewrite <- Z.bit0_mod, Z.bit0_odd, Hodd.
        reflexivity. }
      nia. }
  assert (Hres : mr / P = Q).
  { symmetry. apply Z.div_unique with (r := mr - Q * P); [ left | lia ].
    split.
    - (* lower bound *)
      destruct Hcase as [ (_ & -> & Hround) | (_ & -> & Hround) ].
      + change (2 ^ 0) with 1 in Hlow.
        assert (q <= mr).
        { rewrite Hround. unfold round_nearest_even.
          destruct (new_location (Zpos m2) r) as [ | [] ]; try destruct (Z.even q); lia. }
        lia.
      + change (2 ^ 1) with 2 in Hlow.
        assert (q / 2 <= mr) by (destruct Hround as [ -> | [ -> _ ] ]; lia).
        assert (Q * P <= q / 2) by (apply Z.div_le_lower_bound; lia).
        lia.
    - (* upper bound *)
      assert (Hk2 : k * B < 2 ^ 53) by (rewrite <- Hm2; lia).
      assert (H2 : 2 * mr * k <= 2 * n * P + k).
      { rewrite HXv, Hm2 in Hup. fold B in Hup.
        assert (0 < 2 ^ sh) by (destruct Hsh as [ -> | -> ]; cbn; lia).
        replace (2 ^ (sh + 1)) with (2 * 2 ^ sh) in Hup
          by (rewrite Z.pow_add_r by lia; lia).
        assert (Hc : (2 ^ sh * B) * (2 * mr * k) <= (2 ^ sh * B) * (2 * n * P + k)) by nia.
        apply Z.mul_le_mono_pos_l in Hc; [ exact Hc | nia ]. }
      destruct (Z.lt_ge_cases mr ((Q + 1) * P)) as [ | Hge ]; [ lia | exfalso ].
      assert (E1 : (Q + 1) * P * k <= mr * k)
        by (apply Z.mul_le_mono_nonneg_r; lia).
      assert (E2 : (n + 1) * P <= (Q + 1) * k * P)
        by (apply Z.mul_le_mono_nonneg_r; lia).
      assert (E3 : 2 * P <= k) by lia.
      assert (E4 : 2 * P * B <= k * B)
        by (apply Z.mul_le_mono_nonneg_r; lia).
      lia. }
  rewrite Hres. unfold in_int.
  replace ((INT_MIN <=? Q) && (Q <=? INT_MAX)) with true; [ reflexivity | ].
  symmetry. apply andb_true_iff. split; apply Z.leb_le; unfold INT_MIN; lia.
Qed.

Lemma compute_array_size_floor n k :
  1 <= k <= n -> n < 2 ^ 53 -> n / k <= INT_MAX ->
  compute_array_size n k = Some (n / k).
Proof. intros Hk Hn HQ. apply compute_array_size_floor_any; [ lia | lia | exact HQ ]. Qed.

(* ===================================================================== *)
(** * Clock calibration *)
(* ===================================================================== *)

Section Calibration.

Variable e : env.

Lemma MINi_min x y : MINi x y = Z.min x y.
Proof. unfold MINi. destruct (Z.ltb_spec x y); lia. Qed.

Lemma MAXi_max x y : MAXi x y = Z.max x y.
Proof. unfold MAXi. rewrite Z.gtb_ltb. destruct (Z.ltb_spec y x); lia. Qed.

Lemma min_delta_spec rest : forall prev acc,
  min_delta prev rest acc =
    option_map (fun ds => fold_left Z.min (map (fun d => Z.max d 0) ds) acc)
               (deltas_from prev rest).
Proof.
  induction rest as [ | t rest IH ]; intros prev acc; cbn [min_delta deltas_from].
  - reflexivity.
  - destruct (int_of_double _) as [ d | ]; [ | reflexivity ].
    rewrite IH, MINi_min, MAXi_max.
    destruct (deltas_from t rest); reflexivity.
Qed.

Lemma granularity_spec tf :
  granularity tf = option_map capped_minimum (deltas tf).
Proof.
  destruct tf as [ | t0 rest ]; [ reflexivity | ].
  apply min_delta_spec.
Qed.

Lemma fold_min_le l : forall acc, fold_left Z.min l acc <= acc.
Proof.
  induction l as [ | x l IH ]; intros acc; cbn [fold_left]; [ lia | ].
  specialize (IH (Z.min acc x)). lia.
Qed.

Lemma fold_min_lower l b : forall acc,
  b <= acc -> (forall x, In x l -> b <= x) -> b <= fold_left Z.min l acc.
Proof.
  induction l as [ | x l IH ]; intros acc Ha Hl; cbn [fold_left]; [ exact Ha | ].
  apply IH; [ | intros y Hy; apply Hl; right; exact Hy ].
  specialize (Hl x (or_introl eq_refl)). lia.
Qed.

Lemma capped_minimum_range ds : 0 <= capped_minimum ds <= 1000000.
Proof.
  unfold capped_minimum. split; [ | apply fold_min_le ].
  apply fold_min_lower; [ lia | ].
  intros x Hx. apply in_map_iff in Hx. destruct Hx as (d & <- & _). lia.
Qed.

Lemma deltas_from_length rest : forall prev ds,
  deltas_from prev rest = Some ds -> List.length ds = List.length rest.
Proof.
  induction rest as [ | t rest IH ]; intros prev ds; cbn [deltas_from].
  - intros [= <-]. reflexivity.
  - destruct (int_of_double _) as [ d | ]; [ | discriminate ].
    destruct (deltas_from t rest) as [ ds' | ] eqn:E; [ | discriminate ].
    intros [= <-]. cbn. f_equal. exact (IH _ _ E).
Qed.

(** ** The busy wait ends *)

Lemma spin_exits t1 d : forall w,
  negb (dlt (dsub (reading e (ticks w + d)) t1) d1em6) = true ->
  exists m w',
    (ticks w <= m <= ticks w + d)%nat /\
    negb (dlt (dsub (reading e m) t1) d1em6) = true /\
    (forall j, (ticks w <= j < m)%nat ->
               negb (dlt (dsub (reading e j) t1) d1em6) = false) /\
    ticks w' = S m /\
    forall fuel, (d < fuel)%nat -> spin e fuel t1 w = Ok (reading e m) w'.
Proof.
  induction d as [ | d IH ]; intros w Hexit.
  - rewrite Nat.add_0_r in Hexit. apply negb_true_iff in Hexit.
    exists (ticks w), {| trace := trace w ++ [EvClock]; ticks := S (ticks w) |}.
    split; [ lia | split; [ apply negb_true_iff; exact Hexit | ] ].
    split; [ intros j Hj; lia | split; [ reflexivity | ] ].
    intros [ | fuel ] Hf; [ lia | ].
    cbn [spin]. unfold bind, mysecond. fold (reading e (ticks w)).
    rewrite Hexit. reflexivity.
  - destruct (dlt (dsub (reading e (ticks w)) t1) d1em6) eqn:Enow.
    + set (w1 := {| trace := trace w ++ [EvClock]; ticks := S (ticks w) |}).
      destruct (IH w1) as (m & w' & Hm & Hex & Hbefore & Ht & Hrun).
      { cbn [ticks w1]. rewrite <- Hexit. do 4 f_equal. lia. }
      cbn [ticks w1] in Hm, Hbefore.
      exists m, w'. split; [ lia | split; [ exact Hex | ] ].
      split.
      * intros j Hj. destruct (Nat.eq_dec j (ticks w)) as [ -> | ];
          [ rewrite Enow; reflexivity | apply Hbefore; lia ].
      * split; [ exact Ht | ].
        intros [ | fuel ] Hf; [ lia | ].
        cbn [spin]. unfold bind at 1. unfold mysecond at 1.
        fold (reading e (ticks w)). rewrite Enow. fold w1.
        apply Hrun. lia.
    + exists (ticks w), {| trace := trace w ++ [EvClock]; ticks := S (ticks w) |}.
      split; [ lia | split; [ rewrite Enow; reflexivity | ] ].
      split; [ intros j Hj; lia | split; [ reflexivity | ] ].
      intros [ | fuel ] Hf; [ lia | ].
      cbn [spin]. unfold bind, mysecond. fold (reading e (ticks w)).
      rewrite Enow. reflexivity.
Qed.

Variables (d first last : nat).
Hypothesis clock_advances : advances e d first last.
Hypothesis clock_steady : steady e first last.

(** [rounds] rounds from the world [w], within the readings [first] to
    [last]: the ticks found, and their differences with each other and
    with any earlier reading, which all fit an [int]. *)
Lemma collect_ticks_window rounds : forall w,
  (first <= ticks w)%nat -> (ticks w + rounds * S d <= last)%nat ->
  exists tf w',
    List.length tf = rounds /\
    tick_sequence e (ticks w) tf /\
    (ticks w' <= ticks w + rounds * S d)%nat /\
    (forall fuel, (d <= fuel)%nat -> collect_ticks e fuel rounds w = Ok tf w') /\
    (forall p, (first <= p < ticks w)%nat ->
       exists ds, deltas_from (reading e p) tf = Some ds) /\
    exists ds, deltas tf = Some ds.
Proof.
  induction rounds as [ | rounds IH ]; intros w Hlo Hhi.
  - exists [], w. split; [ reflexivity | split; [ constructor | ] ].
    split; [ lia | split; [ reflexivity | ] ].
    split; [ intros p _ | ]; exists []; reflexivity.
  - destruct (clock_advances (ticks w) ltac:(lia)) as (m0 & Hm0 & Hap).
    set (w1 := {| trace := trace w ++ [EvClock]; ticks := S (ticks w) |}).
    destruct (spin_exits (reading e (ticks w)) (m0 - S (ticks w)) w1)
      as (m & w2 & Hm & Hex & Hbefore & Ht & Hrun).
    { cbn [ticks w1]. replace (S (ticks w) + (m0 - S (ticks w)))%nat with m0 by lia.
      exact Hap. }
    cbn [ticks w1] in Hm, Hbefore.
    destruct (IH w2) as (tf & w3 & Hlen & Hseq & Hend & Hcollect & Hfrom & _);
      [ lia | rewrite Ht; lia | ].
    destruct (Hfrom m ltac:(lia)) as (ds & Hds).
    exists (reading e m :: tf), w3.
    split; [ cbn; f_equal; exact Hlen | split ].
    { apply ticks_cons; [ lia | exact Hex | | rewrite <- Ht; exact Hseq ].
      intros j Hj. apply Hbefore. lia. }
    split; [ rewrite Ht in Hend; lia | split ].
    { intros fuel Hf. cbn [collect_ticks].
      unfold bind at 1. unfold mysecond at 1. fold w1. fold (reading e (ticks w)).
      unfold bind at 1. rewrite Hrun by lia.
      unfold bind at 1. rewrite Hcollect by lia. reflexivity. }
    split; [ | exists ds; exact Hds ].
    intros p Hp. cbn [deltas_from].
    pose proof (clock_steady p m ltac:(lia) ltac:(lia) ltac:(lia)) as Hfit.
    unfold fits_int in Hfit.
    destruct (int_of_double (dmul d1e6 (dsub (reading e m) (reading e p))))
      as [ delta | ]; [ | discriminate ].
    rewrite Hds. exists (delta :: ds). reflexivity.
Qed.

End Calibration.



(** On a clock read every three microseconds every reading is a tick for
    the one before it; the ticks are six microseconds apart, the
    differences are truncated to 5 or 6 and the result is 5. *)
Lemma microsecond_clock_advances : advances microsecond_clock 1 0 40.
Proof.
  intros n Hn. exists (S n). split; [ lia | ].
  do 40 (destruct n as [ | n ]; [ vm_compute; reflexivity | ]). lia.
Qed.

Lemma microsecond_clock_steady : steady microsecond_clock 0 40.
Proof.
  assert (H : forallb (fun n =>
                forallb (fun m =>
                  fits_int (dmul d1e6 (dsub (reading microsecond_clock m)
                                            (reading microsecond_clock n))))
                  (seq 0 41))
                (seq 0 41) = true) by (vm_compute; reflexivity).
  intros n m _ Hnm Hm.
  rewrite forallb_forall in H. specialize (H n ltac:(apply in_seq; lia)).
  rewrite forallb_forall in H. apply H. apply in_seq. lia.
Qed.


(* ===================================================================== *)
(** * Allocation *)
(* ===================================================================== *)

Section Allocation.

Variable e : env.

Lemma allocate_from_returns n count : forall tid w,
  exists w',
    allocate_from e n tid count w =
      Ok (map (fun t => fresh_buffer e n t 0) (seq tid count),
          map (fun t => fresh_buffer e n t 1) (seq tid count),
          map (fun t => fresh_buffer e n t 2) (seq tid count)) w' /\
    ticks w' = ticks w.
Proof.
  induction count as [ | count IH ]; intros tid w.
  - exists w. split; reflexivity.
  - cbn [allocate_from seq map]. unfold bind at 1 2 3. unfold malloc at 1 2 3.
    destruct (IH (S tid)
                (log (EvMalloc tid 2 (malloc_bytes n) (malloc_ok e tid 2))
                   (log (EvMalloc tid 1 (malloc_bytes n) (malloc_ok e tid 1))
                      (log (EvMalloc tid 0 (malloc_bytes n) (malloc_ok e tid 0)) w))))
      as (w' & Hrun & Ht).
    exists w'. unfold bind. rewrite Hrun. split; [ reflexivity | exact Ht ].
Qed.

(** The allocation region never stops the program: it returns with the
    null pointer in the place of every failed [malloc]. *)
Lemma allocate_returns n nt i0 w :
  exists w', allocate e n nt i0 w = Ok (fresh_store e n nt i0) w' /\
             ticks w' = ticks w.
Proof.
  destruct (allocate_from_returns n nt 0%nat w) as (w' & Hrun & Ht).
  exists w'. unfold allocate, bind. rewrite Hrun. split; [ reflexivity | exact Ht ].
Qed.

Lemma malloc_bytes_elements n :
  0 <= n <= INT_MAX -> malloc_bytes n / sizeof_STREAM_TYPE = n.
Proof.
  unfold malloc_bytes, to_ulong, sizeof_STREAM_TYPE, INT_MAX. intros H.
  rewrite (Z.mod_small n) by lia. rewrite Z.mod_small by lia.
  rewrite Z.mul_comm. apply Z.div_mul. lia.
Qed.

Lemma fresh_store_slot x n nt i0 tid : (tid < nt)%nat ->
  nth_error (get_arr x (fresh_store e n nt i0)) tid =
    Some (fresh_buffer e n tid (which_of x)).
Proof.
  intros H. destruct x; cbn [get_arr fresh_store arr_a arr_b arr_c];
    rewrite nth_error_map, nth_error_seq;
    (replace (tid <? nt)%nat with true by (symmetry; apply Nat.ltb_lt; exact H));
    reflexivity.
Qed.

(** Any store through a null buffer is undefined. *)
Lemma store_through_null x tid i v st :
  nth_error (get_arr x st) tid = Some None -> store_elem x tid i v st = None.
Proof. intros H. unfold store_elem. rewrite H. reflexivity. Qed.

End Allocation.

(** C3, as amended: for [1 <= thread_count <= total_elements] with
    [total_elements < 2^53] and a quotient that fits an [int] (at most
    2147483647), line 182 computes the floor of
    [total_elements / thread_count]; the allocation region then gives each
    thread three buffers of exactly that many elements, one for each
    [malloc] that succeeds (a null pointer for one that fails). *)
Theorem array_size_is_floor (e : env) (total threads : Z) (w : world) :
  1 <= threads <= total -> total < 2 ^ 53 -> total / threads <= INT_MAX ->
  compute_array_size total threads = Some (total / threads) /\
  exists st w',
    allocate e (total / threads) (Z.to_nat threads) threads w = Ok st w' /\
    forall x tid, (tid < Z.to_nat threads)%nat ->
      exists p,
        nth_error (get_arr x st) tid = Some p /\
        (malloc_ok e tid (which_of x) = false -> p = None) /\
        (malloc_ok e tid (which_of x) = true ->
           exists buf, p = Some buf /\
                       Z.of_nat (List.length buf) = total / threads).
Proof.
  intros Hk Hn HQ.
  split; [ apply compute_array_size_floor; assumption | ].
  destruct (allocate_returns e (total / threads) (Z.to_nat threads) threads w)
    as (w' & Hrun & _).
  exists (fresh_store e (total / threads) (Z.to_nat threads) threads), w'.
  split; [ exact Hrun | ].
  intros x tid Htid.
  exists (fresh_buffer e (total / threads) tid (which_of x)).
  split; [ apply fresh_store_slot; exact Htid | ].
  unfold fresh_buffer. split; intros Hm; rewrite Hm; [ reflexivity | ].
  eexists. split; [ reflexivity | ].
  rewrite repeat_length, malloc_bytes_elements.
  - apply Z2Nat.id. apply Z.div_pos; lia.
  - split; [ apply Z.div_pos; lia | exact HQ ].
Qed.

Lemma array_size_is_floor_witness :
  compute_array_size 8 2 = Some 4 /\
  exists st w',
    allocate two_threads 4 2 2 world0 = Ok st w' /\
    forall x tid, (tid < 2)%nat ->
      exists p,
        nth_error (get_arr x st) tid = Some p /\
        (malloc_ok two_threads tid (which_of x) = false -> p = None) /\
        (malloc_ok two_threads tid (which_of x) = true ->
           exists buf, p = Some buf /\ Z.of_nat (List.length buf) = 4).
Proof.
  apply (array_size_is_floor two_threads 8 2 world0).
  - lia.
  - reflexivity.
  - discriminate.
Defined.

(** C3 as stated fails: with 3000000000 elements and one thread the
    quotient does not fit the [int] it is converted to, so that no size is
    defined and the run stops there; with [2^54 - 1] elements and [2^24]
    threads the rounded quotient is one more than the floor. *)
Lemma array_size_is_not_always_floor :
  (1 <= 1 <= 3000000000 /\
   3000000000 / 1 = 3000000000 /\
   compute_array_size 3000000000 1 = None /\
   main default_config ["stream"; "3000000000"]%string slow_clock = (Crashed, [])) /\
  (1 <= 2 ^ 24 <= 2 ^ 54 - 1 /\
   (2 ^ 54 - 1) / 2 ^ 24 = 1073741823 /\
   compute_array_size (2 ^ 54 - 1) (2 ^ 24) = Some 1073741824).
Proof. vm_compute. repeat split; discriminate. Qed.

Lemma main_trace cfg argv e n :
  read_args cfg argv = UseSize n ->
  snd (main cfg argv e) = trace (world_of (benchmark cfg e n world0)).
Proof.
  intros H. unfold main. rewrite H.
  destruct (benchmark cfg e n world0); reflexivity.
Qed.

Lemma main_not_minus_one cfg argv e n :
  read_args cfg argv = UseSize n -> fst (main cfg argv e) <> Returned (-1).
Proof.
  intros H. unfold main. rewrite H.
  destruct (benchmark cfg e n world0); discriminate.
Qed.

(** Once the size is computed and the clock calibrated, the run enters
    the initialisation, whatever [malloc] returned. *)
Lemma benchmark_reaches_init cfg e n sz :
  1 <= omp_threads e <= INT_MAX ->
  compute_array_size n (omp_threads e) = Some sz ->
  calibration_returns e ->
  reaches_init (trace (world_of (benchmark cfg e n world0))).
Proof.
  intros Ht Hsz Hcal. unfold benchmark.
  apply (keeps_after (fun tr => In (EvRegion RInit) tr)).
  - unfold run_kernels.
    replace ((omp_threads e <? 1) || negb (in_int (omp_threads e))) with false.
    + rewrite Hsz. unfold lift_option. unfold bind at 1, ret at 1.
      destruct (allocate_returns e sz (Z.to_nat (omp_threads e)) (omp_threads e) world0)
        as (w1 & Hrun & Ht1).
      unfold bind at 1. rewrite Hrun.
      destruct (Hcal w1 Ht1) as (q & w2 & Hq).
      unfold bind at 1. rewrite Hq.
      apply (keeps_after (fun tr => In (EvRegion RInit) tr)).
      * apply (established_by_init (fun tr => In (EvRegion RInit) tr) (seen_log _)).
        intros tr. apply in_or_app. right. left. reflexivity.
      * intros [ ts st ]. apply keeps_ret.
    + symmetry. apply orb_false_iff. split; [ apply Z.ltb_ge; lia | ].
      apply negb_false_iff. unfold in_int. apply andb_true_iff.
      split; apply Z.leb_le; unfold INT_MIN; lia.
  - intros [ [ array_size ts ] st ].
    apply keeps_bind; [ apply keeps_report; exact (seen_log _) | ].
    intros _. apply keeps_ret.
Qed.

(** C6, as amended: the program does not check what [malloc] returns.
    When an allocation fails, the allocation region still returns, with a
    null pointer in the slot of that buffer; nothing is reported (the only
    message of the program is the one of the argument check) and [main]
    does not return -1; once the clock is calibrated the run enters the
    initialisation with the null pointer, through which any store is
    undefined. *)
Theorem allocation_failure_is_ignored (cfg : config) (argv : list string)
  (e : env) (n sz : Z) (x : arr) (tid : nat) :
  read_args cfg argv = UseSize n ->
  1 <= omp_threads e <= INT_MAX ->
  compute_array_size n (omp_threads e) = Some sz ->
  (tid < Z.to_nat (omp_threads e))%nat ->
  malloc_ok e tid (which_of x) = false ->
  calibration_returns e ->
  quiet (snd (main cfg argv e)) /\
  fst (main cfg argv e) <> Returned (-1) /\
  reaches_init (snd (main cfg argv e)) /\
  forall w, exists st w',
    allocate e sz (Z.to_nat (omp_threads e)) (omp_threads e) w = Ok st w' /\
    nth_error (get_arr x st) tid = Some None /\
    forall i v, store_elem x tid i v st = None.
Proof.
  intros Hargs Ht Hsz Htid Hfail Hcal.
  split.
  { intros msg H. apply error_printed_only_for_invalid_input in H. congruence. }
  split; [ exact (main_not_minus_one _ _ _ _ Hargs) | ].
  split.
  { rewrite (main_trace _ _ _ _ Hargs).
    exact (benchmark_reaches_init cfg e n sz Ht Hsz Hcal). }
  intros w.
  destruct (allocate_returns e sz (Z.to_nat (omp_threads e)) (omp_threads e) w)
    as (w' & Hrun & _).
  eexists _, w'. split; [ exact Hrun | ].
  assert (Hnull : nth_error (get_arr x (fresh_store e sz (Z.to_nat (omp_threads e))
                                          (omp_threads e))) tid = Some None).
  { rewrite fresh_store_slot by exact Htid. unfold fresh_buffer.
    rewrite Hfail. reflexivity. }
  split; [ exact Hnull | ].
  intros i v. apply store_through_null. exact Hnull.
Qed.

Lemma failing_malloc_calibration : calibration_returns failing_malloc.
Proof.
  intros [ tr tk ] H. cbn in H. subst tk.
  eexists _, _. vm_compute. reflexivity.
Qed.

Lemma allocation_failure_is_ignored_witness :
  quiet (snd (main default_config ["stream"; "8"]%string failing_malloc)) /\
  fst (main default_config ["stream"; "8"]%string failing_malloc) <> Returned (-1) /\
  reaches_init (snd (main default_config ["stream"; "8"]%string failing_malloc)) /\
  forall w, exists st w',
    allocate failing_malloc 4 2 2 w = Ok st w' /\
    nth_error (get_arr ArrA st) 0 = Some None /\
    forall i v, store_elem ArrA 0 i v st = None.
Proof.
  apply (allocation_failure_is_ignored default_config ["stream"; "8"]%string
           failing_malloc 8 4 ArrA 0%nat).
  - reflexivity.
  - cbn. unfold INT_MAX. lia.
  - vm_compute. reflexivity.
  - cbn. lia.
  - reflexivity.
  - exact failing_malloc_calibration.
Defined.

(** C6 as stated fails: when the first allocation fails, nothing is
    reported; the run calibrates the clock, enters the initialisation and
    stores through the null pointer. *)
Lemma failed_allocation_goes_unnoticed :
  let r := main default_config ["stream"; "8"]%string failing_malloc in
  fst r = Crashed /\
  In (EvMalloc 0 0 32 false) (snd r) /\
  quiet (snd r) /\
  In EvClock (snd r) /\
  reaches_init (snd r).
Proof.
  cbv zeta.
  split; [ vm_compute; reflexivity | ].
  split; [ vm_compute; tauto | ].
  split.
  - intros msg H. apply error_printed_only_for_invalid_input in H. discriminate.
  - split; [ vm_compute; tauto | ].
    unfold reaches_init. vm_compute. tauto.
Qed.

(* ===================================================================== *)
(** * The kernels *)
(* ===================================================================== *)

(** ** Lists and stores *)

Lemma replace_nth_length {A} (l : list A) : forall n v,
  List.length (replace_nth n v l) = List.length l.
Proof.
  induction l as [ | x l IH ]; intros [ | n ] v; cbn; try reflexivity.
  f_equal. apply IH.
Qed.

Lemma nth_error_replace_nth {A} (l : list A) : forall n n' v,
  nth_error (replace_nth n v l) n' =
    if Nat.eqb n n' then option_map (fun _ => v) (nth_error l n')
    else nth_error l n'.
Proof.
  induction l as [ | x l IH ]; intros [ | n ] [ | n' ] v; cbn;
    try reflexivity; try (destruct (Nat.eqb _ _); reflexivity).
  apply IH.
Qed.

Lemma replace_nth_twice {A} (l : list A) : forall n v v',
  replace_nth n v' (replace_nth n v l) = replace_nth n v' l.
Proof.
  induction l as [ | x l IH ]; intros [ | n ] v v'; cbn; try reflexivity.
  f_equal. apply IH.
Qed.



Lemma get_set_arr x y v st :
  get_arr x (set_arr y v st) =
    match x, y with
    | ArrA, ArrA | ArrB, ArrB | ArrC, ArrC => v
    | _, _ => get_arr x st
    end.
Proof. destruct x, y; reflexivity. Qed.

Lemma var_i_set_arr y v st : var_i (set_arr y v st) = var_i st.
Proof. destruct y; reflexivity. Qed.

Lemma arr_eqb_eq x y : arr_eqb x y = true <-> x = y.
Proof. destruct x, y; cbn; split; congruence. Qed.

(** A store in range succeeds, writes the element and nothing else. *)
Lemma store_elem_spec x t i v st buf :
  nth_error (get_arr x st) t = Some (Some buf) ->
  0 <= i < Z.of_nat (List.length buf) ->
  exists st',
    store_elem x t i v st = Some st' /\
    var_i st' = var_i st /\
    same_shape st st' /\
    load x t i st' = Some v /\
    (forall x' t' j, ~ (x' = x /\ t' = t /\ j = i) ->
       load x' t' j st' = load x' t' j st).
Proof.
  intros Hbuf Hi. unfold store_elem. rewrite Hbuf.
  replace ((i <? 0) || (Z.of_nat (List.length buf) <=? i)) with false
    by (symmetry; apply orb_false_iff; split; [ apply Z.ltb_ge | apply Z.leb_gt ]; lia).
  eexists. split; [ reflexivity | ].
  split; [ apply var_i_set_arr | ].
  split; [ | split ].
  - intros x' t'. rewrite get_set_arr.
    destruct (arr_eqb x' x) eqn:Ex.
    + apply arr_eqb_eq in Ex. subst x'.
      replace (match x, x with ArrA, ArrA | ArrB, ArrB | ArrC, ArrC => _ | _, _ => _ end)
        with (replace_nth t (Some (replace_nth (Z.to_nat i) v buf)) (get_arr x st))
        by (destruct x; reflexivity).
      rewrite nth_error_replace_nth. destruct (Nat.eqb_spec t t') as [ <- | ]; [ | reflexivity ].
      rewrite Hbuf. cbn. rewrite replace_nth_length. reflexivity.
    + destruct x', x; cbn in Ex; try discriminate; reflexivity.
  - unfold load. rewrite get_set_arr.
    replace (match x, x with ArrA, ArrA | ArrB, ArrB | ArrC, ArrC => _ | _, _ => _ end)
      with (replace_nth t (Some (replace_nth (Z.to_nat i) v buf)) (get_arr x st))
      by (destruct x; reflexivity).
    rewrite nth_error_replace_nth, Nat.eqb_refl, Hbuf. cbn.
    replace (i <? 0) with false by (symmetry; apply Z.ltb_ge; lia).
    rewrite nth_error_replace_nth, Nat.eqb_refl.
    destruct (nth_error buf (Z.to_nat i)) eqn:E; [ reflexivity | ].
    apply nth_error_None in E. lia.
  - intros x' t' j Hne. unfold load. rewrite get_set_arr.
    destruct (arr_eqb x' x) eqn:Ex.
    + apply arr_eqb_eq in Ex. subst x'.
      replace (match x, x with ArrA, ArrA | ArrB, ArrB | ArrC, ArrC => _ | _, _ => _ end)
        with (replace_nth t (Some (replace_nth (Z.to_nat i) v buf)) (get_arr x st))
        by (destruct x; reflexivity).
      rewrite nth_error_replace_nth. destruct (Nat.eqb_spec t t') as [ <- | ]; [ | reflexivity ].
      rewrite Hbuf. cbn. destruct (Z.ltb_spec j 0); [ reflexivity | ].
      rewrite nth_error_replace_nth.
      destruct (Nat.eqb_spec (Z.to_nat i) (Z.to_nat j)) as [ E | ]; [ | reflexivity ].
      exfalso. apply Hne. repeat split. lia.
    + destruct x', x; cbn in Ex; try discriminate; reflexivity.
Qed.

Lemma same_shape_refl st : same_shape st st.
Proof. intros x t. reflexivity. Qed.

Lemma same_shape_trans st1 st2 st3 :
  same_shape st1 st2 -> same_shape st2 st3 -> same_shape st1 st3.
Proof. intros H1 H2 x t. rewrite H2. apply H1. Qed.

Lemma owns_same_shape nthreads n st st' :
  owns_buffers nthreads n st -> same_shape st st' -> owns_buffers nthreads n st'.
Proof.
  intros Ho Hs x t Ht. destruct (Ho x t Ht) as (buf & Hb & Hl).
  specialize (Hs x t). rewrite Hb in Hs. cbn in Hs.
  destruct (nth_error (get_arr x st') t) as [ [ buf' | ] | ]; try discriminate.
  exists buf'. split; [ reflexivity | ]. cbn in Hs. injection Hs as Hs. lia.
Qed.

Lemma owns_load nthreads n st x t i :
  owns_buffers nthreads n st -> (t < nthreads)%nat -> 0 <= i < n ->
  exists v, load x t i st = Some v.
Proof.
  intros Ho Ht Hi. destruct (Ho x t Ht) as (buf & Hb & Hl).
  unfold load. rewrite Hb.
  replace (i <? 0) with false by (symmetry; apply Z.ltb_ge; lia).
  destruct (nth_error buf (Z.to_nat i)) as [ v | ] eqn:E; [ exists v; reflexivity | ].
  apply nth_error_None in E. lia.
Qed.

Lemma owns_store nthreads n st x t i v :
  owns_buffers nthreads n st -> (t < nthreads)%nat -> 0 <= i < n ->
  exists st',
    store_elem x t i v st = Some st' /\
    var_i st' = var_i st /\
    same_shape st st' /\
    load x t i st' = Some v /\
    (forall x' t' j, ~ (x' = x /\ t' = t /\ j = i) ->
       load x' t' j st' = load x' t' j st).
Proof.
  intros Ho Ht Hi. destruct (Ho x t Ht) as (buf & Hb & Hl).
  apply (store_elem_spec x t i v st buf Hb). lia.
Qed.

(** One round of the body of [r] by thread [t] at index [i]. *)
Lemma body_effect r nthreads n t st :
  owns_buffers nthreads n st -> (t < nthreads)%nat -> 0 <= var_i st < n ->
  exists st',
    exec_stmts (body_of r) t st = Some st' /\
    var_i st' = var_i st /\
    applied r t (var_i st) (var_i st + 1) st st'.
Proof.
  intros Ho Ht Hi.
  destruct (owns_load _ _ _ ArrA t _ Ho Ht Hi) as (xa & Ha).
  destruct (owns_load _ _ _ ArrB t _ Ho Ht Hi) as (xb & Hb).
  destruct (owns_load _ _ _ ArrC t _ Ho Ht Hi) as (xc & Hc).
  assert (Hel : element t (var_i st) st = Some (xa, xb, xc))
    by (unfold element; rewrite Ha, Hb, Hc; reflexivity).
  destruct r; cbn [body_of init_body exec_stmts].
  - (* initialisation: three stores *)
    unfold assign_const.
    destruct (owns_store _ _ _ ArrA t _ d1 Ho Ht Hi) as (s1 & -> & Hi1 & Hs1 & Hl1 & Hf1).
    pose proof (owns_same_shape _ _ _ _ Ho Hs1) as Ho1.
    rewrite Hi1.
    destruct (owns_store _ _ _ ArrB t _ d2 Ho1 Ht Hi) as (s2 & -> & Hi2 & Hs2 & Hl2 & Hf2).
    pose proof (owns_same_shape _ _ _ _ Ho1 Hs2) as Ho2.
    rewrite Hi2, Hi1.
    destruct (owns_store _ _ _ ArrC t _ d0 Ho2 Ht Hi) as (s3 & -> & Hi3 & Hs3 & Hl3 & Hf3).
    exists s3. split; [ reflexivity | split; [ congruence | ] ].
    split; [ exact (same_shape_trans _ _ _ (same_shape_trans _ _ _ Hs1 Hs2) Hs3) | split ].
    + intros x t' j Hne. rewrite Hf3, Hf2, Hf1; [ reflexivity | | | ]; intros (_ & -> & ->); apply Hne; split; [ reflexivity | lia | reflexivity | lia | reflexivity | lia ].
    + intros j Hj. assert (j = var_i st) as -> by lia. rewrite Hel.
      unfold element. rewrite Hl3, (Hf3 ArrB), Hl2, (Hf3 ArrA), (Hf2 ArrA), Hl1;
        [ reflexivity | | | ]; intros (E & _); discriminate.
  - (* doubling *)
    unfold warm_stmt. rewrite Ha.
    destruct (owns_store _ _ _ ArrA t _ (dmul d2 xa) Ho Ht Hi) as (s1 & -> & Hi1 & Hs1 & Hl1 & Hf1).
    exists s1. split; [ reflexivity | split; [ exact Hi1 | ] ].
    split; [ exact Hs1 | split ].
    + intros x t' j Hne. apply Hf1. intros (_ & -> & ->). apply Hne. split; [ reflexivity | lia ].
    + intros j Hj. assert (j = var_i st) as -> by lia. rewrite Hel.
      unfold element. rewrite Hl1, (Hf1 ArrB), (Hf1 ArrC), Hb, Hc;
        [ reflexivity | | ]; intros (E & _); discriminate.
  - (* copy *)
    unfold copy_stmt. rewrite Ha.
    destruct (owns_store _ _ _ ArrC t _ xa Ho Ht Hi) as (s1 & -> & Hi1 & Hs1 & Hl1 & Hf1).
    exists s1. split; [ reflexivity | split; [ exact Hi1 | ] ].
    split; [ exact Hs1 | split ].
    + intros x t' j Hne. apply Hf1. intros (_ & -> & ->). apply Hne. split; [ reflexivity | lia ].
    + intros j Hj. assert (j = var_i st) as -> by lia. rewrite Hel.
      unfold element. rewrite Hl1, (Hf1 ArrA), (Hf1 ArrB), Ha, Hb;
        [ reflexivity | | ]; intros (E & _); discriminate.
  - (* scale *)
    unfold scale_stmt. rewrite Hc.
    destruct (owns_store _ _ _ ArrB t _ (dmul SCALAR xc) Ho Ht Hi) as (s1 & -> & Hi1 & Hs1 & Hl1 & Hf1).
    exists s1. split; [ reflexivity | split; [ exact Hi1 | ] ].
    split; [ exact Hs1 | split ].
    + intros x t' j Hne. apply Hf1. intros (_ & -> & ->). apply Hne. split; [ reflexivity | lia ].
    + intros j Hj. assert (j = var_i st) as -> by lia. rewrite Hel.
      unfold element. rewrite Hl1, (Hf1 ArrA), (Hf1 ArrC), Ha, Hc;
        [ reflexivity | | ]; intros (E & _); discriminate.
  - (* add *)
    unfold add_stmt. rewrite Ha, Hb.
    destruct (owns_store _ _ _ ArrC t _ (dadd xa xb) Ho Ht Hi) as (s1 & -> & Hi1 & Hs1 & Hl1 & Hf1).
    exists s1. split; [ reflexivity | split; [ exact Hi1 | ] ].
    split; [ exact Hs1 | split ].
    + intros x t' j Hne. apply Hf1. intros (_ & -> & ->). apply Hne. split; [ reflexivity | lia ].
    + intros j Hj. assert (j = var_i st) as -> by lia. rewrite Hel.
      unfold element. rewrite Hl1, (Hf1 ArrA), (Hf1 ArrB), Ha, Hb;
        [ reflexivity | | ]; intros (E & _); discriminate.
  - (* triad *)
    unfold triad_stmt. rewrite Hb, Hc.
    destruct (owns_store _ _ _ ArrA t _ (dadd xb (dmul SCALAR xc)) Ho Ht Hi) as (s1 & -> & Hi1 & Hs1 & Hl1 & Hf1).
    exists s1. split; [ reflexivity | split; [ exact Hi1 | ] ].
    split; [ exact Hs1 | split ].
    + intros x t' j Hne. apply Hf1. intros (_ & -> & ->). apply Hne. split; [ reflexivity | lia ].
    + intros j Hj. assert (j = var_i st) as -> by lia. rewrite Hel.
      unfold element. rewrite Hl1, (Hf1 ArrB), (Hf1 ArrC), Hb, Hc;
        [ reflexivity | | ]; intros (E & _); discriminate.
Qed.

(** ** One thread running alone *)

Lemma run_schedule_app body n s1 : forall s2 rs,
  run_schedule body n (s1 ++ s2) rs =
    match run_schedule body n s1 rs with
    | Some rs' => run_schedule body n s2 rs'
    | None => None
    end.
Proof.
  induction s1 as [ | t s1 IH ]; intros s2 rs; cbn [app run_schedule]; [ reflexivity | ].
  destruct (thread_step body n t rs); [ apply IH | reflexivity ].
Qed.

Lemma replace_nth_same {A} (l : list A) : forall n v,
  nth_error l n = Some v -> replace_nth n v l = l.
Proof.
  induction l as [ | x l IH ]; intros [ | n ] v; cbn; try discriminate.
  - intros [= ->]. reflexivity.
  - intros H. f_equal. apply IH. exact H.
Qed.

Lemma nth_error_replace_nth_same {A} (l : list A) n v v0 :
  nth_error l n = Some v0 -> nth_error (replace_nth n v l) n = Some v.
Proof.
  intros H. rewrite nth_error_replace_nth, Nat.eqb_refl, H. reflexivity.
Qed.

Section OneThread.

Variables (body : list stmt) (n : Z) (tid : nat).

(** The statements [ss] that remain of the body, one step each. *)
Lemma body_steps ss : forall pre rs st',
  body = pre ++ ss ->
  nth_error (pcs rs) tid = Some (AtBody (List.length pre)) ->
  exec_stmts ss tid (mem rs) = Some st' ->
  run_schedule body n (repeat tid (List.length ss)) rs =
    Some {| mem := st'; pcs := replace_nth tid (AtBody (List.length body)) (pcs rs) |}.
Proof.
  induction ss as [ | s ss IH ]; intros pre rs st' Hb Hpc Hex.
  - cbn in Hex. injection Hex as <-. cbn [List.length repeat run_schedule].
    rewrite Hb, app_nil_r, (replace_nth_same _ _ _ Hpc). destruct rs; reflexivity.
  - cbn [exec_stmts] in Hex. destruct (s tid (mem rs)) as [ st1 | ] eqn:Es; [ | discriminate ].
    cbn [List.length repeat run_schedule]. unfold thread_step. rewrite Hpc.
    replace (nth_error body (List.length pre)) with (Some s)
      by (rewrite Hb, nth_error_app2, Nat.sub_diag by lia; reflexivity).
    rewrite Es.
    rewrite (IH (pre ++ [s]) _ st').
    + cbn [pcs mem]. rewrite replace_nth_twice. reflexivity.
    + rewrite <- app_assoc. exact Hb.
    + cbn [pcs]. rewrite length_app. cbn [List.length].
      replace (List.length pre + 1)%nat with (S (List.length pre)) by lia.
      exact (nth_error_replace_nth_same _ _ _ _ Hpc).
    + exact Hex.
Qed.

(** One round of the loop: test, body, increment. *)
Lemma round_steps rs st' :
  nth_error (pcs rs) tid = Some AtTest ->
  var_i (mem rs) < n -> var_i (mem rs) < INT_MAX ->
  exec_stmts body tid (mem rs) = Some st' ->
  var_i st' = var_i (mem rs) ->
  run_schedule body n (repeat tid (2 + List.length body)) rs =
    Some {| mem := set_i (var_i (mem rs) + 1) st';
            pcs := replace_nth tid AtTest (pcs rs) |}.
Proof.
  intros Hpc Hlt Hmax Hex Hi.
  replace (2 + List.length body)%nat with (S (List.length body + 1)) by lia.
  cbn [repeat run_schedule]. unfold thread_step at 1. rewrite Hpc.
  replace (var_i (mem rs) <? n) with true by (symmetry; apply Z.ltb_lt; exact Hlt).
  rewrite repeat_app, run_schedule_app.
  rewrite (body_steps body [] _ st' eq_refl);
    [ | cbn [pcs]; exact (nth_error_replace_nth_same _ _ _ _ Hpc) | exact Hex ].
  cbn [repeat run_schedule pcs mem]. unfold thread_step.
  cbn [pcs mem]. rewrite replace_nth_twice.
  rewrite (nth_error_replace_nth_same _ _ _ _ Hpc).
  replace (nth_error body (List.length body)) with (@None stmt)
    by (symmetry; apply nth_error_None; lia).
  rewrite Hi.
  replace (var_i (mem rs) <? INT_MAX) with true by (symmetry; apply Z.ltb_lt; exact Hmax).
  rewrite replace_nth_twice. reflexivity.
Qed.

End OneThread.

Lemma load_set_i x t j v st : load x t j (set_i v st) = load x t j st.
Proof. unfold load. destruct x; reflexivity. Qed.

Lemma element_set_i t j v st : element t j (set_i v st) = element t j st.
Proof. unfold element. rewrite !load_set_i. reflexivity. Qed.

Lemma same_shape_set_i v st : same_shape st (set_i v st).
Proof. intros x t. destruct x; reflexivity. Qed.

Lemma element_unchanged t j st st' :
  (forall x, load x t j st' = load x t j st) -> element t j st' = element t j st.
Proof. intros H. unfold element. rewrite !H. reflexivity. Qed.

Lemma applied_empty r t i st : applied r t i i st st.
Proof.
  split; [ apply same_shape_refl | split ]; [ reflexivity | intros j Hj; lia ].
Qed.

Lemma applied_set_i r t lo hi v st st' :
  applied r t lo hi st st' -> applied r t lo hi st (set_i v st').
Proof.
  intros (Hs & Hf & He). split; [ | split ].
  - exact (same_shape_trans _ _ _ Hs (same_shape_set_i v st')).
  - intros x t' j Hne. rewrite load_set_i. apply Hf. exact Hne.
  - intros j Hj. rewrite element_set_i. apply He. exact Hj.
Qed.

Lemma applied_trans r t lo mid hi st1 st2 st3 :
  lo <= mid <= hi ->
  applied r t lo mid st1 st2 -> applied r t mid hi st2 st3 ->
  applied r t lo hi st1 st3.
Proof.
  intros Hm (Hs1 & Hf1 & He1) (Hs2 & Hf2 & He2). split; [ | split ].
  - exact (same_shape_trans _ _ _ Hs1 Hs2).
  - intros x t' j Hne. rewrite Hf2, Hf1; [ reflexivity | | ]; intros (E & Hj); apply Hne; split; (exact E || lia).
  - intros j Hj. destruct (Z.lt_ge_cases j mid) as [ Hlt | Hge ].
    + rewrite <- He1 by lia. apply element_unchanged.
      intros x. apply Hf2. intros (_ & Hj'). lia.
    + rewrite He2 by lia. f_equal. apply element_unchanged.
      intros x. apply Hf1. intros (_ & Hj'). lia.
Qed.

Section Loop.

Variables (r : region_name) (nthreads : nat) (n : Z) (tid : nat).
Hypothesis n_int : 0 <= n <= INT_MAX.
Hypothesis tid_in_team : (tid < nthreads)%nat.

Let m := List.length (body_of r).

(** The rest of the loop, from the test with [count] rounds to go. *)
Lemma loop_steps count : forall rs,
  nth_error (pcs rs) tid = Some AtTest ->
  owns_buffers nthreads n (mem rs) ->
  0 <= var_i (mem rs) -> n - var_i (mem rs) = Z.of_nat count ->
  exists st',
    run_schedule (body_of r) n (repeat tid (count * (2 + m) + 1)) rs =
      Some {| mem := st'; pcs := replace_nth tid AtEnd (pcs rs) |} /\
    applied r tid (var_i (mem rs)) n (mem rs) st'.
Proof.
  induction count as [ | count IH ]; intros rs Hpc Ho Hi Hc.
  - exists (mem rs). cbn [Nat.mul Nat.add repeat run_schedule].
    unfold thread_step. rewrite Hpc.
    replace (var_i (mem rs) <? n) with false by (symmetry; apply Z.ltb_ge; lia).
    split; [ reflexivity | ].
    replace n with (var_i (mem rs)) by lia. apply applied_empty.
  - destruct (body_effect r nthreads n tid (mem rs) Ho tid_in_team ltac:(lia))
      as (st1 & Hex & Hi1 & Hap).
    replace (S count * (2 + m) + 1)%nat
      with ((2 + m) + (count * (2 + m) + 1))%nat by lia.
    rewrite repeat_app, run_schedule_app.
    unfold m at 1.
    rewrite (round_steps (body_of r) n tid rs st1 Hpc) by (assumption || lia).
    destruct (IH {| mem := set_i (var_i (mem rs) + 1) st1;
                    pcs := replace_nth tid AtTest (pcs rs) |})
      as (st' & Hrun & Hap').
    + cbn [pcs]. exact (nth_error_replace_nth_same _ _ _ _ Hpc).
    + cbn [mem]. apply (owns_same_shape _ _ (mem rs)); [ exact Ho | ].
      destruct Hap as (Hs & _). exact (same_shape_trans _ _ _ Hs (same_shape_set_i _ _)).
    + cbn. lia.
    + cbn. lia.
    + exists st'. cbn [pcs mem] in Hrun, Hap'. rewrite replace_nth_twice in Hrun.
      split; [ exact Hrun | ].
      apply (applied_trans r tid _ (var_i (mem rs) + 1) n _ (set_i (var_i (mem rs) + 1) st1));
        [ lia | apply applied_set_i; exact Hap | ].
      replace (var_i (set_i (var_i (mem rs) + 1) st1)) with (var_i (mem rs) + 1) in Hap'
        by reflexivity.
      exact Hap'.
Qed.

(** The whole loop of one thread, run without interruption. *)
Lemma thread_runs rs :
  nth_error (pcs rs) tid = Some AtInit ->
  owns_buffers nthreads n (mem rs) ->
  exists st',
    run_schedule (body_of r) n (repeat tid (2 + Z.to_nat n * (2 + m))) rs =
      Some {| mem := st'; pcs := replace_nth tid AtEnd (pcs rs) |} /\
    applied r tid 0 n (mem rs) st'.
Proof.
  intros Hpc Ho.
  replace (2 + Z.to_nat n * (2 + m))%nat with (S (Z.to_nat n * (2 + m) + 1)) by lia.
  cbn [repeat run_schedule]. unfold thread_step at 1. rewrite Hpc.
  destruct (loop_steps (Z.to_nat n)
              {| mem := set_i 0 (mem rs); pcs := replace_nth tid AtTest (pcs rs) |})
    as (st' & Hrun & Hap).
  - cbn [pcs]. exact (nth_error_replace_nth_same _ _ _ _ Hpc).
  - cbn [mem]. exact (owns_same_shape _ _ _ _ Ho (same_shape_set_i _ _)).
  - cbn. lia.
  - cbn. lia.
  - exists st'. cbn [pcs mem] in Hrun, Hap. rewrite replace_nth_twice in Hrun.
    split; [ exact Hrun | ].
    destruct Hap as (Hs & Hf & He). split; [ | split ].
    + exact (same_shape_trans _ _ _ (same_shape_set_i 0 (mem rs)) Hs).
    + intros x t' j Hne. rewrite Hf by exact Hne. apply load_set_i.
    + intros j Hj. rewrite He by exact Hj. rewrite element_set_i. reflexivity.
Qed.

End Loop.

(** ** The threads one after the other *)

Section Serial.

Variables (r : region_name) (nthreads : nat) (n : Z).
Hypothesis n_int : 0 <= n <= INT_MAX.

Let m := List.length (body_of r).

Lemma serial_runs order : forall rs,
  NoDup order ->
  (forall t, In t order ->
     (t < nthreads)%nat /\ nth_error (pcs rs) t = Some AtInit) ->
  owns_buffers nthreads n (mem rs) ->
  exists rs',
    run_schedule (body_of r) n (serial_schedule order (Z.to_nat n) m) rs = Some rs' /\
    List.length (pcs rs') = List.length (pcs rs) /\
    (forall t, In t order -> nth_error (pcs rs') t = Some AtEnd) /\
    (forall t, ~ In t order -> nth_error (pcs rs') t = nth_error (pcs rs) t) /\
    applied_to r order n (mem rs) (mem rs').
Proof.
  induction order as [ | t order IH ]; intros rs Hnd Hin Ho.
  - exists rs. split; [ reflexivity | split; [ reflexivity | ] ].
    split; [ intros t [] | split; [ reflexivity | ] ].
    split; [ apply same_shape_refl | split; [ reflexivity | intros t j [] ] ].
  - inversion Hnd as [ | ? ? Hnotin Hnd' ]; subst.
    destruct (Hin t (or_introl eq_refl)) as [ Ht Hpc ].
    destruct (thread_runs r nthreads n t n_int Ht rs Hpc Ho) as (st1 & Hrun1 & Hap1).
    set (rs1 := {| mem := st1; pcs := replace_nth t AtEnd (pcs rs) |}) in *.
    assert (Hother : forall t', t' <> t -> nth_error (pcs rs1) t' = nth_error (pcs rs) t').
    { intros t' Hne. cbn [pcs rs1]. rewrite nth_error_replace_nth.
      destruct (Nat.eqb_spec t t'); [ congruence | reflexivity ]. }
    destruct (IH rs1 Hnd') as (rs' & Hrun & Hlen & Hend & Hkeep & Hap).
    + intros t' Ht'. destruct (Hin t' (or_intror Ht')) as [ Hlt Hpc' ].
      split; [ exact Hlt | ]. rewrite Hother; [ exact Hpc' | ].
      intros ->. exact (Hnotin Ht').
    + destruct Hap1 as (Hs & _). exact (owns_same_shape _ _ _ _ Ho Hs).
    + exists rs'. unfold serial_schedule, m in *. cbn [flat_map].
      rewrite run_schedule_app, Hrun1.
      split; [ exact Hrun | ].
      split; [ rewrite Hlen; cbn [pcs rs1]; apply replace_nth_length | ].
      split; [ | split ].
      * intros t' [ <- | Ht' ]; [ | apply Hend; exact Ht' ].
        rewrite Hkeep by exact Hnotin. cbn [pcs rs1].
        exact (nth_error_replace_nth_same _ _ _ _ Hpc).
      * intros t' Hno. rewrite Hkeep by (intros H; apply Hno; right; exact H).
        apply Hother. intros ->. apply Hno. left. reflexivity.
      * destruct Hap1 as (Hs1 & Hf1 & He1), Hap as (Hs & Hf & He).
        cbn [mem rs1] in Hs, Hf, He.
        split; [ exact (same_shape_trans _ _ _ Hs1 Hs) | split ].
        -- intros x t' j Hno. rewrite Hf by (intros H; apply Hno; right; exact H).
           apply Hf1. intros (-> & _). apply Hno. left. reflexivity.
        -- intros t' j [ <- | Ht' ] Hj.
           ++ rewrite <- He1 by exact Hj. apply element_unchanged.
              intros x. apply Hf. exact Hnotin.
           ++ rewrite He by assumption. f_equal. apply element_unchanged.
              intros x. apply Hf1. intros (-> & _). exact (Hnotin Ht').
Qed.

Lemma all_at_end (l : list pc) :
  (forall t, (t < List.length l)%nat -> nth_error l t = Some AtEnd) ->
  forallb is_end l = true.
Proof.
  intros H. apply forallb_forall. intros p Hp.
  destruct (In_nth_error _ _ Hp) as (t & Ht).
  rewrite H in Ht by (apply nth_error_Some; congruence).
  injection Ht as <-. reflexivity.
Qed.

(** X4: without interference on the shared counter a region applies its
    kernel to every element of every thread: when the threads of the team
    run their loops one after the other, in any order, the region returns
    and each [(a[t][i], b[t][i], c[t][i])] has been updated as the kernel
    says from the values it held when the region started; the buffers keep
    their lengths.  A team of one thread always runs this way. *)
Theorem region_applies_kernel order st :
  owns_buffers nthreads n st ->
  NoDup order -> (forall t, In t order <-> (t < nthreads)%nat) ->
  exists st',
    run_region (body_of r) n nthreads
      (serial_schedule order (Z.to_nat n) m) st = Some (Some st') /\
    owns_buffers nthreads n st' /\
    forall t j, (t < nthreads)%nat -> 0 <= j < n ->
      element t j st' = option_map (elementwise r) (element t j st).
Proof.
  intros Ho Hnd Hall.
  destruct (serial_runs order {| mem := st; pcs := repeat AtInit nthreads |} Hnd)
    as (rs' & Hrun & Hlen & Hend & _ & (Hs & _ & He)).
  - intros t Ht. apply Hall in Ht. split; [ exact Ht | ].
    cbn [pcs]. rewrite nth_error_repeat by exact Ht. reflexivity.
  - exact Ho.
  - exists (mem rs'). unfold run_region. rewrite Hrun.
    cbn [pcs] in Hlen. rewrite repeat_length in Hlen.
    rewrite all_at_end by (intros t Ht; apply Hend, Hall; lia).
    split; [ reflexivity | ].
    split; [ exact (owns_same_shape _ _ _ _ Ho Hs) | ].
    intros t j Ht Hj. apply He; [ apply Hall; exact Ht | exact Hj ].
Qed.

End Serial.

(** ** The first pass on eight elements and two threads *)

Ltac both_orders H :=
  destruct H as [ -> | -> ]; vm_compute; reflexivity.

Lemma init_serial sched j i0 :
  sched = serial_schedule [0%nat; 1%nat] 4 3 \/ sched = serial_schedule [1%nat; 0%nat] 4 3 ->
  run_region (body_of RInit) 4 2 sched (uniform j j j i0) = Some (Some (uniform d1 d2 d0 4)).
Proof. intros H. both_orders H. Qed.

Lemma warm_serial sched :
  sched = serial_schedule [0%nat; 1%nat] 4 1 \/ sched = serial_schedule [1%nat; 0%nat] 4 1 ->
  run_region (body_of RWarm) 4 2 sched (uniform d1 d2 d0 4) = Some (Some (uniform d2 d2 d0 4)).
Proof. intros H. both_orders H. Qed.

Lemma copy_serial sched :
  sched = serial_schedule [0%nat; 1%nat] 4 1 \/ sched = serial_schedule [1%nat; 0%nat] 4 1 ->
  run_region (body_of RCopy) 4 2 sched (uniform d2 d2 d0 4) = Some (Some (uniform d2 d2 d2 4)).
Proof. intros H. both_orders H. Qed.

Lemma scale_serial sched :
  sched = serial_schedule [0%nat; 1%nat] 4 1 \/ sched = serial_schedule [1%nat; 0%nat] 4 1 ->
  run_region (body_of RScale) 4 2 sched (uniform d2 d2 d2 4) = Some (Some (uniform d2 d6 d2 4)).
Proof. intros H. both_orders H. Qed.

Lemma add_serial sched :
  sched = serial_schedule [0%nat; 1%nat] 4 1 \/ sched = serial_schedule [1%nat; 0%nat] 4 1 ->
  run_region (body_of RAdd) 4 2 sched (uniform d2 d6 d2 4) = Some (Some (uniform d2 d6 d8 4)).
Proof. intros H. both_orders H. Qed.

Lemma triad_serial sched :
  sched = serial_schedule [0%nat; 1%nat] 4 1 \/ sched = serial_schedule [1%nat; 0%nat] 4 1 ->
  run_region (body_of RTriad) 4 2 sched (uniform d2 d6 d8 4) = Some (Some (uniform d30 d6 d8 4)).
Proof. intros H. both_orders H. Qed.

Lemma parallel_for_runs e r k n nt st st' w :
  run_region (body_of r) n nt (schedule e r k) st = Some (Some st') ->
  parallel_for e r k n nt st w = Ok st' (log (EvRegion r) w).
Proof. intros H. unfold parallel_for. rewrite H. reflexivity. Qed.

Lemma timed_runs e r k n nt st st' w :
  run_region (body_of r) n nt (schedule e r k) st = Some (Some st') ->
  exists t w', timed e r k n nt st w = Ok (t, st') w'.
Proof.
  intros H. unfold timed, bind, mysecond.
  rewrite (parallel_for_runs _ _ _ _ _ _ _ _ H). unfold ret.
  eexists _, _. reflexivity.
Qed.

Ltac step_timed r H :=
  first
    [ match goal with
      | |- context [timed ?e r ?k ?n ?nt ?st ?w] =>
          let t := fresh "t" in
          let w' := fresh "w" in
          let E := fresh "E" in
          destruct (timed_runs e r k n nt st _ w H) as (t & w' & E);
          rewrite E; cbv beta iota
      end
    | unfold bind at 1; step_timed r H ].

Ltac step_region r H :=
  first
    [ match goal with
      | |- context [parallel_for ?e r ?k ?n ?nt ?st ?w] =>
          rewrite (parallel_for_runs e r k n nt st _ w H)
      end
    | unfold bind at 1; step_region r H ].

Lemma uniform_load va vb vc i0 t i : (t < 2)%nat -> 0 <= i < 4 ->
  load ArrA t i (uniform va vb vc i0) = Some va /\
  load ArrB t i (uniform va vb vc i0) = Some vb /\
  load ArrC t i (uniform va vb vc i0) = Some vc.
Proof.
  intros Ht Hi.
  assert (Hc : i = 0 \/ i = 1 \/ i = 2 \/ i = 3) by lia.
  destruct t as [ | [ | t ] ]; [ | | lia ];
    destruct Hc as [ -> | [ -> | [ -> | -> ] ] ]; repeat split.
Qed.

(** C1, as amended: with 8 elements and 2 threads the program computes
    [array_size = 4].  When the allocations succeed, the calibration and
    the timing estimate return, and the two threads run each loop one
    after the other, the run from the start to the end of the first round
    of Copy, Scale, Add, Triad returns, and every element of every thread
    then holds A = 30.0, B = 6.0, C = 8.0: between the initialisation
    (A = 1, B = 2, C = 0) and the kernels the program doubles A (lines
    233-240), so that Copy gives C = 2, Scale B = 6, Add C = 8 and Triad
    A = 6 + 3 * 8 = 30. *)
Theorem first_pass_values (e : env) :
  omp_threads e = 2 ->
  (forall tid which, malloc_ok e tid which = true) ->
  runs_serially e ->
  timing_returns e ->
  exists ts st w,
    run_kernels e 8 1 world0 = Ok (4, ts, st) w /\
    forall t i, (t < 2)%nat -> 0 <= i < 4 ->
      load ArrA t i st = Some d30 /\
      load ArrB t i st = Some d6 /\
      load ArrC t i st = Some d8.
Proof.
  intros Hthreads Hmalloc Hserial Hcal.
  unfold run_kernels. rewrite Hthreads.
  change ((2 <? 1) || negb (in_int 2)) with false. cbv iota.
  replace (compute_array_size 8 2) with (Some 4) by (vm_compute; reflexivity).
  unfold lift_option. unfold bind at 1, ret at 1.
  change (Z.to_nat 2) with 2%nat.
  destruct (allocate_returns e 4 2 2 world0) as (w1 & Halloc & Ht1).
  unfold bind at 1. rewrite Halloc.
  assert (Hfresh : fresh_store e 4 2 2
                   = uniform (heap_junk e) (heap_junk e) (heap_junk e) 2).
  { unfold fresh_store, fresh_buffer, uniform. cbn [seq map].
    rewrite !Hmalloc. reflexivity. }
  rewrite Hfresh.
  destruct (Hcal w1 Ht1) as (q & w2 & Hq & Hest).
  unfold bind at 1. rewrite Hq.
  pose proof (Hserial RInit 0%nat) as Hi. pose proof (Hserial RWarm 0%nat) as Hw.
  pose proof (Hserial RCopy 0%nat) as Hc. pose proof (Hserial RScale 0%nat) as Hs.
  pose proof (Hserial RAdd 0%nat) as Ha. pose proof (Hserial RTriad 0%nat) as Htr.
  cbn [body_of List.length init_body] in Hi, Hw, Hc, Hs, Ha, Htr.
  unfold run_loops.
  step_region RInit (init_serial _ (heap_junk e) 2 Hi).
  unfold bind at 1. unfold mysecond at 1.
  step_region RWarm (warm_serial _ Hw).
  unfold bind at 1. unfold mysecond at 1.
  cbn [ticks log]. fold (reading e (ticks w2)) (reading e (S (ticks w2))).
  destruct (int_of_double _) as [ estimate | ]; [ | congruence ].
  unfold lift_option. unfold bind at 1. unfold ret at 1.
  cbn [iterations]. unfold iteration.
  step_timed RCopy (copy_serial _ Hc).
  step_timed RScale (scale_serial _ Hs).
  step_timed RAdd (add_serial _ Ha).
  step_timed RTriad (triad_serial _ Htr). unfold ret.
  eexists _, _, _. split; [ reflexivity | ].
  intros tid j Htid Hj. apply uniform_load; assumption.
Qed.

Lemma two_threads_timing : timing_returns two_threads.
Proof.
  intros [ tr tk ] H. cbn in H. subst tk.
  eexists _, _. split; [ vm_compute; reflexivity | vm_compute; discriminate ].
Qed.

Lemma first_pass_values_witness :
  exists ts st w,
    run_kernels two_threads 8 1 world0 = Ok (4, ts, st) w /\
    forall t i, (t < 2)%nat -> 0 <= i < 4 ->
      load ArrA t i st = Some d30 /\
      load ArrB t i st = Some d6 /\
      load ArrC t i st = Some d8.
Proof.
  apply (first_pass_values two_threads).
  - reflexivity.
  - reflexivity.
  - intros r k. left. reflexivity.
  - exact two_threads_timing.
Defined.

(** C1 as stated fails: the run on 8 elements and 2 threads ends its first
    round with A = 30.0, B = 6.0, C = 8.0, not 15.0, 3.0, 4.0. *)
Lemma first_pass_is_not_15_3_4 :
  read_args default_config ["stream"; "8"]%string = UseSize 8 /\
  exists ts st w,
    run_kernels two_threads 8 1 world0 = Ok (4, ts, st) w /\
    load ArrA 0 0 st = Some d30 /\ load ArrA 0 0 st <> Some d15 /\
    load ArrB 0 0 st = Some d6 /\ load ArrB 0 0 st <> Some d3 /\
    load ArrC 0 0 st = Some d8 /\ load ArrC 0 0 st <> Some d4.
Proof.
  split; [ reflexivity | ].
  eexists _, _, _. split; [ vm_compute; reflexivity | ].
  repeat split; discriminate.
Qed.

(** ** The shared loop counter *)

(** C2 fails on the code: the loop counter [i] is shared by the threads.
    With two threads of two elements, a legal interleaving of the Copy
    region ends at the barrier with [c[0][0]] and [c[1][1]] never written,
    each thread having run its loop to the end.  In the whole program, on
    four elements and two threads, this interleaving of the first Copy
    makes the first pass end with A = 6, B = 0, C = 2 in element 0 of
    thread 0, next to A = 30, B = 6, C = 8 in its element 1.  (Theorem
    [region_applies_kernel] is the behaviour without interference.) *)
Theorem copy_skips_elements :
  (forall w,
     parallel_for racy_threads RCopy 0 2 2 before_copy w
       = Ok after_racy_copy (log (EvRegion RCopy) w)) /\
  element 0 0 before_copy = Some (d1, d0, d0) /\
  element 0 0 after_racy_copy = Some (d1, d0, d0) /\
  element 1 1 before_copy = Some (d4, d0, d0) /\
  element 1 1 after_racy_copy = Some (d4, d0, d0) /\
  exists ts st w,
    run_kernels racy_threads 4 1 world0 = Ok (2, ts, st) w /\
    element 0 0 st = Some (d6, d0, d2) /\
    element 0 1 st = Some (d30, d6, d8).
Proof.
  split; [ intros w; reflexivity | ].
  repeat (split; [ reflexivity | ]).
  eexists _, _, _. split; [ vm_compute; reflexivity | ].
  split; reflexivity.
Qed.


(* ===================================================================== *)
(** * Reported bandwidth *)
(* ===================================================================== *)

Lemma bytes_count_exact f array_size nthreads :
  0 <= f <= 3 -> 0 <= array_size <= INT_MAX -> 1 <= nthreads <= INT_MAX ->
  24 * (array_size * nthreads) < 2 ^ 64 ->
  bytes_count f array_size nthreads
    = f * (array_size * nthreads) * sizeof_STREAM_TYPE.
Proof.
  unfold INT_MAX. intros Hf Ha Hn Hb.
  unfold bytes_count, to_ulong, sizeof_STREAM_TYPE.
  assert (Hp : array_size <= array_size * nthreads) by nia.
  assert (H64 : 2 ^ 64 = 18446744073709551616) by reflexivity.
  rewrite H64 in *.
  rewrite (Z.mod_small (f * 8)) by lia.
  rewrite (Z.mod_small array_size) by lia.
  rewrite (Z.mod_small nthreads) by lia.
  rewrite (Z.mod_small (f * 8 * array_size)) by nia.
  rewrite Z.mod_small by nia. ring.
Qed.

Lemma report_from_events array_size nthreads s w :
  report_from array_size nthreads s 0 4 w =
    Ok tt {| trace := trace w ++
               map (fun k => EvReport k (bandwidth array_size nthreads s k)
                               (avgtime s k) (mintime s k) (maxtime s k))
                   [0; 1; 2; 3]%nat;
             ticks := ticks w |}.
Proof.
  cbn [report_from]. unfold bind, emit, ret, log. cbn [trace ticks map].
  rewrite <- !app_assoc. reflexivity.
Qed.

(** C5, as amended: the bandwidth printed for kernel [k] is
    [(bytes[k] / 1024 / 1024) / mintime[k]], in binary64: mebibytes per
    second, not bytes per second.  [bytes[k]] is the conversion to
    [double] of [2 S E] for Copy and Scale and of [3 S E] for Add and
    Triad, with [S = array_size * nthreads] and [E = sizeof(STREAM_TYPE)],
    for sizes and teams that fit an [int], as long as [3 S E] does not
    wrap in [size_t]; it is exactly that integer below 2^53. *)
Theorem reported_bandwidth (array_size nthreads : Z) (s : stats) (k : nat)
  (w : world) :
  0 <= array_size <= INT_MAX -> 1 <= nthreads <= INT_MAX ->
  24 * (array_size * nthreads) < 2 ^ 64 ->
  (k < 4)%nat ->
  let S := array_size * nthreads in
  let E := sizeof_STREAM_TYPE in
  words_of k = nth k [2; 2; 3; 3] 0 /\
  bytes array_size nthreads k = double_of_Z (words_of k * S * E) /\
  (0 < S -> words_of k * S * E < 2 ^ 53 ->
     holds_integer (bytes array_size nthreads k) (words_of k * S * E)) /\
  bandwidth array_size nthreads s k =
    ddiv (ddiv (ddiv (double_of_Z (words_of k * S * E)) d1024) d1024)
         (mintime s k) /\
  In (EvReport k (bandwidth array_size nthreads s k)
        (avgtime s k) (mintime s k) (maxtime s k))
     (trace (world_of (report_from array_size nthreads s 0 4 w))).
Proof.
  intros Ha Hn Hb Hk S E.
  assert (Hw : 0 <= words_of k <= 3)
    by (destruct k as [ | [ | k ] ]; cbn; lia).
  assert (Hbytes : bytes array_size nthreads k = double_of_Z (words_of k * S * E)).
  { unfold bytes. rewrite bytes_count_exact by assumption. reflexivity. }
  split; [ destruct k as [ | [ | [ | [ | k ] ] ] ]; [ reflexivity .. | lia ] | ].
  split; [ exact Hbytes | ].
  split.
  { intros HS Hlt. rewrite Hbytes.
    assert (Hpos : 0 < words_of k * S * E).
    { unfold E, sizeof_STREAM_TYPE.
      destruct k as [ | [ | k ] ]; cbn [words_of]; lia. }
    destruct (double_of_Z_small _ (conj Hpos Hlt)) as (m & e0 & Hm & _ & He & Hv).
    exists m, e0. split; [ exact Hm | split; [ lia | exact Hv ] ]. }
  split; [ unfold bandwidth; rewrite Hbytes; reflexivity | ].
  rewrite report_from_events. cbn [world_of trace]. apply in_or_app. right.
  destruct k as [ | [ | [ | [ | k ] ] ] ]; [ .. | lia ]; cbn; tauto.
Qed.

Lemma reported_bandwidth_witness :
  bytes 4 2 0 = d128 /\
  holds_integer (bytes 4 2 0) 128 /\
  bandwidth 4 2 one_second 0 = ddiv (ddiv (ddiv d128 d1024) d1024) d1.
Proof.
  destruct (reported_bandwidth 4 2 one_second 0 world0)
    as (_ & Hb & Hi & Hbw & _); try (unfold INT_MAX; lia).
  split; [ exact Hb | split; [ apply Hi; reflexivity | exact Hbw ] ].
Defined.

(** C5 as stated fails: for two threads of four elements and a best time
    of one second Copy moves 128 bytes, so that [bytes / mintime] is 128,
    and the program prints 128 / 2^20. *)
Lemma bandwidth_is_in_mebibytes :
  bytes 4 2 0 = d128 /\
  ddiv (bytes 4 2 0) (mintime one_second 0%nat) = d128 /\
  bandwidth 4 2 one_second 0 = S754_finite false 4503599627370496 (-65) /\
  bandwidth 4 2 one_second 0 <> ddiv (bytes 4 2 0) (mintime one_second 0%nat).
Proof. vm_compute. repeat split; discriminate. Qed.

(* ===================================================================== *)
(** * Further properties of the command line *)
(* ===================================================================== *)

Lemma digits_acc_app s rest :
  starts_with_digit rest = false ->
  forall acc, digits_acc acc (s ++ rest) = digits_acc acc s.
Proof.
  intros Hrest. induction s as [ | c r IH ]; intros acc; cbn [String.append digits_acc].
  - destruct rest as [ | c r ]; [ reflexivity | ].
    cbn in *. destruct (digit_of c); [ discriminate | reflexivity ].
  - destruct (digit_of c); [ apply IH | reflexivity ].
Qed.

Lemma skip_spaces_app s rest :
  skip_spaces s <> EmptyString ->
  skip_spaces (s ++ rest) = (skip_spaces s ++ rest)%string.
Proof.
  induction s as [ | c r IH ]; cbn [String.append skip_spaces]; intros H.
  - congruence.
  - destruct (isspace c); [ apply IH; exact H | reflexivity ].
Qed.

Lemma starts_with_digit_app s rest :
  starts_with_digit s = true -> starts_with_digit (s ++ rest) = true.
Proof. destruct s; [ discriminate | intros H; exact H ]. Qed.

(** The conversion stops at the first character that is not a digit and
    the rest of the argument plays no part. *)
Lemma strtoul_app s rest :
  non_numeric s = false -> starts_with_digit rest = false ->
  strtoul (s ++ rest) = strtoul s.
Proof.
  unfold non_numeric. rewrite negb_false_iff. intros Hs Hrest.
  rewrite !strtoul_unfold. cbv zeta.
  assert (Hne : skip_spaces s <> EmptyString).
  { intros E. rewrite E in Hs. discriminate. }
  rewrite (skip_spaces_app _ _ Hne).
  destruct (skip_spaces s) as [ | c r ]; [ congruence | ].
  assert (Hafter : after_sign (String c r ++ rest) = (after_sign (String c r) ++ rest)%string).
  { cbn [String.append]. unfold after_sign.
    destruct c as [[] [] [] [] [] [] [] []]; reflexivity. }
  assert (Hminus : is_minus (String c r ++ rest) = is_minus (String c r)).
  { cbn [String.append]. unfold is_minus.
    destruct c as [[] [] [] [] [] [] [] []]; reflexivity. }
  rewrite Hafter, Hminus, (starts_with_digit_app _ _ Hs), Hs.
  rewrite (digits_acc_app _ _ Hrest). reflexivity.
Qed.

(** X16: the end pointer that [strtoul] stores back into [argv[1]] (line 131)
    is never examined: whatever follows the number in the argument is
    ignored, and the run is the run on the number alone. *)
Theorem trailing_text_is_ignored (cfg : config) (prog s rest : string) (e : env) :
  non_numeric s = false -> starts_with_digit rest = false ->
  strtoul (s ++ rest) = strtoul s /\
  read_args cfg [prog; (s ++ rest)%string] = read_args cfg [prog; s] /\
  main cfg [prog; (s ++ rest)%string] e = main cfg [prog; s] e.
Proof.
  intros Hs Hrest. pose proof (strtoul_app s rest Hs Hrest) as H.
  assert (Hr : read_args cfg [prog; (s ++ rest)%string] = read_args cfg [prog; s]).
  { rewrite !read_args_one, H. reflexivity. }
  split; [ exact H | split; [ exact Hr | ] ].
  unfold main. rewrite Hr. reflexivity.
Qed.

Lemma trailing_text_is_ignored_witness :
  strtoul "1e6" = strtoul "1" /\
  read_args default_config ["stream"; "1e6"]%string
    = read_args default_config ["stream"; "1"]%string /\
  main default_config ["stream"; "1e6"]%string two_threads
    = main default_config ["stream"; "1"]%string two_threads.
Proof.
  exact (trailing_text_is_ignored default_config "stream" "1" "e6" two_threads
           eq_refl eq_refl).
Defined.

(** X17: [main] returns -1 exactly when it prints the error message, which is
    exactly when it is given one argument that [strtoul] converts to 0;
    the message is then all that the run does. *)
Theorem error_path_is_one_zero_argument (cfg : config) (argv : list string) (e : env) :
  let one_zero := exists prog s, argv = [prog; s] /\ strtoul s = 0 in
  (fst (main cfg argv e) = Returned (-1) <-> one_zero) /\
  ((exists msg, In (EvError msg) (snd (main cfg argv e))) <-> one_zero) /\
  (one_zero -> main cfg argv e = (Returned (-1), [EvError error_message])).
Proof.
  intros one_zero.
  assert (Hback : one_zero -> main cfg argv e = (Returned (-1), [EvError error_message])).
  { intros (prog & s & -> & H0). apply main_invalid.
    rewrite read_args_one, H0. reflexivity. }
  split; [ | split; [ | exact Hback ] ]; split.
  - intros H. apply main_returns_minus_one in H. exact (read_args_invalid cfg _ H).
  - intros H. rewrite (Hback H). reflexivity.
  - intros (msg & H). apply error_printed_only_for_invalid_input in H.
    exact (read_args_invalid cfg _ H).
  - intros H. rewrite (Hback H). exists error_message. left. reflexivity.
Qed.

(* ===================================================================== *)
(** * The order of a run and what the timings measure *)
(* ===================================================================== *)

Lemma bind_ok {A B} (m : Prog A) (f : A -> Prog B) w y w' :
  bind m f w = Ok y w' -> exists x w1, m w = Ok x w1 /\ f x w1 = Ok y w'.
Proof.
  unfold bind. destruct (m w) as [ x w1 | w1 | w1 ]; [ | discriminate | discriminate ].
  intros H. exists x, w1. split; [ reflexivity | exact H ].
Qed.

Lemma ret_ok {A} (x y : A) w w' : ret x w = Ok y w' -> x = y /\ w = w'.
Proof. unfold ret. intros [= -> ->]. split; reflexivity. Qed.

Lemma mysecond_ok e w t w' :
  mysecond e w = Ok t w' ->
  t = reading e (ticks w) /\ trace w' = trace w ++ [EvClock] /\
  ticks w' = S (ticks w).
Proof. unfold mysecond, reading. intros [= <- <-]. repeat split. Qed.

Lemma parallel_for_ok e r k n nt st w st' w' :
  parallel_for e r k n nt st w = Ok st' w' ->
  run_region (body_of r) n nt (schedule e r k) st = Some (Some st') /\
  trace w' = trace w ++ [EvRegion r] /\ ticks w' = ticks w.
Proof.
  unfold parallel_for.
  destruct (run_region _ _ _ _ _) as [ [ st1 | ] | ]; [ | discriminate | discriminate ].
  intros [= <- <-]. repeat split.
Qed.

(** One timed kernel: the time is the difference of the readings taken
    just before and just after the region. *)
Lemma timed_ok e r k n nt st w t st' w' :
  timed e r k n nt st w = Ok (t, st') w' ->
  t = dsub (reading e (S (ticks w))) (reading e (ticks w)) /\
  run_region (body_of r) n nt (schedule e r k) st = Some (Some st') /\
  trace w' = trace w ++ kernel_events r /\
  ticks w' = S (S (ticks w)).
Proof.
  unfold timed. intros H.
  apply bind_ok in H. destruct H as (t0 & w1 & H0 & H).
  apply bind_ok in H. destruct H as (st1 & w2 & H1 & H).
  apply bind_ok in H. destruct H as (t1 & w3 & H2 & H).
  apply ret_ok in H. destruct H as [ [= <- <-] <- ].
  apply mysecond_ok in H0. destruct H0 as (-> & Htr0 & Htk0).
  apply parallel_for_ok in H1. destruct H1 as (Hrun & Htr1 & Htk1).
  apply mysecond_ok in H2. destruct H2 as (-> & Htr2 & Htk2).
  rewrite Htk1, Htk0. split; [ reflexivity | split; [ exact Hrun | split ] ].
  - rewrite Htr2, Htr1, Htr0, <- !app_assoc. reflexivity.
  - rewrite Htk2, Htk1, Htk0. reflexivity.
Qed.

Lemma set_entry_same ts j k v : set_entry ts j k v j k = v.
Proof. unfold set_entry. rewrite !Nat.eqb_refl. reflexivity. Qed.

Lemma set_entry_other ts j k v j' k' :
  j <> j' \/ k <> k' -> set_entry ts j k v j' k' = ts j' k'.
Proof.
  unfold set_entry. intros H.
  destruct (Nat.eqb_spec j j'), (Nat.eqb_spec k k'); cbn; try reflexivity.
  destruct H; contradiction.
Qed.

Lemma iteration_ok e n nt k ts st w ts' st' w' :
  iteration e n nt k ts st w = Ok (ts', st') w' ->
  trace w' = trace w ++ iteration_events /\
  ticks w' = (8 + ticks w)%nat /\
  (forall j, (j < 4)%nat ->
     ts' j k = dsub (reading e (ticks w + 2 * j + 1)) (reading e (ticks w + 2 * j))) /\
  (forall j k', k' <> k -> ts' j k' = ts j k') /\
  (forall j k', (4 <= j)%nat -> ts' j k' = ts j k').
Proof.
  unfold iteration. intros H.
  apply bind_ok in H. destruct H as ([ t0 st0 ] & w0 & H0 & H).
  apply bind_ok in H. destruct H as ([ t1 st1 ] & w1 & H1 & H).
  apply bind_ok in H. destruct H as ([ t2 st2 ] & w2 & H2 & H).
  apply bind_ok in H. destruct H as ([ t3 st3 ] & w3 & H3 & H).
  apply ret_ok in H. destruct H as [ [= <- <-] <- ].
  apply timed_ok in H0, H1, H2, H3.
  destruct H0 as (-> & _ & Htr0 & Htk0), H1 as (-> & _ & Htr1 & Htk1),
           H2 as (-> & _ & Htr2 & Htk2), H3 as (-> & _ & Htr3 & Htk3).
  split; [ | split; [ | split; [ | split ] ] ].
  - rewrite Htr3, Htr2, Htr1, Htr0. unfold iteration_events. cbn [flat_map].
    rewrite <- !app_assoc. reflexivity.
  - lia.
  - intros j Hj. rewrite Htk2, Htk1, Htk0.
    destruct j as [ | [ | [ | [ | j ] ] ] ]; [ .. | lia ].
    + rewrite !set_entry_other by (left; discriminate). rewrite set_entry_same.
      f_equal; f_equal; lia.
    + rewrite !set_entry_other by (left; discriminate). rewrite set_entry_same.
      f_equal; f_equal; lia.
    + rewrite !set_entry_other by (left; discriminate). rewrite set_entry_same.
      f_equal; f_equal; lia.
    + rewrite set_entry_same. f_equal; f_equal; lia.
  - intros j k' Hk. rewrite !set_entry_other by (right; congruence). reflexivity.
  - intros j k' Hj. rewrite !set_entry_other by (left; lia). reflexivity.
Qed.

Lemma concat_repeat_S {A} (l : list A) n :
  List.concat (repeat l (S n)) = l ++ List.concat (repeat l n).
Proof. reflexivity. Qed.

Lemma iterations_ok e n nt count : forall k0 ts st w ts' st' w',
  iterations e n nt k0 count ts st w = Ok (ts', st') w' ->
  trace w' = trace w ++ List.concat (repeat iteration_events count) /\
  ticks w' = (8 * count + ticks w)%nat /\
  (forall j k, (j < 4)%nat -> (k0 <= k < k0 + count)%nat ->
     ts' j k = dsub (reading e (ticks w + 8 * (k - k0) + 2 * j + 1))
                    (reading e (ticks w + 8 * (k - k0) + 2 * j))) /\
  (forall j k, ~ ((j < 4)%nat /\ (k0 <= k < k0 + count)%nat) -> ts' j k = ts j k).
Proof.
  induction count as [ | count IH ]; intros k0 ts st w ts' st' w' H.
  - cbn [iterations] in H. apply ret_ok in H. destruct H as [ [= <- <-] <- ].
    split; [ cbn; rewrite app_nil_r; reflexivity | split; [ lia | split ] ].
    + intros j k _ Hk. lia.
    + reflexivity.
  - cbn [iterations] in H.
    apply bind_ok in H. destruct H as ([ ts1 st1 ] & w1 & H1 & H).
    apply iteration_ok in H1. destruct H1 as (Htr1 & Htk1 & Hin1 & Hk1 & Hj1).
    apply IH in H. destruct H as (Htr & Htk & Hin & Hout).
    split; [ | split; [ | split ] ].
    + rewrite Htr, Htr1, concat_repeat_S, <- app_assoc. reflexivity.
    + lia.
    + intros j k Hj Hk. destruct (Nat.eq_dec k k0) as [ -> | Hne ].
      * rewrite Hout by lia. rewrite Hin1 by exact Hj.
        f_equal; f_equal; lia.
      * rewrite Hin by lia. rewrite Htk1. f_equal; f_equal; lia.
    + intros j k Hno. rewrite Hout by lia.
      destruct (Nat.eq_dec k k0) as [ -> | Hne ].
      * apply Hj1. lia.
      * apply Hk1. exact Hne.
Qed.

(** X9: every entry of [times] that the loop of lines 257-294 writes is the
    difference of the two readings of the clock that bracket one region:
    kernel [j] of iteration [k] runs between the readings [8 k + 2 j] and
    [8 k + 2 j + 1] counted from the start of the loop.  The loop reads
    the clock eight times per iteration and leaves the other entries of
    the table as they were. *)
Theorem times_are_bracketing_readings (e : env) (n : Z) (nthreads iters : nat)
  (ts : table) (st : store) (w : world) (ts' : table) (st' : store) (w' : world) :
  iterations e n nthreads 0 iters ts st w = Ok (ts', st') w' ->
  ticks w' = (ticks w + 8 * iters)%nat /\
  (forall j k, (j < 4)%nat -> (k < iters)%nat ->
     ts' j k = dsub (reading e (ticks w + 8 * k + 2 * j + 1))
                    (reading e (ticks w + 8 * k + 2 * j))) /\
  (forall j k, ~ ((j < 4)%nat /\ (k < iters)%nat) -> ts' j k = ts j k).
Proof.
  intros H. apply iterations_ok in H. destruct H as (_ & Htk & Hin & Hout).
  split; [ lia | split ].
  - intros j k Hj Hk. rewrite Hin by lia. f_equal; f_equal; lia.
  - intros j k Hno. apply Hout. lia.
Qed.

Lemma allocate_from_trace e n count : forall tid w la lb lc w',
  allocate_from e n tid count w = Ok (la, lb, lc) w' ->
  trace w' = trace w ++
    flat_map (fun tid =>
                map (fun which => EvMalloc tid which (malloc_bytes n)
                                           (malloc_ok e tid which))
                    [0; 1; 2]%nat)
             (seq tid count) /\
  ticks w' = ticks w.
Proof.
  induction count as [ | count IH ]; intros tid w la lb lc w' H.
  - cbn [allocate_from] in H. apply ret_ok in H. destruct H as [ _ <- ].
    cbn. rewrite app_nil_r. split; reflexivity.
  - cbn [allocate_from] in H.
    apply bind_ok in H. destruct H as (pa & w1 & Ha & H).
    apply bind_ok in H. destruct H as (pb & w2 & Hb & H).
    apply bind_ok in H. destruct H as (pc & w3 & Hc & H).
    apply bind_ok in H. destruct H as ([ [ la' lb' ] lc' ] & w4 & Hrest & H).
    apply ret_ok in H. destruct H as [ _ <- ].
    apply IH in Hrest. destruct Hrest as (Htr & Htk).
    unfold malloc in Ha, Hb, Hc.
    injection Ha as _ <-. injection Hb as _ <-. injection Hc as _ <-.
    split; [ | exact Htk ].
    rewrite Htr. cbn [seq flat_map map log trace]. rewrite <- !app_assoc. reflexivity.
Qed.

Lemma allocate_ok e n nt i0 w st w' :
  allocate e n nt i0 w = Ok st w' ->
  st = fresh_store e n nt i0 /\
  trace w' = trace w ++ alloc_events e n nt /\ ticks w' = ticks w.
Proof.
  intros H. destruct (allocate_returns e n nt i0 w) as (w1 & Hrun & _).
  rewrite Hrun in H. injection H as <- <-.
  split; [ reflexivity | ].
  unfold allocate in Hrun.
  apply bind_ok in Hrun. destruct Hrun as ([ [ la lb ] lc ] & w2 & Hfrom & Hret).
  apply ret_ok in Hret. destruct Hret as [ _ <- ].
  exact (allocate_from_trace _ _ _ _ _ _ _ _ _ Hfrom).
Qed.

(** A busy wait reads the clock at least once and does nothing else. *)
Lemma spin_ok e fuel : forall t1 w t w',
  spin e fuel t1 w = Ok t w' ->
  exists c, (1 <= c)%nat /\ ticks w' = (ticks w + c)%nat /\
            trace w' = trace w ++ repeat EvClock c.
Proof.
  induction fuel as [ | fuel IH ]; intros t1 w t w' H; [ discriminate | ].
  cbn [spin] in H. apply bind_ok in H. destruct H as (t2 & w1 & H2 & H).
  apply mysecond_ok in H2. destruct H2 as (_ & Htr & Htk).
  destruct (dlt (dsub t2 t1) d1em6).
  - apply IH in H. destruct H as (c & Hc & Htk' & Htr').
    exists (S c). split; [ lia | split; [ lia | ] ].
    rewrite Htr', Htr, <- app_assoc. reflexivity.
  - apply ret_ok in H. destruct H as [ _ <- ].
    exists 1%nat. split; [ lia | split; [ lia | exact Htr ] ].
Qed.

Lemma collect_ticks_ok e fuel m : forall w tf w',
  collect_ticks e fuel m w = Ok tf w' ->
  exists c, (2 * m <= c)%nat /\ ticks w' = (ticks w + c)%nat /\
            trace w' = trace w ++ repeat EvClock c.
Proof.
  induction m as [ | m IH ]; intros w tf w' H.
  - cbn [collect_ticks] in H. apply ret_ok in H. destruct H as [ _ <- ].
    exists 0%nat. cbn. rewrite app_nil_r. repeat split; lia.
  - cbn [collect_ticks] in H.
    apply bind_ok in H. destruct H as (t1 & w1 & H1 & H).
    apply bind_ok in H. destruct H as (t2 & w2 & H2 & H).
    apply bind_ok in H. destruct H as (rest & w3 & H3 & H).
    apply ret_ok in H. destruct H as [ _ <- ].
    apply mysecond_ok in H1. destruct H1 as (_ & Htr1 & Htk1).
    apply spin_ok in H2. destruct H2 as (c2 & Hc2 & Htk2 & Htr2).
    apply IH in H3. destruct H3 as (c3 & Hc3 & Htk3 & Htr3).
    exists (1 + c2 + c3)%nat. split; [ lia | split; [ lia | ] ].
    rewrite Htr3, Htr2, Htr1, <- !app_assoc, !repeat_app. reflexivity.
Qed.

Lemma checktick_ok e fuel w q w' :
  checktick e fuel w = Ok q w' ->
  exists c, (40 <= c)%nat /\ ticks w' = (ticks w + c)%nat /\
            trace w' = trace w ++ repeat EvClock c.
Proof.
  unfold checktick. intros H.
  apply bind_ok in H. destruct H as (tf & w1 & H1 & H).
  apply collect_ticks_ok in H1. destruct H1 as (c & Hc & Htk & Htr).
  destruct (granularity tf); [ | discriminate ].
  apply ret_ok in H. destruct H as [ _ <- ].
  exists c. unfold M in Hc. split; [ lia | split; assumption ].
Qed.

Lemma run_loops_ok e n nt iters st w ts st' w' :
  run_loops e n nt iters st w = Ok (ts, st') w' ->
  trace w' = trace w ++ loops_events iters /\
  ticks w' = (ticks w + 2 + 8 * iters)%nat.
Proof.
  unfold run_loops. intros H.
  apply bind_ok in H. destruct H as (st1 & w1 & H1 & H).
  apply bind_ok in H. destruct H as (t & w2 & H2 & H).
  apply bind_ok in H. destruct H as (st3 & w3 & H3 & H).
  apply bind_ok in H. destruct H as (t' & w4 & H4 & H).
  apply bind_ok in H. destruct H as (estimate & w5 & H5 & H).
  apply parallel_for_ok in H1, H3.
  destruct H1 as (_ & Htr1 & Htk1), H3 as (_ & Htr3 & Htk3).
  apply mysecond_ok in H2, H4.
  destruct H2 as (_ & Htr2 & Htk2), H4 as (_ & Htr4 & Htk4).
  destruct (int_of_double _); [ | discriminate ].
  apply ret_ok in H5. destruct H5 as [ _ <- ].
  apply iterations_ok in H. destruct H as (Htr & Htk & _).
  split; [ | lia ].
  rewrite Htr, Htr4, Htr3, Htr2, Htr1. unfold loops_events.
  rewrite <- !app_assoc. reflexivity.
Qed.

Lemma run_kernels_trace e total iters n ts st w :
  run_kernels e total iters world0 = Ok (n, ts, st) w ->
  compute_array_size total (omp_threads e) = Some n /\
  exists c,
    (40 <= c)%nat /\
    trace w = alloc_events e n (Z.to_nat (omp_threads e))
              ++ repeat EvClock c ++ loops_events iters /\
    ticks w = (c + 2 + 8 * iters)%nat.
Proof.
  unfold run_kernels. intros Hk.
  destruct ((omp_threads e <? 1) || negb (in_int (omp_threads e))); [ discriminate | ].
  apply bind_ok in Hk. destruct Hk as (sz & w3 & Hsz & Hk).
  destruct (compute_array_size total (omp_threads e)) as [ sz' | ] eqn:Esz;
    [ | discriminate ].
  apply ret_ok in Hsz. destruct Hsz as [ -> <- ].
  apply bind_ok in Hk. destruct Hk as (st0 & w4 & Hal & Hk).
  apply bind_ok in Hk. destruct Hk as (quantum & w5 & Hq & Hk).
  apply bind_ok in Hk. destruct Hk as ([ ts1 st1 ] & w6 & Hl & Hk).
  apply ret_ok in Hk. destruct Hk as [ [= <- <- <-] <- ].
  apply allocate_ok in Hal. destruct Hal as (_ & Htr4 & Htk4).
  apply checktick_ok in Hq. destruct Hq as (c & Hc & Htk5 & Htr5).
  apply run_loops_ok in Hl. destruct Hl as (Htr6 & Htk6).
  split; [ reflexivity | ]. exists c. split; [ exact Hc | split ].
  - rewrite Htr6, Htr5, Htr4. cbn [trace world0 app].
    rewrite <- !app_assoc. reflexivity.
  - rewrite Htk6, Htk5, Htk4. cbn [ticks world0]. lia.
Qed.

(** X8: a run that reaches the report has, in this order: allocated the three
    buffers of each thread; read the clock at least forty times to
    calibrate it (twice or more for each of the 20 ticks); run the
    initialisation and the doubling pass; run Copy, Scale, Add and Triad,
    in this order and each between two readings of the clock, [NTIMES]
    times; and printed the four rows of the report.  Nothing else is
    recorded. *)
Theorem run_is_ordered (cfg : config) (e : env) (stream_array_size : Z)
  (s : stats) (w : world) :
  benchmark cfg e stream_array_size world0 = Ok s w ->
  exists array_size c,
    compute_array_size stream_array_size (omp_threads e) = Some array_size /\
    (40 <= c)%nat /\
    trace w = alloc_events e array_size (Z.to_nat (omp_threads e))
              ++ repeat EvClock c
              ++ loops_events (Z.to_nat (NTIMES cfg))
              ++ report_events array_size (omp_threads e) s /\
    ticks w = (c + 2 + 8 * Z.to_nat (NTIMES cfg))%nat.
Proof.
  unfold benchmark. intros H.
  apply bind_ok in H. destruct H as ([ [ array_size ts ] st ] & w1 & Hk & H).
  apply bind_ok in H. destruct H as ([] & w2 & Hrep & H).
  apply ret_ok in H. destruct H as [ <- <- ].
  rewrite report_from_events in Hrep. injection Hrep as <-.
  apply run_kernels_trace in Hk. destruct Hk as (Hsz & c & Hc & Htr & Htk).
  exists array_size, c.
  split; [ exact Hsz | split; [ exact Hc | split ] ].
  - cbn [trace]. rewrite Htr. unfold report_events.
    rewrite <- !app_assoc. reflexivity.
  - cbn [ticks]. exact Htk.
Qed.

Lemma two_threads_benchmark :
  exists s w, benchmark default_config two_threads 8 world0 = Ok s w.
Proof. eexists _, _. vm_compute. reflexivity. Qed.

Lemma run_is_ordered_witness :
  exists s w,
    benchmark default_config two_threads 8 world0 = Ok s w /\
    exists array_size c,
      compute_array_size 8 (omp_threads two_threads) = Some array_size /\
      (40 <= c)%nat /\
      trace w = alloc_events two_threads array_size (Z.to_nat (omp_threads two_threads))
                ++ repeat EvClock c
                ++ loops_events (Z.to_nat (NTIMES default_config))
                ++ report_events array_size (omp_threads two_threads) s /\
      ticks w = (c + 2 + 8 * Z.to_nat (NTIMES default_config))%nat.
Proof.
  destruct two_threads_benchmark as (s & w & H).
  exists s, w. split; [ exact H | ].
  exact (run_is_ordered default_config two_threads 8 s w H).
Defined.

Lemma two_threads_iterations :
  exists ts' st' w',
    iterations two_threads 4 2 0 2 (junk_table two_threads) (uniform d2 d2 d0 4) world0
      = Ok (ts', st') w'.
Proof. eexists _, _, _. vm_compute. reflexivity. Qed.

Lemma times_are_bracketing_readings_witness :
  exists ts' st' w',
    iterations two_threads 4 2 0 2 (junk_table two_threads) (uniform d2 d2 d0 4) world0
      = Ok (ts', st') w' /\
    ticks w' = (ticks world0 + 8 * 2)%nat /\
    (forall j k, (j < 4)%nat -> (k < 2)%nat ->
       ts' j k = dsub (reading two_threads (ticks world0 + 8 * k + 2 * j + 1))
                      (reading two_threads (ticks world0 + 8 * k + 2 * j))) /\
    (forall j k, ~ ((j < 4)%nat /\ (k < 2)%nat) -> ts' j k = junk_table two_threads j k).
Proof.
  destruct two_threads_iterations as (ts' & st' & w' & H).
  exists ts', st', w'. split; [ exact H | ].
  exact (times_are_bracketing_readings two_threads 4 2 2 _ _ _ _ _ _ H).
Defined.

(* ===================================================================== *)
(** * Further properties of the calibration *)
(* ===================================================================== *)

Lemma checktick_range e fuel w q w' :
  checktick e fuel w = Ok q w' -> 0 <= q <= 1000000.
Proof.
  unfold checktick. intros H.
  apply bind_ok in H. destruct H as (tf & w1 & _ & H).
  rewrite granularity_spec in H.
  destruct (deltas tf) as [ ds | ]; [ | discriminate ].
  apply ret_ok in H. destruct H as [ <- _ ]. apply capped_minimum_range.
Qed.

(** X13: what [main] does with the result of [checktick] is safe: the result
    lies between 0 and 1000000, so that [quantum] lies between 1 and
    1000000 after the test of line 205 and the product [quantum*100] of
    line 246 fits an [int]; the message "less than one microsecond" is the
    one printed exactly when the result is 0. *)
Theorem advised_minimum_fits (e : env) (fuel : nat) (w : world) (q : Z) (w' : world) :
  checktick e fuel w = Ok q w' ->
  0 <= q <= 1000000 /\
  1 <= quantum_of q <= 1000000 /\
  advised_minimum (quantum_of q) = Some (100 * quantum_of q) /\
  (quantum_message q = LessThanOne <-> q = 0) /\
  (1 <= q -> quantum_message q = Microseconds q /\ quantum_of q = q).
Proof.
  intros H. apply checktick_range in H.
  assert (Hq : 1 <= quantum_of q <= 1000000).
  { unfold quantum_of. destruct (q >=? 1) eqn:E; [ | lia ].
    rewrite Z.geb_leb in E. apply Z.leb_le in E. lia. }
  split; [ exact H | split; [ exact Hq | split; [ | split ] ] ].
  - unfold advised_minimum. cbv zeta.
    replace (in_int (quantum_of q * 100)) with true; [ f_equal; lia | ].
    symmetry. unfold in_int, INT_MIN, INT_MAX. apply andb_true_iff.
    split; apply Z.leb_le; lia.
  - unfold quantum_message. destruct (q >=? 1) eqn:E; rewrite Z.geb_leb in E.
    + apply Z.leb_le in E. split; [ discriminate | lia ].
    + apply Z.leb_gt in E. split; [ lia | reflexivity ].
  - intros H1. unfold quantum_message, quantum_of.
    replace (q >=? 1) with true; [ split; reflexivity | ].
    symmetry. rewrite Z.geb_leb. apply Z.leb_le. exact H1.
Qed.

Lemma advised_minimum_fits_witness :
  exists w',
    checktick slow_clock 1 world0 = Ok 1000000 w' /\
    0 <= 1000000 <= 1000000 /\
    1 <= quantum_of 1000000 <= 1000000 /\
    advised_minimum (quantum_of 1000000) = Some (100 * quantum_of 1000000) /\
    (quantum_message 1000000 = LessThanOne <-> 1000000 = 0) /\
    (1 <= 1000000 ->
       quantum_message 1000000 = Microseconds 1000000 /\ quantum_of 1000000 = 1000000).
Proof.
  assert (H : exists w', checktick slow_clock 1 world0 = Ok 1000000 w').
  { eexists. vm_compute. reflexivity. }
  destruct H as (w' & H). exists w'. split; [ exact H | ].
  exact (advised_minimum_fits slow_clock 1 world0 1000000 w' H).
Defined.

(** ** A clock that does not advance *)

Lemma spin_stuck e t1 fuel : forall w,
  (forall m, (ticks w <= m)%nat -> dlt (dsub (reading e m) t1) d1em6 = true) ->
  spin e fuel t1 w =
    Stuck {| trace := trace w ++ repeat EvClock fuel; ticks := (ticks w + fuel)%nat |}.
Proof.
  induction fuel as [ | fuel IH ]; intros w Hw.
  - cbn. rewrite app_nil_r, Nat.add_0_r. destruct w; reflexivity.
  - cbn [spin]. unfold bind, mysecond. fold (reading e (ticks w)).
    rewrite (Hw (ticks w)) by lia.
    rewrite IH by (intros m Hm; apply Hw; cbn [ticks] in Hm; lia).
    cbn [trace ticks]. rewrite <- app_assoc. f_equal. f_equal. lia.
Qed.

Lemma first_round_stuck e fuel m w :
  (forall j, (ticks w < j)%nat ->
     dlt (dsub (reading e j) (reading e (ticks w))) d1em6 = true) ->
  bind (collect_ticks e fuel (S m)) (fun tf => lift_option (granularity tf)) w =
    Stuck {| trace := trace w ++ repeat EvClock (S fuel); ticks := S (ticks w + fuel) |}.
Proof.
  intros Hw. cbn [collect_ticks]. unfold bind at 1 2. unfold mysecond at 1.
  fold (reading e (ticks w)). cbv beta iota. unfold bind at 1.
  rewrite spin_stuck.
  - cbn [trace ticks repeat]. rewrite <- app_assoc. reflexivity.
  - intros j Hj. cbn [ticks] in Hj. apply Hw. lia.
Qed.

(** X14: the busy wait of line 351 has no other exit than the clock: when no
    reading after the first is found a microsecond later than it, the
    calibration does not return.  Whatever bound is put on the busy wait,
    [checktick] is still in its first round when the bound is reached,
    having done nothing but read the clock, and [main] does not get past
    the calibration. *)
Theorem calibration_needs_an_advancing_clock (cfg : config) (argv : list string)
  (e : env) (n array_size : Z) :
  (forall m, (0 < m)%nat -> apart e 0 m = false) ->
  (forall fuel w, ticks w = 0%nat ->
     checktick e fuel w =
       Stuck {| trace := trace w ++ repeat EvClock (S fuel); ticks := S fuel |}) /\
  (read_args cfg argv = UseSize n ->
   1 <= omp_threads e <= INT_MAX ->
   compute_array_size n (omp_threads e) = Some array_size ->
   main cfg argv e =
     (Hung, alloc_events e array_size (Z.to_nat (omp_threads e))
            ++ repeat EvClock (S (spin_fuel e)))).
Proof.
  intros Hfrozen.
  assert (Hcheck : forall fuel w, ticks w = 0%nat ->
     checktick e fuel w =
       Stuck {| trace := trace w ++ repeat EvClock (S fuel); ticks := S fuel |}).
  { intros fuel w Hw. unfold checktick. change M with (S 19).
    rewrite (first_round_stuck e fuel 19 w).
    - rewrite Hw. reflexivity.
    - intros m Hm. rewrite Hw in *.
      specialize (Hfrozen m ltac:(lia)). unfold apart in Hfrozen.
      apply negb_false_iff in Hfrozen. exact Hfrozen. }
  split; [ exact Hcheck | ].
  intros Hargs Ht Hsz. unfold main. rewrite Hargs.
  unfold benchmark, run_kernels.
  replace ((omp_threads e <? 1) || negb (in_int (omp_threads e))) with false.
  - rewrite Hsz. unfold lift_option. unfold bind at 1 2, ret at 1.
    destruct (allocate_returns e array_size (Z.to_nat (omp_threads e)) (omp_threads e) world0)
      as (w1 & Hrun & Ht1).
    pose proof (allocate_ok _ _ _ _ _ _ _ Hrun) as (_ & Htr & _).
    unfold bind at 1. rewrite Hrun.
    unfold bind at 1. rewrite (Hcheck _ _ Ht1).
    cbn [trace]. rewrite Htr. reflexivity.
  - symmetry. apply orb_false_iff. split; [ apply Z.ltb_ge; lia | ].
    apply negb_false_iff. unfold in_int. apply andb_true_iff.
    split; apply Z.leb_le; unfold INT_MIN; lia.
Qed.

Lemma calibration_needs_an_advancing_clock_witness :
  (forall m, (0 < m)%nat -> apart frozen_clock 0 m = false) /\
  (forall fuel w, ticks w = 0%nat ->
     checktick frozen_clock fuel w =
       Stuck {| trace := trace w ++ repeat EvClock (S fuel); ticks := S fuel |}) /\
  main default_config ["stream"; "8"]%string frozen_clock =
    (Hung, alloc_events frozen_clock 4 2 ++ repeat EvClock 1001).
Proof.
  assert (H : forall m, (0 < m)%nat -> apart frozen_clock 0 m = false).
  { intros m _. vm_compute. reflexivity. }
  destruct (calibration_needs_an_advancing_clock default_config
              ["stream"; "8"]%string frozen_clock 8 4 H) as [ H1 H2 ].
  split; [ exact H | split; [ exact H1 | ] ].
  apply H2; [ reflexivity | cbn; unfold INT_MAX; lia | vm_compute; reflexivity ].
Defined.

(* ===================================================================== *)
(** * The values of a whole run *)
(* ===================================================================== *)

Section SerialRun.

Variables (e : env) (nthreads : nat) (n : Z).
Hypothesis n_int : 0 <= n <= INT_MAX.
Hypothesis serial : serial_env e nthreads n.

Lemma serial_region r k st :
  owns_buffers nthreads n st ->
  exists st',
    run_region (body_of r) n nthreads (schedule e r k) st = Some (Some st') /\
    owns_buffers nthreads n st' /\
    forall t j, (t < nthreads)%nat -> 0 <= j < n ->
      element t j st' = option_map (elementwise r) (element t j st).
Proof.
  intros Ho. destruct (serial r k) as (order & Hnd & Hall & ->).
  destruct (serial_runs r nthreads n n_int order
              {| mem := st; pcs := repeat AtInit nthreads |} Hnd)
    as (rs' & Hrun & Hlen & Hend & _ & (Hs & _ & He)).
  - intros t Ht. apply Hall in Ht. split; [ exact Ht | ].
    cbn [pcs]. rewrite nth_error_repeat by exact Ht. reflexivity.
  - exact Ho.
  - exists (mem rs'). unfold run_region. rewrite Hrun.
    cbn [pcs] in Hlen. rewrite repeat_length in Hlen.
    rewrite all_at_end by (intros t Ht; apply Hend, Hall; lia).
    split; [ reflexivity | ].
    split; [ exact (owns_same_shape _ _ _ _ Ho Hs) | ].
    intros t j Ht Hj. apply He; [ apply Hall; exact Ht | exact Hj ].
Qed.

Lemma serial_region_all r k st v :
  owns_buffers nthreads n st -> all_elements nthreads n st v ->
  exists st',
    run_region (body_of r) n nthreads (schedule e r k) st = Some (Some st') /\
    owns_buffers nthreads n st' /\
    all_elements nthreads n st' (elementwise r v).
Proof.
  intros Ho Hv. destruct (serial_region r k st Ho) as (st' & Hrun & Ho' & He).
  exists st'. split; [ exact Hrun | split; [ exact Ho' | ] ].
  intros t j Ht Hj. rewrite He, Hv by assumption. reflexivity.
Qed.

Lemma timed_serial r k st v w :
  owns_buffers nthreads n st -> all_elements nthreads n st v ->
  exists t st' w',
    timed e r k n nthreads st w = Ok (t, st') w' /\
    owns_buffers nthreads n st' /\
    all_elements nthreads n st' (elementwise r v).
Proof.
  intros Ho Hv. destruct (serial_region_all r k st v Ho Hv) as (st' & Hrun & Ho' & Hv').
  destruct (timed_runs e r k n nthreads st st' w Hrun) as (t & w' & E).
  exists t, st', w'. split; [ exact E | split; assumption ].
Qed.

Lemma iteration_serial k ts st v w :
  owns_buffers nthreads n st -> all_elements nthreads n st v ->
  exists ts' st' w',
    iteration e n nthreads k ts st w = Ok (ts', st') w' /\
    owns_buffers nthreads n st' /\
    all_elements nthreads n st' (kernel_pass v).
Proof.
  intros Ho Hv. unfold iteration.
  destruct (timed_serial RCopy k st v w Ho Hv) as (t0 & st0 & w0 & E0 & Ho0 & Hv0).
  destruct (timed_serial RScale k st0 _ w0 Ho0 Hv0) as (t1 & st1 & w1 & E1 & Ho1 & Hv1).
  destruct (timed_serial RAdd k st1 _ w1 Ho1 Hv1) as (t2 & st2 & w2 & E2 & Ho2 & Hv2).
  destruct (timed_serial RTriad k st2 _ w2 Ho2 Hv2) as (t3 & st3 & w3 & E3 & Ho3 & Hv3).
  unfold bind at 1. rewrite E0. cbv beta iota.
  unfold bind at 1. rewrite E1. cbv beta iota.
  unfold bind at 1. rewrite E2. cbv beta iota.
  unfold bind at 1. rewrite E3. cbv beta iota.
  eexists _, st3, w3. split; [ reflexivity | split; [ exact Ho3 | exact Hv3 ] ].
Qed.

Lemma iterations_serial count : forall k0 ts st v w,
  owns_buffers nthreads n st -> all_elements nthreads n st v ->
  exists ts' st' w',
    iterations e n nthreads k0 count ts st w = Ok (ts', st') w' /\
    owns_buffers nthreads n st' /\
    all_elements nthreads n st' (Nat.iter count kernel_pass v).
Proof.
  induction count as [ | count IH ]; intros k0 ts st v w Ho Hv.
  - exists ts, st, w. split; [ reflexivity | split; assumption ].
  - destruct (iteration_serial k0 ts st v w Ho Hv) as (ts1 & st1 & w1 & E1 & Ho1 & Hv1).
    destruct (IH (S k0) ts1 st1 _ w1 Ho1 Hv1) as (ts' & st' & w' & E & Ho' & Hv').
    exists ts', st', w'. cbn [iterations]. unfold bind. rewrite E1.
    split; [ exact E | split; [ exact Ho' | ] ].
    rewrite Nat.iter_succ_r. exact Hv'.
Qed.

Lemma owns_element st t j :
  owns_buffers nthreads n st -> (t < nthreads)%nat -> 0 <= j < n ->
  exists v, element t j st = Some v.
Proof.
  intros Ho Ht Hj. unfold element.
  destruct (owns_load nthreads n st ArrA t j Ho Ht Hj) as (x & ->).
  destruct (owns_load nthreads n st ArrB t j Ho Ht Hj) as (y & ->).
  destruct (owns_load nthreads n st ArrC t j Ho Ht Hj) as (z & ->).
  exists (x, y, z). reflexivity.
Qed.

Lemma run_loops_serial iters st w :
  owns_buffers nthreads n st ->
  int_of_double (dmul d1e6 (dsub (reading e (S (ticks w))) (reading e (ticks w))))
    <> None ->
  exists ts st' w',
    run_loops e n nthreads iters st w = Ok (ts, st') w' /\
    owns_buffers nthreads n st' /\
    all_elements nthreads n st' (Nat.iter iters kernel_pass (d2, d2, d0)).
Proof.
  intros Ho Hest. unfold run_loops.
  destruct (serial_region RInit 0%nat st Ho) as (st1 & Hrun1 & Ho1 & He1).
  assert (Hv1 : all_elements nthreads n st1 (d1, d2, d0)).
  { intros t j Ht Hj. rewrite He1 by assumption.
    destruct (owns_element st t j Ho Ht Hj) as ([ [ x y ] z ] & ->). reflexivity. }
  destruct (serial_region_all RWarm 0%nat st1 _ Ho1 Hv1) as (st2 & Hrun2 & Ho2 & Hv2).
  change (elementwise RWarm (d1, d2, d0)) with (d2, d2, d0) in Hv2.
  unfold bind at 1. rewrite (parallel_for_runs _ _ _ _ _ _ _ _ Hrun1).
  unfold bind at 1. unfold mysecond at 1.
  unfold bind at 1. rewrite (parallel_for_runs _ _ _ _ _ _ _ _ Hrun2).
  unfold bind at 1. unfold mysecond at 1.
  cbn [ticks log]. fold (reading e (ticks w)) (reading e (S (ticks w))).
  destruct (int_of_double _) as [ estimate | ]; [ | congruence ].
  unfold lift_option. unfold bind at 1. unfold ret at 1.
  apply iterations_serial; assumption.
Qed.

End SerialRun.

Lemma fresh_store_owns e n nt i0 :
  0 <= n <= INT_MAX -> (forall tid which, malloc_ok e tid which = true) ->
  owns_buffers nt n (fresh_store e n nt i0).
Proof.
  intros Hn Hok x t Ht. rewrite fresh_store_slot by exact Ht.
  unfold fresh_buffer. rewrite Hok. eexists. split; [ reflexivity | ].
  rewrite repeat_length, malloc_bytes_elements by exact Hn. lia.
Qed.

(** The exact values of the first thirteen rounds: no operation rounds. *)
Lemma kernel_pass_closed_form k : (k <= 12)%nat ->
  Nat.iter (S k) kernel_pass (d2, d2, d0) =
    (double_of_Z (2 * 15 ^ Z.of_nat (S k)),
     double_of_Z (6 * 15 ^ Z.of_nat k),
     double_of_Z (8 * 15 ^ Z.of_nat k)).
Proof.
  intros H.
  do 13 (destruct k as [ | k ]; [ vm_compute; reflexivity | ]). lia.
Qed.

Lemma run_kernels_serial (e : env) (total : Z) (iters : nat) :
  1 <= omp_threads e <= INT_MAX -> omp_threads e <= total -> total < 2 ^ 53 ->
  total / omp_threads e <= INT_MAX ->
  (forall tid which, malloc_ok e tid which = true) ->
  serial_env e (Z.to_nat (omp_threads e)) (total / omp_threads e) ->
  timing_returns e ->
  exists ts st w,
    run_kernels e total iters world0 = Ok (total / omp_threads e, ts, st) w /\
    owns_buffers (Z.to_nat (omp_threads e)) (total / omp_threads e) st /\
    all_elements (Z.to_nat (omp_threads e)) (total / omp_threads e) st
      (Nat.iter iters kernel_pass (d2, d2, d0)).
Proof.
  intros Ht Hle Htotal Hn Hok Hserial Htiming.
  set (threads := omp_threads e) in *. set (n := total / threads) in *.
  assert (Hn0 : 0 <= n <= INT_MAX).
  { split; [ apply Z.div_pos; lia | exact Hn ]. }
  unfold run_kernels. fold threads.
  replace ((threads <? 1) || negb (in_int threads)) with false.
  - rewrite (compute_array_size_floor total threads ltac:(lia) Htotal Hn). fold n.
    unfold lift_option. unfold bind at 1, ret at 1.
    destruct (allocate_returns e n (Z.to_nat threads) threads world0)
      as (w1 & Halloc & Ht1).
    unfold bind at 1. rewrite Halloc.
    destruct (Htiming w1 Ht1) as (q & w2 & Hq & Hest).
    unfold bind at 1. rewrite Hq.
    destruct (run_loops_serial e (Z.to_nat threads) n Hn0 Hserial iters
                (fresh_store e n (Z.to_nat threads) threads) w2)
      as (ts & st & w3 & Hrun & Ho & Hv).
    + apply fresh_store_owns; assumption.
    + exact Hest.
    + exists ts, st, w3. unfold bind. rewrite Hrun.
      split; [ reflexivity | split; [ exact Ho | exact Hv ] ].
  - symmetry. apply orb_false_iff. split; [ apply Z.ltb_ge; lia | ].
    apply negb_false_iff. unfold in_int. apply andb_true_iff.
    split; apply Z.leb_le; unfold INT_MIN; lia.
Qed.

(** X2: the results of a whole run, for any team and any size: when the
    allocations succeed, the calibration and the timing estimate return
    and the threads run each loop one after the other, the run up to the
    end of [iters] rounds of Copy, Scale, Add, Triad returns with every
    thread holding [total / threads] elements, all alike:
    [iters] rounds of the four kernels applied to (A, B, C) = (2, 2, 0),
    the state left by the initialisation and the doubling pass.  Each
    round multiplies A by 15: for up to 13 rounds every operation is exact
    and A = 2 * 15^iters, B = 6 * 15^(iters-1), C = 8 * 15^(iters-1). *)
Theorem serial_run_values (e : env) (total : Z) (iters : nat) :
  let threads := omp_threads e in
  let n := total / threads in
  1 <= threads <= INT_MAX -> threads <= total -> total < 2 ^ 53 -> n <= INT_MAX ->
  (forall tid which, malloc_ok e tid which = true) ->
  serial_env e (Z.to_nat threads) n ->
  timing_returns e ->
  exists ts st w,
    run_kernels e total iters world0 = Ok (n, ts, st) w /\
    owns_buffers (Z.to_nat threads) n st /\
    all_elements (Z.to_nat threads) n st (Nat.iter iters kernel_pass (d2, d2, d0)) /\
    ((1 <= iters <= 13)%nat ->
     all_elements (Z.to_nat threads) n st
       (double_of_Z (2 * 15 ^ Z.of_nat iters),
        double_of_Z (6 * 15 ^ (Z.of_nat iters - 1)),
        double_of_Z (8 * 15 ^ (Z.of_nat iters - 1)))).
Proof.
  intros threads n Ht Hle Htotal Hn Hok Hserial Htiming.
  destruct (run_kernels_serial e total iters Ht Hle Htotal Hn Hok Hserial Htiming)
    as (ts & st & w & Hrun & Ho & Hv).
  exists ts, st, w.
  split; [ exact Hrun | split; [ exact Ho | split; [ exact Hv | ] ] ].
  intros Hi. destruct iters as [ | k ]; [ lia | ].
  fold threads n in Hv.
  rewrite kernel_pass_closed_form in Hv by lia.
  replace (Z.of_nat (S k) - 1) with (Z.of_nat k) by lia. exact Hv.
Qed.

(** X3: the path of success, from the command line to the exit status: when
    the size taken from the arguments is at least the number of threads
    and below 2^53, the quotient fits an [int], every allocation
    succeeds, the calibration and the timing estimate return and the
    threads run each loop one after the other, [main] returns 0, having
    allocated, calibrated, run the loops [NTIMES] times and printed the
    four rows of the report, in this order. *)
Theorem serial_run_returns_zero (cfg : config) (argv : list string) (e : env)
  (total : Z) :
  let threads := omp_threads e in
  let n := total / threads in
  read_args cfg argv = UseSize total ->
  1 <= threads <= INT_MAX -> threads <= total -> total < 2 ^ 53 -> n <= INT_MAX ->
  (forall tid which, malloc_ok e tid which = true) ->
  serial_env e (Z.to_nat threads) n ->
  timing_returns e ->
  exists s c,
    (40 <= c)%nat /\
    main cfg argv e =
      (Returned 0,
       alloc_events e n (Z.to_nat threads)
       ++ repeat EvClock c
       ++ loops_events (Z.to_nat (NTIMES cfg))
       ++ report_events n threads s).
Proof.
  intros threads n Hargs Ht Hle Htotal Hn Hok Hserial Htiming.
  destruct (run_kernels_serial e total (Z.to_nat (NTIMES cfg))
              Ht Hle Htotal Hn Hok Hserial Htiming)
    as (ts & st & w & Hrun & _).
  fold threads n in Hrun.
  destruct (run_kernels_trace _ _ _ _ _ _ _ Hrun) as (_ & c & Hc & Htr & _).
  exists (reduce (NTIMES cfg) ts (junk_stats e)), c.
  split; [ exact Hc | ].
  unfold main. rewrite Hargs. unfold benchmark.
  unfold bind at 1. rewrite Hrun. cbv beta iota.
  unfold bind. rewrite report_from_events. unfold ret. cbv beta iota.
  cbn [trace]. rewrite Htr. unfold report_events. fold threads.
  rewrite <- !app_assoc. reflexivity.
Qed.

Lemma three_threads_serial : serial_env three_threads 3 3.
Proof.
  intros r k. exists [2; 0; 1]%nat. split; [ | split ].
  - repeat constructor; cbn; lia.
  - intros t. cbn. lia.
  - reflexivity.
Qed.

Lemma three_threads_timing : timing_returns three_threads.
Proof.
  intros [ tr tk ] H. cbn in H. subst tk.
  eexists _, _. split; [ vm_compute; reflexivity | vm_compute; discriminate ].
Qed.

Lemma serial_run_values_witness :
  exists ts st w,
    run_kernels three_threads 10 10 world0 = Ok (3, ts, st) w /\
    owns_buffers 3 3 st /\
    all_elements 3 3 st (Nat.iter 10 kernel_pass (d2, d2, d0)) /\
    all_elements 3 3 st
      (double_of_Z 1153300781250, double_of_Z 230660156250, double_of_Z 307546875000).
Proof.
  destruct (serial_run_values three_threads 10 10) as (ts & st & w & H1 & H2 & H3 & H4).
  - cbn. unfold INT_MAX. lia.
  - cbn. lia.
  - lia.
  - vm_compute. discriminate.
  - reflexivity.
  - exact three_threads_serial.
  - exact three_threads_timing.
  - exists ts, st, w.
    split; [ exact H1 | split; [ exact H2 | split; [ exact H3 | ] ] ].
    apply H4. lia.
Defined.

Lemma before_copy_owns : owns_buffers 2 2 before_copy.
Proof.
  intros x t Ht.
  destruct t as [ | [ | t ] ]; [ | | lia ]; destruct x; eexists; split; reflexivity.
Qed.

Lemma region_applies_kernel_witness :
  exists st',
    run_region (body_of RTriad) 2 2
      (serial_schedule [1; 0]%nat (Z.to_nat 2) (List.length (body_of RTriad)))
      before_copy = Some (Some st') /\
    owns_buffers 2 2 st' /\
    forall t j, (t < 2)%nat -> 0 <= j < 2 ->
      element t j st' = option_map (elementwise RTriad) (element t j before_copy).
Proof.
  apply (region_applies_kernel RTriad 2 2).
  - unfold INT_MAX. lia.
  - exact before_copy_owns.
  - repeat constructor; cbn; lia.
  - intros t. cbn. lia.
Defined.

Lemma two_threads_serial : serial_env two_threads 2 4.
Proof.
  intros r k. exists [0; 1]%nat. split; [ | split ].
  - repeat constructor; cbn; lia.
  - intros t. cbn. lia.
  - reflexivity.
Qed.

Lemma serial_run_returns_zero_witness :
  exists s c,
    (40 <= c)%nat /\
    main default_config ["stream"; "8"]%string two_threads =
      (Returned 0,
       alloc_events two_threads 4 2
       ++ repeat EvClock c
       ++ loops_events 10
       ++ report_events 4 2 s).
Proof.
  apply (serial_run_returns_zero default_config ["stream"; "8"]%string two_threads 8).
  - reflexivity.
  - cbn. unfold INT_MAX. lia.
  - cbn. lia.
  - lia.
  - vm_compute. discriminate.
  - reflexivity.
  - exact two_threads_serial.
  - exact two_threads_timing.
Defined.

(* ===================================================================== *)
(** * The shared counter and the bounds of the buffers *)
(* ===================================================================== *)

Section Counter.

Variables (r : region_name) (nthreads : nat) (n : Z) (tid : nat).
Hypothesis n_int : 0 <= n <= INT_MAX.
Hypothesis tid_in_team : (tid < nthreads)%nat.

Let m := List.length (body_of r).

(** A loop run without interruption leaves the counter at [n]. *)
Lemma loop_steps_counter count : forall rs,
  nth_error (pcs rs) tid = Some AtTest ->
  owns_buffers nthreads n (mem rs) ->
  0 <= var_i (mem rs) -> n - var_i (mem rs) = Z.of_nat count ->
  exists st',
    run_schedule (body_of r) n (repeat tid (count * (2 + m) + 1)) rs =
      Some {| mem := st'; pcs := replace_nth tid AtEnd (pcs rs) |} /\
    same_shape (mem rs) st' /\ var_i st' = n.
Proof.
  induction count as [ | count IH ]; intros rs Hpc Ho Hi Hc.
  - exists (mem rs). cbn [Nat.mul Nat.add repeat run_schedule].
    unfold thread_step. rewrite Hpc.
    replace (var_i (mem rs) <? n) with false by (symmetry; apply Z.ltb_ge; lia).
    split; [ reflexivity | split; [ apply same_shape_refl | lia ] ].
  - destruct (body_effect r nthreads n tid (mem rs) Ho tid_in_team ltac:(lia))
      as (st1 & Hex & Hi1 & (Hs1 & _)).
    replace (S count * (2 + m) + 1)%nat
      with ((2 + m) + (count * (2 + m) + 1))%nat by lia.
    rewrite repeat_app, run_schedule_app.
    unfold m at 1.
    rewrite (round_steps (body_of r) n tid rs st1 Hpc) by (assumption || lia).
    assert (Hs2 : same_shape (mem rs) (set_i (var_i (mem rs) + 1) st1))
      by exact (same_shape_trans _ _ _ Hs1 (same_shape_set_i _ _)).
    destruct (IH {| mem := set_i (var_i (mem rs) + 1) st1;
                    pcs := replace_nth tid AtTest (pcs rs) |})
      as (st' & Hrun & Hs & Hn).
    + cbn [pcs]. exact (nth_error_replace_nth_same _ _ _ _ Hpc).
    + cbn [mem]. exact (owns_same_shape _ _ _ _ Ho Hs2).
    + cbn. lia.
    + cbn. lia.
    + exists st'. cbn [pcs mem] in Hrun, Hs. rewrite replace_nth_twice in Hrun.
      split; [ exact Hrun | split; [ | exact Hn ] ].
      exact (same_shape_trans _ _ _ Hs2 Hs).
Qed.

Lemma thread_runs_counter rs :
  nth_error (pcs rs) tid = Some AtInit ->
  owns_buffers nthreads n (mem rs) ->
  exists st',
    run_schedule (body_of r) n (repeat tid (2 + Z.to_nat n * (2 + m))) rs =
      Some {| mem := st'; pcs := replace_nth tid AtEnd (pcs rs) |} /\
    same_shape (mem rs) st' /\ var_i st' = n.
Proof.
  intros Hpc Ho.
  replace (2 + Z.to_nat n * (2 + m))%nat with (S (Z.to_nat n * (2 + m) + 1)) by lia.
  cbn [repeat run_schedule]. unfold thread_step at 1. rewrite Hpc.
  destruct (loop_steps_counter (Z.to_nat n)
              {| mem := set_i 0 (mem rs); pcs := replace_nth tid AtTest (pcs rs) |})
    as (st' & Hrun & Hs & Hn).
  - cbn [pcs]. exact (nth_error_replace_nth_same _ _ _ _ Hpc).
  - cbn [mem]. exact (owns_same_shape _ _ _ _ Ho (same_shape_set_i _ _)).
  - cbn. lia.
  - cbn. lia.
  - exists st'. cbn [pcs mem] in Hrun, Hs. rewrite replace_nth_twice in Hrun.
    split; [ exact Hrun | split; [ | exact Hn ] ].
    exact (same_shape_trans _ _ _ (same_shape_set_i 0 (mem rs)) Hs).
Qed.

End Counter.

(** Element [n] of a buffer of [n] elements can be neither read nor
    written. *)
Lemma load_past_end nthreads n st x t :
  owns_buffers nthreads n st -> (t < nthreads)%nat ->
  load x t n st = None.
Proof.
  intros Ho Ht. destruct (Ho x t Ht) as (buf & Hb & Hl).
  unfold load. rewrite Hb. destruct (n <? 0); [ reflexivity | ].
  apply nth_error_None. lia.
Qed.

Lemma store_past_end nthreads n st x t v :
  owns_buffers nthreads n st -> (t < nthreads)%nat ->
  store_elem x t n v st = None.
Proof.
  intros Ho Ht. destruct (Ho x t Ht) as (buf & Hb & Hl).
  unfold store_elem. rewrite Hb.
  replace (Z.of_nat (List.length buf) <=? n) with true
    by (symmetry; apply Z.leb_le; lia).
  rewrite orb_true_r. reflexivity.
Qed.

Lemma first_statement_past_end r nthreads n st t :
  owns_buffers nthreads n st -> (t < nthreads)%nat -> var_i st = n ->
  exists s, nth_error (body_of r) 0 = Some s /\ s t st = None.
Proof.
  intros Ho Ht Hi.
  pose proof (fun x => load_past_end nthreads n st x t Ho Ht) as Hload.
  pose proof (fun x v => store_past_end nthreads n st x t v Ho Ht) as Hstore.
  destruct r; cbn [body_of init_body nth_error]; eexists; (split; [ reflexivity | ]).
  - unfold assign_const. rewrite Hi. apply Hstore.
  - unfold warm_stmt. rewrite Hi, Hload. reflexivity.
  - unfold copy_stmt. rewrite Hi, Hload. reflexivity.
  - unfold scale_stmt. rewrite Hi, Hload. reflexivity.
  - unfold add_stmt. rewrite Hi, !Hload. reflexivity.
  - unfold triad_stmt. rewrite Hi, !Hload. reflexivity.
Qed.

Lemma step_past_end (body : list stmt) n t rs (s : stmt) :
  nth_error (pcs rs) t = Some (AtBody 0) ->
  nth_error body 0 = Some s -> s t (mem rs) = None ->
  thread_step body n t rs = None.
Proof.
  intros H1 H2 H3. unfold thread_step. rewrite H1. cbv beta iota zeta.
  rewrite H2, H3. reflexivity.
Qed.

(** X5: the loop counter [i] of [main] is shared by the threads of every
    region, and the test [i < array_size] of one thread does not protect
    the accesses of another.  For every loop of the program, every team
    of at least two threads and every array size from 1 on, there is an
    interleaving in which thread 0 accesses element [array_size] of its
    buffers, one past their end: it passes the test with [i = 0], thread
    1 then runs its whole loop and leaves [i = array_size], and thread 0
    resumes in the body.  The region then has undefined behaviour. *)
Theorem shared_counter_overruns (r : region_name) (nthreads : nat) (n : Z)
  (st : store) :
  1 <= n <= INT_MAX -> (2 <= nthreads)%nat -> owns_buffers nthreads n st ->
  let sched := overrun_schedule (Z.to_nat n) (List.length (body_of r)) in
  run_region (body_of r) n nthreads sched st = None /\
  forall e k w,
    schedule e r k = sched ->
    parallel_for e r k n nthreads st w = Fault (log (EvRegion r) w).
Proof.
  intros Hn Hnt Ho sched.
  assert (Hrun : run_region (body_of r) n nthreads sched st = None).
  { unfold run_region, sched, overrun_schedule.
    destruct nthreads as [ | [ | k ] ]; [ lia | lia | ].
    cbn [repeat].
    rewrite run_schedule_app. cbn [run_schedule]. unfold thread_step at 1.
    cbn [pcs mem nth_error replace_nth].
    unfold thread_step at 1. cbn [pcs mem nth_error replace_nth set_i var_i].
    replace (0 <? n) with true by (symmetry; apply Z.ltb_lt; lia).
    rewrite run_schedule_app.
    destruct (thread_runs_counter r (S (S k)) n 1%nat ltac:(lia) ltac:(lia)
                {| mem := set_i 0 st;
                   pcs := AtBody 0 :: AtInit :: repeat AtInit k |})
      as (st' & Hrun & Hs & Hi).
    - reflexivity.
    - cbn [mem]. exact (owns_same_shape _ _ _ _ Ho (same_shape_set_i _ _)).
    - rewrite Hrun. cbn [run_schedule].
      destruct (first_statement_past_end r (S (S k)) n st' 0%nat) as (s & Hs0 & Hnone).
      + apply (owns_same_shape _ _ st); [ exact Ho | ].
        exact (same_shape_trans _ _ _ (same_shape_set_i 0 st) Hs).
      + lia.
      + exact Hi.
      + rewrite (step_past_end _ _ _ _ s); [ reflexivity | reflexivity | exact Hs0 | exact Hnone ]. }
  split; [ exact Hrun | ].
  intros e k w He. unfold parallel_for. rewrite He, Hrun. reflexivity.
Qed.

Lemma shared_counter_overruns_witness :
  run_region (body_of RCopy) 2 2 [0; 0; 1; 1; 1; 1; 1; 1; 1; 1; 0]%nat before_copy = None /\
  forall e k w,
    schedule e RCopy k = [0; 0; 1; 1; 1; 1; 1; 1; 1; 1; 0]%nat ->
    parallel_for e RCopy k 2 2 before_copy w = Fault (log (EvRegion RCopy) w).
Proof.
  apply (shared_counter_overruns RCopy 2 2 before_copy).
  - unfold INT_MAX. lia.
  - lia.
  - exact before_copy_owns.
Defined.

(* ===================================================================== *)
(** * What the threads share *)
(* ===================================================================== *)

Lemma store_elem_frame x t i v st st' :
  store_elem x t i v st = Some st' ->
  var_i st' = var_i st /\ same_shape st st' /\
  forall x' t' j, t' <> t -> load x' t' j st' = load x' t' j st.
Proof.
  intros H. pose proof H as H0. unfold store_elem in H0.
  destruct (nth_error (get_arr x st) t) as [ [ buf | ] | ] eqn:Eb; try discriminate.
  destruct ((i <? 0) || (Z.of_nat (List.length buf) <=? i)) eqn:Er; [ discriminate | ].
  apply orb_false_iff in Er. destruct Er as [ E1 E2 ].
  apply Z.ltb_ge in E1. apply Z.leb_gt in E2.
  destruct (store_elem_spec x t i v st buf Eb (conj E1 E2))
    as (st1 & Hst & Hi & Hs & _ & Hf).
  rewrite H in Hst. injection Hst as <-.
  split; [ exact Hi | split; [ exact Hs | ] ].
  intros x' t' j Hne. apply Hf. intros (_ & E & _). exact (Hne E).
Qed.

Lemma stmt_frame r s t st st' :
  In s (body_of r) -> s t st = Some st' ->
  var_i st' = var_i st /\ same_shape st st' /\
  forall x t' j, t' <> t -> load x t' j st' = load x t' j st.
Proof.
  intros Hin H.
  destruct r; cbn in Hin;
    repeat (destruct Hin as [ <- | Hin ]; [ | ]); try contradiction;
    unfold assign_const, warm_stmt, copy_stmt, scale_stmt, add_stmt, triad_stmt in H;
    repeat match type of H with
           | match load ?x ?t ?i ?st with _ => _ end = _ =>
               destruct (load x t i st); [ | discriminate ]
           end;
    exact (store_elem_frame _ _ _ _ _ _ H).
Qed.

Lemma thread_step_frame r n tid rs rs' :
  thread_step (body_of r) n tid rs = Some rs' ->
  List.length (pcs rs') = List.length (pcs rs) /\
  same_shape (mem rs) (mem rs') /\
  forall x t j, t <> tid -> load x t j (mem rs') = load x t j (mem rs).
Proof.
  unfold thread_step.
  destruct (nth_error (pcs rs) tid) as [ [ | | k | ] | ].
  - intros [= <-]. cbn [pcs mem]. rewrite replace_nth_length.
    split; [ reflexivity | split; [ apply same_shape_set_i | ] ].
    intros x t j _. apply load_set_i.
  - destruct (var_i (mem rs) <? n); intros [= <-]; cbn [pcs mem];
      rewrite replace_nth_length;
      (split; [ reflexivity | split; [ apply same_shape_refl | reflexivity ] ]).
  - destruct (nth_error (body_of r) k) as [ s | ] eqn:Es.
    + destruct (s tid (mem rs)) as [ st1 | ] eqn:E1; [ | discriminate ].
      intros [= <-]. cbn [pcs mem]. rewrite replace_nth_length.
      destruct (stmt_frame r s tid _ _ (nth_error_In _ _ Es) E1) as (_ & Hs & Hf).
      split; [ reflexivity | split; [ exact Hs | exact Hf ] ].
    + destruct (var_i (mem rs) <? INT_MAX); [ | discriminate ].
      intros [= <-]. cbn [pcs mem]. rewrite replace_nth_length.
      split; [ reflexivity | split; [ apply same_shape_set_i | ] ].
      intros x t j _. apply load_set_i.
  - intros [= <-]. split; [ reflexivity | split; [ apply same_shape_refl | reflexivity ] ].
  - intros [= <-]. split; [ reflexivity | split; [ apply same_shape_refl | reflexivity ] ].
Qed.

(** X7: the threads of a region share the counter [i] and nothing else that
    they write.  Whatever the interleaving, as long as the behaviour is
    defined: the pointers and the lengths of the buffers do not change,
    and the elements of a thread's buffers [a[t]], [b[t]], [c[t]] are
    changed by the steps of thread [t] only, so that they are still what
    they were while [t] has not run. *)
Theorem threads_write_their_own_buffers (r : region_name) (n : Z)
  (sched : list nat) (rs rs' : region_state) :
  run_schedule (body_of r) n sched rs = Some rs' ->
  List.length (pcs rs') = List.length (pcs rs) /\
  same_shape (mem rs) (mem rs') /\
  forall x t j, ~ In t sched -> load x t j (mem rs') = load x t j (mem rs).
Proof.
  revert rs. induction sched as [ | tid sched IH ]; intros rs H; cbn [run_schedule] in H.
  - injection H as <-.
    split; [ reflexivity | split; [ apply same_shape_refl | reflexivity ] ].
  - destruct (thread_step (body_of r) n tid rs) as [ rs1 | ] eqn:E1; [ | discriminate ].
    destruct (thread_step_frame r n tid rs rs1 E1) as (Hl1 & Hs1 & Hf1).
    destruct (IH rs1 H) as (Hl & Hs & Hf).
    split; [ congruence | split; [ exact (same_shape_trans _ _ _ Hs1 Hs) | ] ].
    intros x t j Hno. rewrite Hf by (intros Hin; apply Hno; right; exact Hin).
    apply Hf1. intros ->. apply Hno. left. reflexivity.
Qed.

Lemma threads_write_their_own_buffers_witness :
  exists rs',
    run_schedule (body_of RCopy) 2 [0; 0; 0; 0; 0]%nat
      {| mem := before_copy; pcs := [AtInit; AtInit] |} = Some rs' /\
    load ArrC 0 0 (mem rs') = Some d1 /\
    List.length (pcs rs') = 2%nat /\
    same_shape before_copy (mem rs') /\
    forall x t j, ~ In t [0; 0; 0; 0; 0]%nat ->
      load x t j (mem rs') = load x t j before_copy.
Proof.
  eexists. split; [ reflexivity | split; [ reflexivity | ] ].
  exact (threads_write_their_own_buffers RCopy 2 [0; 0; 0; 0; 0]%nat
           {| mem := before_copy; pcs := [AtInit; AtInit] |} _ eq_refl).
Defined.

(** ** A team of one thread *)

Section OneThreadTeam.

Variables (body : list stmt) (n : Z).

Lemma other_thread_idle tid rs :
  List.length (pcs rs) = 1%nat -> tid <> 0%nat -> thread_step body n tid rs = Some rs.
Proof.
  intros Hl Hne. unfold thread_step.
  replace (nth_error (pcs rs) tid) with (@None pc)
    by (symmetry; apply nth_error_None; lia).
  reflexivity.
Qed.

Lemma thread_step_length tid rs rs' :
  thread_step body n tid rs = Some rs' -> List.length (pcs rs') = List.length (pcs rs).
Proof.
  unfold thread_step.
  destruct (nth_error (pcs rs) tid) as [ [ | | k | ] | ].
  - intros [= <-]. apply replace_nth_length.
  - destruct (var_i (mem rs) <? n); intros [= <-]; apply replace_nth_length.
  - destruct (nth_error body k) as [ s | ].
    + destruct (s tid (mem rs)); [ | discriminate ].
      intros [= <-]. apply replace_nth_length.
    + destruct (var_i (mem rs) <? INT_MAX); [ | discriminate ].
      intros [= <-]. apply replace_nth_length.
  - intros [= <-]. reflexivity.
  - intros [= <-]. reflexivity.
Qed.

(** With one thread in the team a schedule is worth the number of steps
    it gives to thread 0. *)
Lemma one_thread_schedule sched : forall rs,
  List.length (pcs rs) = 1%nat ->
  run_schedule body n sched rs =
    run_schedule body n (repeat 0%nat (count_occ Nat.eq_dec sched 0%nat)) rs.
Proof.
  induction sched as [ | tid sched IH ]; intros rs Hl; [ reflexivity | ].
  cbn [count_occ run_schedule]. destruct (Nat.eq_dec tid 0) as [ -> | Hne ].
  - cbn [repeat run_schedule].
    destruct (thread_step body n 0 rs) as [ rs1 | ] eqn:E1; [ | reflexivity ].
    apply IH. rewrite (thread_step_length _ _ _ E1). exact Hl.
  - rewrite other_thread_idle by assumption. apply IH. exact Hl.
Qed.

Lemma finished_thread_idle k : forall rs,
  nth_error (pcs rs) 0 = Some AtEnd ->
  run_schedule body n (repeat 0%nat k) rs = Some rs.
Proof.
  induction k as [ | k IH ]; intros rs H; [ reflexivity | ].
  cbn [repeat run_schedule]. unfold thread_step. rewrite H. apply IH. exact H.
Qed.

End OneThreadTeam.

(** X6: with a team of one thread the counter has a single user and the
    interleaving does not matter: under any schedule that gives the
    thread the [2 + array_size * (2 + m)] steps of its loop of [m]
    statements, the region returns with the kernel applied to every
    element. *)
Theorem one_thread_is_unaffected (r : region_name) (n : Z) (sched : list nat)
  (st : store) :
  0 <= n <= INT_MAX -> owns_buffers 1 n st ->
  (2 + Z.to_nat n * (2 + List.length (body_of r)) <= count_occ Nat.eq_dec sched 0)%nat ->
  exists st',
    run_region (body_of r) n 1 sched st = Some (Some st') /\
    owns_buffers 1 n st' /\
    forall j, 0 <= j < n ->
      element 0 j st' = option_map (elementwise r) (element 0 j st).
Proof.
  intros Hn Ho Hsteps. unfold run_region.
  rewrite one_thread_schedule by reflexivity.
  set (needed := (2 + Z.to_nat n * (2 + List.length (body_of r)))%nat) in *.
  replace (count_occ Nat.eq_dec sched 0%nat)
    with (needed + (count_occ Nat.eq_dec sched 0%nat - needed))%nat by lia.
  rewrite repeat_app, run_schedule_app.
  destruct (thread_runs r 1 n 0%nat Hn ltac:(lia)
              {| mem := st; pcs := repeat AtInit 1 |} eq_refl Ho)
    as (st' & Hrun & (Hs & _ & He)).
  fold needed in Hrun. rewrite Hrun.
  rewrite finished_thread_idle by reflexivity.
  exists st'. split; [ reflexivity | ].
  split; [ exact (owns_same_shape _ _ _ _ Ho Hs) | exact He ].
Qed.

Lemma one_thread_store_owns : owns_buffers 1 2 one_thread_store.
Proof.
  intros x t Ht. destruct t as [ | t ]; [ | lia ].
  destruct x; eexists; split; reflexivity.
Qed.

Lemma one_thread_is_unaffected_witness :
  exists st',
    run_region (body_of RCopy) 2 1 [0; 7; 0; 0; 0; 0; 3; 0; 0; 0; 0]%nat one_thread_store
      = Some (Some st') /\
    owns_buffers 1 2 st' /\
    forall j, 0 <= j < 2 ->
      element 0 j st' = option_map (elementwise RCopy) (element 0 j one_thread_store).
Proof.
  apply (one_thread_is_unaffected RCopy 2 [0; 7; 0; 0; 0; 0; 3; 0; 0; 0; 0]%nat
           one_thread_store).
  - unfold INT_MAX. lia.
  - exact one_thread_store_owns.
  - cbn. lia.
Defined.


(* ===================================================================== *)
(** * Fewer elements than threads *)
(* ===================================================================== *)

(** Line 182 for any request: the floor of the quotient, 0 included. *)
Lemma compute_array_size_total n k :
  0 <= n < 2 ^ 53 -> 1 <= k < 2 ^ 53 -> n / k <= INT_MAX ->
  compute_array_size n k = Some (n / k).
Proof.
  intros Hn Hk HQ. destruct (Z.eq_dec n 0) as [ -> | Hne ].
  - destruct (double_of_Z_small k ltac:(lia)) as (m2 & e2 & Ek & _).
    unfold compute_array_size. rewrite Ek. reflexivity.
  - apply compute_array_size_floor_any; [ lia | exact Hk | exact HQ ].
Qed.

Section EmptyLoop.

Variables (body : list stmt) (nthreads : nat) (st : store).

Lemma empty_loop_step c rs tid :
  empty_loop_state nthreads st c rs ->
  exists rs',
    thread_step body 0 tid rs = Some rs' /\
    empty_loop_state nthreads st (fun t => if Nat.eqb tid t then S (c t) else c t) rs'.
Proof.
  intros (Hlen & Hpc & Hmem & Hset).
  destruct (Nat.lt_ge_cases tid nthreads) as [ Hlt | Hge ].
  - pose proof (Hpc tid Hlt) as Htid.
    assert (Hother : forall p t, (t < nthreads)%nat ->
              nth_error (replace_nth tid p (pcs rs)) t =
                Some (if Nat.eqb tid t then p else phase (c t))).
    { intros p t Ht. rewrite nth_error_replace_nth, (Hpc t Ht).
      destruct (Nat.eqb tid t); reflexivity. }
    assert (Hset0 : set_i 0 (mem rs) = set_i 0 st).
    { destruct Hmem as [ -> | -> ]; reflexivity. }
    unfold thread_step. rewrite Htid.
    destruct (c tid) as [ | [ | k ] ] eqn:Ec; cbn [phase].
    + eexists. split; [ reflexivity | ].
      split; [ cbn [pcs]; rewrite replace_nth_length; exact Hlen | ].
      split; [ | split; [ right; exact Hset0 | intros _; exact Hset0 ] ].
      intros t Ht. cbn [pcs]. rewrite (Hother _ _ Ht).
      destruct (Nat.eqb_spec tid t) as [ <- | ]; [ rewrite Ec | ]; reflexivity.
    + assert (Hm : mem rs = set_i 0 st) by (apply Hset; exists tid; split; [ exact Hlt | lia ]).
      rewrite Hm. cbn [var_i set_i]. change (0 <? 0) with false. cbv iota.
      eexists. split; [ reflexivity | ].
      split; [ cbn [pcs]; rewrite replace_nth_length; exact Hlen | ].
      split; [ | split; [ right; reflexivity | intros _; reflexivity ] ].
      intros t Ht. cbn [pcs]. rewrite (Hother _ _ Ht).
      destruct (Nat.eqb_spec tid t) as [ <- | ]; [ rewrite Ec | ]; reflexivity.
    + exists rs. split; [ reflexivity | ].
      split; [ exact Hlen | split; [ | split; [ exact Hmem | ] ] ].
      * intros t Ht. rewrite (Hpc t Ht).
        destruct (Nat.eqb_spec tid t) as [ <- | ]; [ rewrite Ec | ]; reflexivity.
      * intros _. apply Hset. exists tid. split; [ exact Hlt | lia ].
  - exists rs. unfold thread_step.
    replace (nth_error (pcs rs) tid) with (@None pc)
      by (symmetry; apply nth_error_None; lia).
    split; [ reflexivity | ].
    split; [ exact Hlen | split; [ | split; [ exact Hmem | ] ] ].
    + intros t Ht. rewrite (Hpc t Ht).
      destruct (Nat.eqb_spec tid t) as [ <- | ]; [ lia | reflexivity ].
    + intros (t & Ht & Hc). apply Hset. exists t. split; [ exact Ht | ].
      destruct (Nat.eqb_spec tid t) as [ <- | ]; [ lia | exact Hc ].
Qed.

Lemma empty_loop_ext c c' rs :
  (forall t, c t = c' t) -> empty_loop_state nthreads st c rs -> empty_loop_state nthreads st c' rs.
Proof.
  intros Hc (Hlen & Hpc & Hmem & Hset).
  split; [ exact Hlen | split; [ | split; [ exact Hmem | ] ] ].
  - intros t Ht. rewrite <- Hc. apply Hpc. exact Ht.
  - intros (t & Ht & H1). apply Hset. exists t. rewrite Hc. split; assumption.
Qed.

Lemma empty_loop_run sched : forall c rs,
  empty_loop_state nthreads st c rs ->
  exists rs',
    run_schedule body 0 sched rs = Some rs' /\
    empty_loop_state nthreads st (fun t => (c t + count_occ Nat.eq_dec sched t)%nat) rs'.
Proof.
  induction sched as [ | tid sched IH ]; intros c rs Hst.
  - exists rs. split; [ reflexivity | ].
    apply (empty_loop_ext c); [ intros t; cbn; lia | exact Hst ].
  - destruct (empty_loop_step c rs tid Hst) as (rs1 & Hstep & Hst1).
    destruct (IH _ rs1 Hst1) as (rs' & Hrun & Hst').
    exists rs'. cbn [run_schedule]. rewrite Hstep. split; [ exact Hrun | ].
    refine (empty_loop_ext _ _ _ _ Hst'). intros t. cbn [count_occ].
    destruct (Nat.eq_dec tid t) as [ <- | Hne ].
    + rewrite Nat.eqb_refl. lia.
    + replace (Nat.eqb tid t) with false by (symmetry; apply Nat.eqb_neq; exact Hne).
      reflexivity.
Qed.

Lemma empty_region sched :
  (1 <= nthreads)%nat -> twice_each nthreads sched ->
  run_region body 0 nthreads sched st = Some (Some (set_i 0 st)).
Proof.
  intros Hnt Hfair. unfold run_region.
  destruct (empty_loop_run sched (fun _ => 0%nat)
              {| mem := st; pcs := repeat AtInit nthreads |})
    as (rs' & Hrun & Hlen & Hpc & _ & Hset).
  - split; [ apply repeat_length | split; [ | split; [ left; reflexivity | ] ] ].
    + intros t Ht. cbn [pcs phase]. apply nth_error_repeat. exact Ht.
    + intros (t & _ & H). lia.
  - rewrite Hrun. rewrite all_at_end.
    + rewrite Hset; [ reflexivity | ].
      exists 0%nat. split; [ lia | ]. specialize (Hfair 0%nat ltac:(lia)). cbn. lia.
    + intros t Ht. rewrite Hlen in Ht. rewrite (Hpc t Ht).
      specialize (Hfair t Ht). cbn [Nat.add].
      destruct (count_occ Nat.eq_dec sched t) as [ | [ | k ] ]; [ lia | lia | reflexivity ].
Qed.

End EmptyLoop.

(** X10: when fewer elements are requested than there are threads, line 182
    gives every thread an array of 0 elements and the program goes on:
    each [malloc] is asked for 0 bytes; every loop, under any
    interleaving that lets each thread take its two steps (the
    assignment [i = 0] and the test), returns having written nothing but
    the shared counter, so that no buffer is ever accessed, null or not;
    the count of bytes moved is 0 for the four kernels, and the bandwidth
    printed is 0 divided by the best time. *)
Theorem fewer_elements_than_threads (total threads : Z) :
  0 <= total < threads -> threads <= INT_MAX ->
  compute_array_size total threads = Some 0 /\
  malloc_bytes 0 = 0 /\
  (forall r nthreads sched st,
     (1 <= nthreads)%nat -> twice_each nthreads sched ->
     run_region (body_of r) 0 nthreads sched st = Some (Some (set_i 0 st))) /\
  (forall k, bytes 0 threads k = d0) /\
  (forall s k, bandwidth 0 threads s k = ddiv d0 (mintime s k)).
Proof.
  intros Ht Hmax.
  split.
  { pose proof (Z.div_small total threads Ht) as Hq.
    rewrite compute_array_size_total, Hq; unfold INT_MAX in *; try rewrite Hq; lia || reflexivity. }
  split; [ reflexivity | ].
  split; [ intros r nthreads sched st; apply empty_region | ].
  assert (Hb : forall k, bytes 0 threads k = d0).
  { intros k. unfold bytes, bytes_count.
    replace (to_ulong (to_ulong (words_of k * sizeof_STREAM_TYPE) * to_ulong 0)) with 0.
    - reflexivity.
    - change (to_ulong 0) with 0. rewrite Z.mul_0_r. reflexivity. }
  split; [ exact Hb | ].
  intros s k. unfold bandwidth. rewrite Hb. reflexivity.
Qed.

Lemma fewer_elements_than_threads_witness :
  compute_array_size 1 2 = Some 0 /\
  malloc_bytes 0 = 0 /\
  (forall r nthreads sched st,
     (1 <= nthreads)%nat -> twice_each nthreads sched ->
     run_region (body_of r) 0 nthreads sched st = Some (Some (set_i 0 st))) /\
  (forall k, bytes 0 2 k = d0) /\
  (forall s k, bandwidth 0 2 s k = ddiv d0 (mintime s k)).
Proof.
  apply (fewer_elements_than_threads 1 2); unfold INT_MAX; lia.
Defined.

(* ===================================================================== *)
(** * The elements that are measured *)
(* ===================================================================== *)

(** X11: the benchmark runs on [array_size * nthreads] elements, the largest
    multiple of the number of threads within the size requested: the
    remainder of the division of line 182 is neither allocated nor
    counted in the bytes that the bandwidths are computed from. *)
Theorem remainder_is_not_measured (total threads f : Z) :
  1 <= threads <= INT_MAX -> threads <= total -> total < 2 ^ 53 ->
  total / threads <= INT_MAX -> 0 <= f <= 3 ->
  let array_size := total / threads in
  compute_array_size total threads = Some array_size /\
  array_size * threads = total - total mod threads /\
  total - threads < array_size * threads <= total /\
  bytes_count f array_size threads
    = f * sizeof_STREAM_TYPE * (total - total mod threads).
Proof.
  intros Ht Hle Htotal Hq Hf array_size.
  pose proof (Z.div_mod total threads ltac:(lia)) as Hdm.
  pose proof (Z.mod_pos_bound total threads ltac:(lia)) as Hm.
  assert (H0 : 0 <= array_size) by (apply Z.div_pos; lia).
  assert (Hmul : array_size * threads = total - total mod threads)
    by (unfold array_size; lia).
  split; [ apply compute_array_size_floor; [ lia | exact Htotal | exact Hq ] | ].
  split; [ exact Hmul | split; [ lia | ] ].
  rewrite bytes_count_exact; [ rewrite Hmul; lia | exact Hf | | exact Ht | ].
  - split; [ exact H0 | exact Hq ].
  - rewrite Hmul. lia.
Qed.

Lemma remainder_is_not_measured_witness :
  compute_array_size 10 4 = Some 2 /\
  2 * 4 = 10 - 10 mod 4 /\
  10 - 4 < 2 * 4 <= 10 /\
  bytes_count 2 2 4 = 2 * sizeof_STREAM_TYPE * (10 - 10 mod 4).
Proof.
  apply (remainder_is_not_measured 10 4 2); unfold INT_MAX; try lia.
  vm_compute. discriminate.
Defined.

(* ===================================================================== *)
(** * Uninitialised memory *)
(* ===================================================================== *)

Lemma shape_eq_refl st : shape_eq st st.
Proof. split; reflexivity. Qed.

Lemma shape_eq_slot st1 st2 x t :
  shape_eq st1 st2 ->
  option_map (option_map (@List.length double)) (nth_error (get_arr x st1) t)
  = option_map (option_map (@List.length double)) (nth_error (get_arr x st2) t).
Proof. intros [ _ H ]. rewrite <- !nth_error_map, H. reflexivity. Qed.

Lemma shape_eq_set_i st1 st2 v : shape_eq st1 st2 -> shape_eq (set_i v st1) (set_i v st2).
Proof.
  intros [ _ H ]. split; [ reflexivity | ]. intros x. specialize (H x).
  destruct x; exact H.
Qed.

(** Whether an access is defined depends on the shape of the store only. *)
Lemma load_shape st1 st2 x t i :
  shape_eq st1 st2 ->
  opt_rel (fun _ _ => True) (load x t i st1) (load x t i st2).
Proof.
  intros Hs. pose proof (shape_eq_slot st1 st2 x t Hs) as H. unfold load.
  destruct (nth_error (get_arr x st1) t) as [ [ b1 | ] | ],
           (nth_error (get_arr x st2) t) as [ [ b2 | ] | ];
    cbn in H; try discriminate; try exact I.
  injection H as H. destruct (i <? 0); [ exact I | ].
  destruct (nth_error b1 (Z.to_nat i)) eqn:E1, (nth_error b2 (Z.to_nat i)) eqn:E2;
    try exact I; exfalso.
  - apply nth_error_None in E2.
    assert (Z.to_nat i < List.length b1)%nat by (apply nth_error_Some; congruence). lia.
  - apply nth_error_None in E1.
    assert (Z.to_nat i < List.length b2)%nat by (apply nth_error_Some; congruence). lia.
Qed.

Lemma map_replace_nth {A B} (f : A -> B) (l : list A) : forall n v,
  map f (replace_nth n v l) = replace_nth n (f v) (map f l).
Proof.
  induction l as [ | x l IH ]; intros [ | n ] v; cbn; try reflexivity.
  f_equal. apply IH.
Qed.

Lemma store_shape st1 st2 x t i v1 v2 :
  shape_eq st1 st2 ->
  opt_rel shape_eq (store_elem x t i v1 st1) (store_elem x t i v2 st2).
Proof.
  intros Hs. pose proof (shape_eq_slot st1 st2 x t Hs) as H. unfold store_elem.
  destruct (nth_error (get_arr x st1) t) as [ [ b1 | ] | ],
           (nth_error (get_arr x st2) t) as [ [ b2 | ] | ];
    cbn in H; try discriminate; try exact I.
  injection H as H. rewrite H.
  destruct ((i <? 0) || (Z.of_nat (List.length b2) <=? i)); [ exact I | ].
  destruct Hs as [ Hi Ha ]. split.
  - rewrite !var_i_set_arr. exact Hi.
  - intros y. rewrite !get_set_arr.
    destruct y, x; try apply Ha;
      rewrite !map_replace_nth; cbn [option_map]; rewrite !replace_nth_length, H, Ha;
      reflexivity.
Qed.

Lemma load_store_shape st1 st2 x y t i (f1 f2 : double -> double) :
  shape_eq st1 st2 ->
  opt_rel shape_eq
    (match load x t i st1 with
     | Some v => store_elem y t i (f1 v) st1
     | None => None
     end)
    (match load x t i st2 with
     | Some v => store_elem y t i (f2 v) st2
     | None => None
     end).
Proof.
  intros Hs. pose proof (load_shape st1 st2 x t i Hs) as Hl.
  destruct (load x t i st1), (load x t i st2); cbn in Hl; try contradiction;
    [ apply store_shape; exact Hs | exact I ].
Qed.

Lemma load2_store_shape st1 st2 x x' y t i (f1 f2 : double -> double -> double) :
  shape_eq st1 st2 ->
  opt_rel shape_eq
    (match load x t i st1, load x' t i st1 with
     | Some v, Some v' => store_elem y t i (f1 v v') st1
     | _, _ => None
     end)
    (match load x t i st2, load x' t i st2 with
     | Some v, Some v' => store_elem y t i (f2 v v') st2
     | _, _ => None
     end).
Proof.
  intros Hs. pose proof (load_shape st1 st2 x t i Hs) as Hl.
  pose proof (load_shape st1 st2 x' t i Hs) as Hl'.
  destruct (load x t i st1), (load x t i st2); cbn in Hl; try contradiction;
    destruct (load x' t i st1), (load x' t i st2); cbn in Hl'; try contradiction;
    try exact I.
  apply store_shape. exact Hs.
Qed.

(** No statement of the program lets the content of an array decide
    anything but the content of an array. *)
Lemma stmt_shape r s t st1 st2 :
  In s (body_of r) -> shape_eq st1 st2 -> opt_rel shape_eq (s t st1) (s t st2).
Proof.
  intros Hin Hs. pose proof Hs as [ Hi _ ].
  destruct r; cbn in Hin;
    repeat (destruct Hin as [ <- | Hin ]; [ | ]); try contradiction.
  - unfold assign_const. rewrite Hi. apply store_shape. exact Hs.
  - unfold assign_const. rewrite Hi. apply store_shape. exact Hs.
  - unfold assign_const. rewrite Hi. apply store_shape. exact Hs.
  - unfold warm_stmt. rewrite Hi.
    exact (load_store_shape st1 st2 ArrA ArrA t _ (dmul d2) (dmul d2) Hs).
  - unfold copy_stmt. rewrite Hi.
    exact (load_store_shape st1 st2 ArrA ArrC t _ (fun v => v) (fun v => v) Hs).
  - unfold scale_stmt. rewrite Hi.
    exact (load_store_shape st1 st2 ArrC ArrB t _ (dmul SCALAR) (dmul SCALAR) Hs).
  - unfold add_stmt. rewrite Hi.
    exact (load2_store_shape st1 st2 ArrA ArrB ArrC t _ dadd dadd Hs).
  - unfold triad_stmt. rewrite Hi.
    exact (load2_store_shape st1 st2 ArrB ArrC ArrA t _
             (fun v v' => dadd v (dmul SCALAR v')) (fun v v' => dadd v (dmul SCALAR v')) Hs).
Qed.

Lemma thread_step_shape r n tid rs1 rs2 :
  rs_eq rs1 rs2 ->
  opt_rel rs_eq (thread_step (body_of r) n tid rs1) (thread_step (body_of r) n tid rs2).
Proof.
  intros [ Hpc Hs ]. pose proof Hs as [ Hi _ ]. unfold thread_step. rewrite Hpc, Hi.
  destruct (nth_error (pcs rs2) tid) as [ [ | | k | ] | ]; cbn [opt_rel].
  - split; [ reflexivity | apply shape_eq_set_i; exact Hs ].
  - destruct (var_i (mem rs2) <? n); (split; [ reflexivity | exact Hs ]).
  - destruct (nth_error (body_of r) k) as [ s | ] eqn:Es.
    + pose proof (stmt_shape r s tid _ _ (nth_error_In _ _ Es) Hs) as H.
      destruct (s tid (mem rs1)), (s tid (mem rs2)); cbn in H; try contradiction;
        [ split; [ reflexivity | exact H ] | exact I ].
    + destruct (var_i (mem rs2) <? INT_MAX); [ | exact I ].
      split; [ reflexivity | apply shape_eq_set_i; exact Hs ].
  - split; assumption.
  - split; assumption.
Qed.

Lemma run_schedule_shape r n sched : forall rs1 rs2,
  rs_eq rs1 rs2 ->
  opt_rel rs_eq (run_schedule (body_of r) n sched rs1)
                (run_schedule (body_of r) n sched rs2).
Proof.
  induction sched as [ | tid sched IH ]; intros rs1 rs2 H; cbn [run_schedule].
  - exact H.
  - pose proof (thread_step_shape r n tid rs1 rs2 H) as Hstep.
    destruct (thread_step (body_of r) n tid rs1), (thread_step (body_of r) n tid rs2);
      cbn in Hstep; try contradiction; [ apply IH; exact Hstep | exact I ].
Qed.

Lemma run_region_shape r n nt sched st1 st2 :
  shape_eq st1 st2 ->
  opt_rel (opt_rel shape_eq) (run_region (body_of r) n nt sched st1)
                             (run_region (body_of r) n nt sched st2).
Proof.
  intros Hs. unfold run_region.
  pose proof (run_schedule_shape r n sched
                {| mem := st1; pcs := repeat AtInit nt |}
                {| mem := st2; pcs := repeat AtInit nt |}
                (conj eq_refl Hs)) as H.
  destruct (run_schedule _ _ _ _) as [ rs1 | ], (run_schedule _ _ _ _) as [ rs2 | ];
    cbn in H; try contradiction; [ | exact I ].
  destruct H as [ Hpc H ]. cbn [opt_rel]. rewrite Hpc.
  destruct (forallb is_end (pcs rs2)); [ exact H | exact I ].
Qed.

(** ** Simulation of the runs *)

Lemma sim_bind {A B} (R : A -> A -> Prop) (R' : B -> B -> Prop)
  (m1 m2 : Prog A) (f1 f2 : A -> Prog B) w :
  sim R (m1 w) (m2 w) ->
  (forall x y w', R x y -> sim R' (f1 x w') (f2 y w')) ->
  sim R' (bind m1 f1 w) (bind m2 f2 w).
Proof.
  intros Hm Hf. unfold bind.
  destruct (m1 w), (m2 w); cbn in Hm; try contradiction.
  - destruct Hm as [ HR <- ]. apply Hf. exact HR.
  - exact Hm.
  - exact Hm.
Qed.

Lemma sim_refl {A} (R : A -> A -> Prop) (o : outcome A) :
  (forall x, R x x) -> sim R o o.
Proof. intros H. destruct o; cbn; auto. Qed.

Section TwoRuns.

Variables e1 e2 : env.
Hypothesis same : same_but_junk e1 e2.

Lemma mysecond_same w : mysecond e1 w = mysecond e2 w.
Proof. destruct same as (_ & _ & Hc & _). unfold mysecond. rewrite Hc. reflexivity. Qed.

Lemma spin_same fuel : forall t1 w, spin e1 fuel t1 w = spin e2 fuel t1 w.
Proof.
  induction fuel as [ | fuel IH ]; intros t1 w; cbn [spin]; [ reflexivity | ].
  unfold bind. rewrite mysecond_same.
  destruct (mysecond e2 w) as [ t2 w' | | ]; try reflexivity.
  destruct (dlt (dsub t2 t1) d1em6); [ apply IH | reflexivity ].
Qed.

Lemma collect_ticks_same fuel m : forall w,
  collect_ticks e1 fuel m w = collect_ticks e2 fuel m w.
Proof.
  induction m as [ | m IH ]; intros w; cbn [collect_ticks]; [ reflexivity | ].
  unfold bind. rewrite mysecond_same.
  destruct (mysecond e2 w) as [ t1 w1 | | ]; try reflexivity.
  rewrite spin_same. destruct (spin e2 fuel t1 w1) as [ t2 w2 | | ]; try reflexivity.
  rewrite IH. reflexivity.
Qed.

Lemma checktick_same fuel w : checktick e1 fuel w = checktick e2 fuel w.
Proof. unfold checktick, bind. rewrite collect_ticks_same. reflexivity. Qed.

Lemma parallel_for_sim r k n nt st1 st2 w :
  shape_eq st1 st2 ->
  sim shape_eq (parallel_for e1 r k n nt st1 w) (parallel_for e2 r k n nt st2 w).
Proof.
  intros Hs. destruct same as (_ & _ & _ & Hsched & _).
  unfold parallel_for. rewrite Hsched.
  pose proof (run_region_shape r n nt (schedule e2 r k) st1 st2 Hs) as H.
  destruct (run_region _ _ _ _ st1) as [ [ a | ] | ],
           (run_region _ _ _ _ st2) as [ [ b | ] | ];
    cbn in H; try contradiction; cbn; auto.
Qed.

Lemma timed_sim r k n nt st1 st2 w :
  shape_eq st1 st2 ->
  sim (fun p q => fst p = fst q /\ shape_eq (snd p) (snd q))
      (timed e1 r k n nt st1 w) (timed e2 r k n nt st2 w).
Proof.
  intros Hs. unfold timed.
  apply (sim_bind eq); [ rewrite mysecond_same; apply sim_refl; reflexivity | ].
  intros t0 ? w0 <-.
  apply (sim_bind shape_eq); [ apply parallel_for_sim; exact Hs | ].
  intros a b w1 Hab.
  apply (sim_bind eq); [ rewrite mysecond_same; apply sim_refl; reflexivity | ].
  intros t1 ? w2 <-. cbn. split; [ split; [ reflexivity | exact Hab ] | reflexivity ].
Qed.

Lemma agree_set_entry count ts1 ts2 j k v :
  agree count ts1 ts2 -> agree count (set_entry ts1 j k v) (set_entry ts2 j k v).
Proof.
  intros H j' k' Hj Hk. unfold set_entry.
  destruct (Nat.eqb j j' && Nat.eqb k k'); [ reflexivity | apply H; assumption ].
Qed.

Lemma agree_next ts1 ts2 k :
  agree k ts1 ts2 ->
  (forall j, (j < 4)%nat -> ts1 j k = ts2 j k) ->
  agree (S k) ts1 ts2.
Proof.
  intros H Hk j k' Hj Hk'. destruct (Nat.eq_dec k' k) as [ -> | ];
    [ apply Hk; exact Hj | apply H; [ exact Hj | lia ] ].
Qed.

Lemma iteration_sim n nt k ts1 ts2 st1 st2 w :
  agree k ts1 ts2 -> shape_eq st1 st2 ->
  sim (fun p q => agree (S k) (fst p) (fst q) /\ shape_eq (snd p) (snd q))
      (iteration e1 n nt k ts1 st1 w) (iteration e2 n nt k ts2 st2 w).
Proof.
  intros Ha Hs. unfold iteration.
  eapply sim_bind; [ apply timed_sim; exact Hs | ].
  intros [ t0 a0 ] [ ? b0 ] w0 [ Ht0 Hs0 ]. cbn in Ht0, Hs0. subst.
  eapply sim_bind; [ apply timed_sim; exact Hs0 | ].
  intros [ t1 a1 ] [ ? b1 ] w1 [ Ht1 Hs1 ]. cbn in Ht1, Hs1. subst.
  eapply sim_bind; [ apply timed_sim; exact Hs1 | ].
  intros [ t2 a2 ] [ ? b2 ] w2 [ Ht2 Hs2 ]. cbn in Ht2, Hs2. subst.
  eapply sim_bind; [ apply timed_sim; exact Hs2 | ].
  intros [ t3 a3 ] [ ? b3 ] w3 [ Ht3 Hs3 ]. cbn in Ht3, Hs3. subst.
  cbn. split; [ split; [ | exact Hs3 ] | reflexivity ].
  apply agree_next.
  - repeat apply agree_set_entry. exact Ha.
  - intros j Hj. unfold set_entry.
    destruct j as [ | [ | [ | [ | j ] ] ] ]; [ .. | lia ]; cbn; rewrite Nat.eqb_refl; reflexivity.
Qed.

Lemma iterations_sim n nt count : forall k0 ts1 ts2 st1 st2 w,
  agree k0 ts1 ts2 -> shape_eq st1 st2 ->
  sim (fun p q => agree (k0 + count) (fst p) (fst q) /\ shape_eq (snd p) (snd q))
      (iterations e1 n nt k0 count ts1 st1 w) (iterations e2 n nt k0 count ts2 st2 w).
Proof.
  induction count as [ | count IH ]; intros k0 ts1 ts2 st1 st2 w Ha Hs; cbn [iterations].
  - cbn. rewrite Nat.add_0_r. split; [ split; assumption | reflexivity ].
  - eapply sim_bind; [ apply iteration_sim; eassumption | ].
    intros [ a1 b1 ] [ a2 b2 ] w1 [ Ha1 Hs1 ]. cbn in Ha1, Hs1.
    replace (k0 + S count)%nat with (S k0 + count)%nat by lia.
    apply IH; assumption.
Qed.

Variables mem1 mem2 : memory.

Lemma run_loops_sim n nt iters st1 st2 w :
  shape_eq st1 st2 ->
  sim (fun p q => agree iters (fst p) (fst q) /\ shape_eq (snd p) (snd q))
      (run_loops_on e1 mem1 n nt iters st1 w) (run_loops_on e2 mem2 n nt iters st2 w).
Proof.
  intros Hs. unfold run_loops_on.
  eapply sim_bind; [ apply parallel_for_sim; exact Hs | ].
  intros a1 b1 w1 Hs1.
  apply (sim_bind eq); [ rewrite mysecond_same; apply sim_refl; reflexivity | ].
  intros t ? w2 <-.
  eapply sim_bind; [ apply parallel_for_sim; exact Hs1 | ].
  intros a2 b2 w3 Hs2.
  apply (sim_bind eq); [ rewrite mysecond_same; apply sim_refl; reflexivity | ].
  intros t' ? w4 <-.
  apply (sim_bind eq); [ apply sim_refl; reflexivity | ].
  intros estimate ? w5 <-.
  apply (iterations_sim n nt iters 0); [ | exact Hs2 ].
  intros j k _ Hk. lia.
Qed.

(** The allocation: the same events and the same pointers, whatever the
    blocks hold. *)
Lemma malloc_sim tid which bytes w :
  sim (fun p q => option_map (@List.length double) p = option_map (@List.length double) q)
      (malloc_on e1 mem1 tid which bytes w) (malloc_on e2 mem2 tid which bytes w).
Proof.
  destruct same as (_ & Hm & _).
  unfold malloc_on, sim. rewrite Hm. split; [ | reflexivity ].
  destruct (malloc_ok e2 tid which); cbn; rewrite ?length_map; reflexivity.
Qed.

Lemma allocate_from_sim n count : forall tid w,
  sim (fun p q =>
         map (option_map (@List.length double)) (fst (fst p))
           = map (option_map (@List.length double)) (fst (fst q)) /\
         map (option_map (@List.length double)) (snd (fst p))
           = map (option_map (@List.length double)) (snd (fst q)) /\
         map (option_map (@List.length double)) (snd p)
           = map (option_map (@List.length double)) (snd q))
      (allocate_from_on e1 mem1 n tid count w) (allocate_from_on e2 mem2 n tid count w).
Proof.
  induction count as [ | count IH ]; intros tid w; cbn [allocate_from_on].
  - cbn. repeat split.
  - eapply sim_bind; [ apply malloc_sim | ]. intros pa pa' w1 Ea.
    eapply sim_bind; [ apply malloc_sim | ]. intros pb pb' w2 Eb.
    eapply sim_bind; [ apply malloc_sim | ]. intros pc pc' w3 Ec.
    eapply sim_bind; [ apply IH | ].
    intros [ [ la lb ] lc ] [ [ la' lb' ] lc' ] w' (Ha & Hb & Hc). cbn in Ha, Hb, Hc.
    cbn. split; [ | reflexivity ].
    repeat split; f_equal; assumption.
Qed.

Lemma allocate_sim n nt i0 w :
  sim shape_eq (allocate_on e1 mem1 n nt i0 w) (allocate_on e2 mem2 n nt i0 w).
Proof.
  unfold allocate_on.
  eapply sim_bind; [ apply allocate_from_sim | ].
  intros [ [ la lb ] lc ] [ [ la' lb' ] lc' ] w' (Ha & Hb & Hc). cbn in Ha, Hb, Hc.
  cbn. split; [ | reflexivity ]. split; [ reflexivity | ].
  intros x. destruct x; assumption.
Qed.

Lemma run_kernels_sim total iters w :
  sim (fun p q => fst (fst p) = fst (fst q) /\ agree iters (snd (fst p)) (snd (fst q)))
      (run_kernels_on e1 mem1 total iters w) (run_kernels_on e2 mem2 total iters w).
Proof.
  destruct same as (Ht & _ & _ & _ & Hfuel).
  unfold run_kernels_on. rewrite Ht, Hfuel.
  destruct ((omp_threads e2 <? 1) || negb (in_int (omp_threads e2))); [ reflexivity | ].
  apply (sim_bind eq); [ apply sim_refl; reflexivity | ].
  intros array_size ? w1 <-.
  eapply sim_bind; [ apply allocate_sim | ].
  intros a1 b1 w2 Hs.
  apply (sim_bind eq); [ rewrite checktick_same; apply sim_refl; reflexivity | ].
  intros quantum ? w3 <-.
  eapply sim_bind; [ apply run_loops_sim; exact Hs | ].
  intros [ ts1 a2 ] [ ts2 b2 ] w4 [ Ha Hs2 ]. cbn in Ha, Hs2.
  cbn. split; [ split; [ reflexivity | exact Ha ] | reflexivity ].
Qed.

End TwoRuns.

Lemma NTIMES_at_least_two cfg : 2 <= NTIMES cfg.
Proof.
  unfold NTIMES. destruct (NTIMES_given cfg) as [ n | ]; [ | lia ].
  destruct (n <=? 1) eqn:E; [ lia | apply Z.leb_gt in E; lia ].
Qed.

(** The statistics read the entries 1 to [ntimes - 1] of the table and
    nothing else. *)
Lemma reduce_agree ntimes ts1 ts2 s1 s2 k :
  2 <= ntimes -> agree (Z.to_nat ntimes) ts1 ts2 -> (k < 4)%nat ->
  avgtime (reduce ntimes ts1 s1) k = avgtime (reduce ntimes ts2 s2) k /\
  mintime (reduce ntimes ts1 s1) k = mintime (reduce ntimes ts2 s2) k /\
  maxtime (reduce ntimes ts1 s1) k = maxtime (reduce ntimes ts2 s2) k.
Proof.
  intros Hn Ha Hk.
  destruct (reduce_computes ts1 ntimes s1 k Hn Hk) as (-> & -> & ->).
  destruct (reduce_computes ts2 ntimes s2 k Hn Hk) as (-> & -> & ->).
  replace (timings ts2 ntimes k) with (timings ts1 ntimes k); [ repeat split | ].
  unfold timings. apply map_ext_in. intros i Hi. apply in_seq in Hi.
  apply Ha; [ exact Hk | lia ].
Qed.

Lemma benchmark_sim cfg e1 e2 mem1 mem2 total :
  same_but_junk e1 e2 ->
  sim (fun _ _ => True) (benchmark_on cfg e1 mem1 total world0)
                        (benchmark_on cfg e2 mem2 total world0).
Proof.
  intros Hsame. unfold benchmark_on.
  eapply sim_bind; [ apply run_kernels_sim; exact Hsame | ].
  intros [ [ n1 ts1 ] st1 ] [ [ n2 ts2 ] st2 ] w [ Hn Ha ]. cbn in Hn, Ha. subst n2.
  pose proof (fun k => reduce_agree (NTIMES cfg) ts1 ts2 (stats_cell mem1) (stats_cell mem2) k
                         (NTIMES_at_least_two cfg) Ha) as Hred.
  set (s1 := reduce (NTIMES cfg) ts1 (stats_cell mem1)) in *.
  set (s2 := reduce (NTIMES cfg) ts2 (stats_cell mem2)) in *.
  unfold bind. rewrite !report_from_events. unfold ret, sim.
  split; [ exact I | ]. f_equal. f_equal.
  destruct Hsame as (Ht & _). rewrite Ht.
  apply map_ext_in. intros k Hk.
  assert (Hk4 : (k < 4)%nat) by (cbn in Hk; lia).
  destruct (Hred k Hk4) as (E1 & E2 & E3).
  unfold bandwidth. rewrite E1, E2, E3. reflexivity.
Qed.

(** ** The run of [main] is the run on a uniform memory *)

Lemma map_constant {A} (x : A) n : forall start,
  map (fun _ : nat => x) (seq start n) = repeat x n.
Proof.
  induction n as [ | n IH ]; intros start; [ reflexivity | ].
  cbn. f_equal. apply IH.
Qed.

Lemma allocate_from_uniform e n count : forall tid w,
  allocate_from_on e (uniform_memory (heap_junk e)) n tid count w
    = allocate_from e n tid count w.
Proof.
  induction count as [ | count IH ]; intros tid w; [ reflexivity | ].
  cbn [allocate_from_on allocate_from]. unfold bind.
  unfold malloc_on, malloc. cbn [heap_cell uniform_memory].
  rewrite !map_constant, IH. reflexivity.
Qed.

Lemma run_kernels_uniform e total iters w :
  run_kernels_on e (uniform_memory (heap_junk e)) total iters w
    = run_kernels e total iters w.
Proof.
  unfold run_kernels_on, run_kernels.
  destruct ((omp_threads e <? 1) || negb (in_int (omp_threads e))); [ reflexivity | ].
  unfold bind.
  destruct (lift_option (compute_array_size total (omp_threads e)) w)
    as [ array_size w1 | w1 | w1 ]; try reflexivity.
  unfold allocate_on, allocate, bind. rewrite allocate_from_uniform. reflexivity.
Qed.

Lemma main_on_uniform cfg argv e :
  main_on cfg argv e (uniform_memory (heap_junk e)) = main cfg argv e.
Proof.
  unfold main_on, main.
  destruct (read_args cfg argv) as [ total | | ]; try reflexivity.
  unfold benchmark_on, benchmark, bind. rewrite run_kernels_uniform. reflexivity.
Qed.

(** X1: nothing that the program reports depends on what uninitialised
    memory holds, cell by cell.  The blocks returned by [malloc] and the
    arrays [times], [avgtime], [mintime] and [maxtime] start with
    indeterminate contents; the runs of [main] on any two memories, in
    environments that agree on the team, the allocations, the clock and
    the schedules, end in the same way (return, undefined behaviour or no
    return) after the same events, with the same four rows of
    statistics: the control flow never depends on the content of an
    array, every entry of [times] that the statistics read has been
    written by the timing loop ([NTIMES] is at least 2), and the
    statistics read the entries 0 to 3 of the result arrays only.  The
    run of [main] is the run on the memory whose cells all hold
    [heap_junk], so it is any of these runs. *)
Theorem report_ignores_uninitialised_memory (cfg : config) (argv : list string)
  (e1 e2 : env) (mem1 mem2 : memory) :
  same_but_junk e1 e2 ->
  main_on cfg argv e1 mem1 = main_on cfg argv e2 mem2 /\
  main_on cfg argv e1 mem1 = main cfg argv e2 /\
  main cfg argv e1 = main cfg argv e2.
Proof.
  intros Hsame.
  assert (Hany : forall m1 m2, main_on cfg argv e1 m1 = main_on cfg argv e2 m2).
  { intros m1 m2. unfold main_on.
    destruct (read_args cfg argv) as [ total | | ]; try reflexivity.
    pose proof (benchmark_sim cfg e1 e2 m1 m2 total Hsame) as H.
    destruct (benchmark_on cfg e1 m1 total world0), (benchmark_on cfg e2 m2 total world0);
      cbn in H; try contradiction.
    - destruct H as [ _ <- ]. reflexivity.
    - subst. reflexivity.
    - subst. reflexivity. }
  split; [ apply Hany | ].
  split; rewrite <- !main_on_uniform; apply Hany.
Qed.

Lemma report_ignores_uninitialised_memory_witness :
  heap_cell garbled_memory 0 0 0 <> heap_cell garbled_memory 0 0 1 /\
  main_on default_config ["stream"; "8"]%string two_threads garbled_memory
    = main_on default_config ["stream"; "8"]%string two_threads_zeroed (uniform_memory d0) /\
  main_on default_config ["stream"; "8"]%string two_threads garbled_memory
    = main default_config ["stream"; "8"]%string two_threads_zeroed /\
  main default_config ["stream"; "8"]%string two_threads
    = main default_config ["stream"; "8"]%string two_threads_zeroed.
Proof.
  split; [ vm_compute; discriminate | ].
  apply (report_ignores_uninitialised_memory default_config ["stream"; "8"]%string
           two_threads two_threads_zeroed).
  repeat split.
Defined.

(* ===================================================================== *)
(** * A best time of zero *)
(* ===================================================================== *)

Lemma ddiv_normal_wide m1 e1 m2 e2 :
  Zpos (digits2_pos m1) = 53 -> Zpos (digits2_pos m2) = 53 ->
  -1000 <= e1 - e2 ->
  ddiv (S754_finite false m1 e1) (S754_finite false m2 e2) =
    binary_round_aux prec emax false
      (Zpos m1 * 2 ^ 53 / Zpos m2) (e1 - e2 - 53)
      (new_location (Zpos m2) (Zpos m1 * 2 ^ 53 mod Zpos m2)).
Proof.
  intros H1 H2 He.
  unfold ddiv, SFdiv, SFdiv_core_binary, fexp, emin, prec, emax.
  cbn [Zdigits2 xorb]. rewrite H1, H2.
  replace (Z.min (Z.max (53 + e1 - (53 + e2) - 53) (3 - 1024 - 53)) (e1 - e2))
    with (e1 - e2 - 53) by lia.
  replace (e1 - e2 - (e1 - e2 - 53)) with 53 by lia.
  rewrite Z.shiftl_mul_pow2 by lia.
  unfold Z.div, Z.modulo.
  destruct (Z.div_eucl (Zpos m1 * 2 ^ 53) (Zpos m2)) as [ q r ]. reflexivity.
Qed.

(** Twice a 53-bit significand is halved without rounding. *)
Lemma round_aux_exact_even m e :
  Zpos (digits2_pos m) = 53 -> -1075 <= e <= 970 ->
  binary_round_aux prec emax false (Zpos m~0) e loc_Exact = S754_finite false m (e + 1).
Proof.
  intros Hd He. rewrite binary_round_aux_finish.
  rewrite shr_fexp_54;
    [ | cbn [Zdigits2 digits2_pos]; rewrite Pos2Z.inj_succ, Hd; reflexivity | lia ].
  cbn [shr_record_of_loc shr_1 shr_m loc_of_shr_record round_nearest_even].
  unfold finish. rewrite shr_fexp_53; [ | exact Hd | lia ].
  cbn [shr_record_of_loc shr_m].
  replace (e + 1 <=? emax - prec) with true
    by (symmetry; apply Z.leb_le; unfold emax, prec; lia).
  reflexivity.
Qed.

(** Division by 1024 only lowers the exponent. *)
Lemma ddiv_1024 m e :
  Zpos (digits2_pos m) = 53 -> -900 <= e <= 900 ->
  ddiv (S754_finite false m e) d1024 = S754_finite false m (e - 10).
Proof.
  intros Hd He. unfold d1024.
  rewrite ddiv_normal_wide; [ | exact Hd | reflexivity | lia ].
  replace (Zpos m * 2 ^ 53 / 4503599627370496) with (Zpos m~0)
    by (apply Z.div_unique with (r := 0); lia).
  replace (Zpos m * 2 ^ 53 mod 4503599627370496) with 0
    by (apply Z.mod_unique with (q := Zpos m~0); lia).
  change (new_location 4503599627370496 0) with loc_Exact.
  rewrite round_aux_exact_even; [ f_equal; lia | exact Hd | lia ].
Qed.

Lemma dsub_self x : finite_double x = true -> dsub x x = d0.
Proof.
  destruct x as [ [] | | | sgn m e ]; try discriminate; intros _; try reflexivity.
  unfold dsub, SFsub. cbv zeta. rewrite Z.sub_diag. reflexivity.
Qed.

(** X12: the best time is used as a divisor without being tested.  A kernel
    whose region runs between two equal readings of the clock is given
    the time +0.0; and when the best time of a kernel is +0.0 the
    bandwidth printed for it is +infinity, for every size whose count of
    bytes is exact in a [double]: the quotient of the bytes by 2^20 is
    exact and positive. *)
Theorem zero_time_gives_infinite_bandwidth (array_size nthreads : Z) (s : stats)
  (k : nat) :
  1 <= array_size <= INT_MAX -> 1 <= nthreads <= INT_MAX ->
  24 * (array_size * nthreads) < 2 ^ 53 -> (k < 4)%nat ->
  (forall e r j n nt st w t st' w',
     timed e r j n nt st w = Ok (t, st') w' ->
     finite_double (reading e (ticks w)) = true ->
     reading e (S (ticks w)) = reading e (ticks w) ->
     t = d0) /\
  (exists m ex,
     ddiv (ddiv (bytes array_size nthreads k) d1024) d1024 = S754_finite false m ex) /\
  (mintime s k = d0 -> bandwidth array_size nthreads s k = S754_infinity false).
Proof.
  intros Hn Ht HS Hk.
  split.
  { intros e r j n nt st w t st' w' H Hfin Heq.
    apply timed_ok in H. destruct H as (-> & _). rewrite Heq. apply dsub_self. exact Hfin. }
  assert (Hnum : exists m ex,
            ddiv (ddiv (bytes array_size nthreads k) d1024) d1024 = S754_finite false m ex).
  { unfold bytes.
    rewrite bytes_count_exact;
      [ | destruct k as [ | [ | k ] ]; cbn [words_of]; lia | lia | lia | lia ].
    assert (Hw : 2 <= words_of k <= 3)
      by (destruct k as [ | [ | k ] ]; cbn [words_of]; lia).
    destruct (double_of_Z_small (words_of k * (array_size * nthreads) * sizeof_STREAM_TYPE))
      as (m & ex & -> & Hd & Hex & _).
    { unfold sizeof_STREAM_TYPE. nia. }
    exists m, (ex - 10 - 10).
    rewrite ddiv_1024 by (exact Hd || lia). apply ddiv_1024; [ exact Hd | lia ]. }
  split; [ exact Hnum | ].
  intros Hzero. destruct Hnum as (m & ex & Hnum).
  unfold bandwidth. rewrite Hnum, Hzero. reflexivity.
Qed.

Lemma zero_time_gives_infinite_bandwidth_witness :
  mintime no_time 0%nat = d0 /\
  bandwidth 4 2 no_time 0 = S754_infinity false.
Proof.
  split; [ reflexivity | ].
  apply (zero_time_gives_infinite_bandwidth 4 2 no_time 0);
    try (unfold INT_MAX; lia). reflexivity.
Defined.

(* ===================================================================== *)
(** * The report of the memory used *)
(* ===================================================================== *)

Lemma shr_1_even a :
  0 < a ->
  shr_1 {| shr_m := 2 * a; shr_r := false; shr_s := false |}
    = {| shr_m := a; shr_r := false; shr_s := false |}.
Proof. destruct a as [ | p | p ]; try lia. intros _. reflexivity. Qed.

(** Shifting out zeros loses nothing. *)
Lemma iter_shr_exact p : forall m,
  0 < m ->
  iter_pos shr_1 p {| shr_m := m * 2 ^ Zpos p; shr_r := false; shr_s := false |}
    = {| shr_m := m; shr_r := false; shr_s := false |}.
Proof.
  induction p as [ p IH | p IH | ]; intros m Hm; cbn [iter_pos].
  - assert (Hp : 0 < 2 ^ Zpos p) by (apply Z.pow_pos_nonneg; lia).
    replace (m * 2 ^ Zpos p~1) with (2 * (m * 2 ^ Zpos p * 2 ^ Zpos p)).
    + rewrite shr_1_even by nia. rewrite IH by nia. apply IH. exact Hm.
    + rewrite (Pos2Z.inj_xI p), Z.pow_add_r, Z.pow_mul_r by lia.
      change (2 ^ 2) with 4. change (2 ^ 1) with 2.
      replace (4 ^ Zpos p) with (2 ^ Zpos p * 2 ^ Zpos p).
      * ring.
      * rewrite <- Z.pow_mul_l. reflexivity.
  - assert (Hp : 0 < 2 ^ Zpos p) by (apply Z.pow_pos_nonneg; lia).
    replace (m * 2 ^ Zpos p~0) with (m * 2 ^ Zpos p * 2 ^ Zpos p).
    + rewrite IH by nia. apply IH. exact Hm.
    + rewrite (Pos2Z.inj_xO p), Z.pow_mul_r by lia. change (2 ^ 2) with 4.
      replace (4 ^ Zpos p) with (2 ^ Zpos p * 2 ^ Zpos p).
      * ring.
      * rewrite <- Z.pow_mul_l. reflexivity.
  - change (2 ^ 1) with 2. rewrite Z.mul_comm. apply shr_1_even. exact Hm.
Qed.

(** A 53-bit significand followed by [s] zeros rounds to itself. *)
Lemma round_aux_shift q s e :
  Zpos (digits2_pos q) = 53 -> 0 <= s -> -1074 <= e + s <= 971 ->
  binary_round_aux prec emax false (Zpos q * 2 ^ s) e loc_Exact
    = S754_finite false q (e + s).
Proof.
  intros Hd Hs He.
  pose proof (digits2_pos_bounds q) as B. rewrite Hd in B.
  change (2 ^ (53 - 1)) with (2 ^ 52) in B.
  assert (Hp : 0 < 2 ^ s) by (apply Z.pow_pos_nonneg; lia).
  rewrite binary_round_aux_finish. unfold shr_fexp, fexp, emin, prec, emax.
  replace (Zdigits2 (Zpos q * 2 ^ s)) with (53 + s).
  - replace (Z.max (53 + s + e - 53) (3 - 1024 - 53) - e) with s by lia.
    cbn [shr_record_of_loc]. unfold shr.
    destruct s as [ | p | p ]; try lia.
    + rewrite Z.mul_1_r. cbn [shr_m loc_of_shr_record round_nearest_even].
      unfold finish. rewrite shr_fexp_53; [ | exact Hd | lia ].
      cbn [shr_record_of_loc shr_m].
      replace (e <=? emax - prec) with true
        by (symmetry; apply Z.leb_le; unfold emax, prec; lia).
      rewrite Z.add_0_r. reflexivity.
    + rewrite iter_shr_exact by lia.
      cbn [shr_m loc_of_shr_record round_nearest_even].
      unfold finish. rewrite shr_fexp_53; [ | exact Hd | lia ].
      cbn [shr_record_of_loc shr_m].
      replace (e + Zpos p <=? emax - prec) with true
        by (symmetry; apply Z.leb_le; unfold emax, prec; lia).
      reflexivity.
  - symmetry. apply Zdigits2_unique; [ | nia ].
    replace (53 + s - 1) with (52 + s) by lia.
    rewrite !Z.pow_add_r by lia. nia.
Qed.

Lemma exactly_of_Z n : 0 < n < 2 ^ 53 -> exactly (double_of_Z n) n 0.
Proof.
  intros H. destruct (double_of_Z_small n H) as (m & e & E & Hd & He & Hm).
  exists m, e. split; [ exact E | split; [ exact Hd | split; [ lia | ] ] ].
  exact Hm.
Qed.

Lemma exactly_ddiv_1024 x v k :
  exactly x v k -> -800 <= k <= 800 -> 0 < v < 2 ^ 53 ->
  exactly (ddiv x d1024) v (k - 10).
Proof.
  intros (m & e & -> & Hd & He & Hm) Hk Hv.
  assert (Hlow : k - 60 <= e).
  { pose proof (digits2_pos_bounds m) as B. rewrite Hd in B.
    destruct (Z.le_gt_cases (k - 60) e) as [ | Hgt ]; [ assumption | exfalso ].
    assert (2 ^ 60 <= 2 ^ (k - e)) by (apply Z.pow_le_mono_r; lia).
    assert (2 ^ 60 <= Zpos m) by nia. lia. }
  exists m, (e - 10). rewrite ddiv_1024 by (exact Hd || lia).
  split; [ reflexivity | split; [ exact Hd | split; [ lia | ] ] ].
  rewrite Hm. f_equal. f_equal. lia.
Qed.

(** A product that fits 53 bits is exact. *)
Lemma exactly_dmul x y v u k j :
  exactly x v k -> exactly y u j ->
  0 < v -> 0 < u -> v * u < 2 ^ 53 -> -400 <= k <= 400 -> -400 <= j <= 400 ->
  exactly (dmul x y) (v * u) (k + j).
Proof.
  intros (m1 & e1 & -> & Hd1 & He1 & Hm1) (m2 & e2 & -> & Hd2 & He2 & Hm2)
         Hv Hu Hvu Hk Hj.
  pose proof (digits2_pos_bounds m1) as B1. rewrite Hd1 in B1.
  pose proof (digits2_pos_bounds m2) as B2. rewrite Hd2 in B2.
  change (2 ^ (53 - 1)) with (2 ^ 52) in B1, B2.
  destruct (double_of_Z_small (v * u) ltac:(nia)) as (q & ec & _ & Hdq & Hec & Hq).
  pose proof (digits2_pos_bounds q) as Bq. rewrite Hdq in Bq.
  change (2 ^ (53 - 1)) with (2 ^ 52) in Bq.
  set (a := k - e1) in *. set (b := j - e2) in *.
  assert (Ha : 0 < 2 ^ a) by (apply Z.pow_pos_nonneg; unfold a; lia).
  assert (Hb : 0 < 2 ^ b) by (apply Z.pow_pos_nonneg; unfold b; lia).
  assert (Hc : 0 < 2 ^ (- ec)) by (apply Z.pow_pos_nonneg; lia).
  assert (Hprod : Zpos m1 * Zpos m2 = (v * u) * 2 ^ (a + b)).
  { rewrite Hm1, Hm2, Z.pow_add_r by (unfold a, b; lia). ring. }
  assert (Hs : 0 <= a + b + ec).
  { destruct (Z.le_gt_cases 0 (a + b + ec)) as [ | Hneg ]; [ assumption | exfalso ].
    assert (2 ^ (a + b) <= 2 ^ (- ec)) by (apply Z.pow_le_mono_r; unfold a, b in *; lia).
    assert (Zpos m1 * Zpos m2 <= Zpos q) by (rewrite Hprod, Hq; nia).
    assert (2 ^ 52 * 2 ^ 52 <= Zpos m1 * Zpos m2) by nia.
    lia. }
  assert (Hsplit : Zpos m1 * Zpos m2 = Zpos q * 2 ^ (a + b + ec)).
  { rewrite Hprod, Hq.
    replace (a + b) with (- ec + (a + b + ec)) at 1 by lia.
    rewrite Z.pow_add_r by lia. ring. }
  assert (Hbig : a + b + ec <= 60).
  { destruct (Z.le_gt_cases (a + b + ec) 60) as [ | Hgt ]; [ assumption | exfalso ].
    assert (2 ^ 60 <= 2 ^ (a + b + ec)) by (apply Z.pow_le_mono_r; lia).
    assert (Zpos m1 * Zpos m2 < 2 ^ 53 * 2 ^ 53) by nia.
    assert (2 ^ 52 * 2 ^ 60 <= Zpos q * 2 ^ (a + b + ec)) by nia.
    lia. }
  assert (Hlow1 : k - 60 <= e1).
  { destruct (Z.le_gt_cases (k - 60) e1) as [ | Hgt ]; [ assumption | exfalso ].
    assert (2 ^ 60 <= 2 ^ a) by (apply Z.pow_le_mono_r; unfold a; lia). nia. }
  assert (Hlow2 : j - 60 <= e2).
  { destruct (Z.le_gt_cases (j - 60) e2) as [ | Hgt ]; [ assumption | exfalso ].
    assert (2 ^ 60 <= 2 ^ b) by (apply Z.pow_le_mono_r; unfold b; lia). nia. }
  exists q, (e1 + e2 + (a + b + ec)).
  split.
  - unfold dmul, SFmul. cbn [xorb]. rewrite Pos2Z.inj_mul, Hsplit.
    apply round_aux_shift; [ exact Hdq | exact Hs | unfold a, b in *; lia ].
  - split; [ exact Hdq | split; [ unfold a, b; lia | ] ].
    rewrite Hq. f_equal. f_equal. unfold a, b. lia.
Qed.

(** X15: the six numbers of lines 192-200 are exact: the memory of one array
    is [sizeof(double) * array_size] bytes divided by 2^20 (MiB) and by
    2^30 (GiB), the memory of one thread is three times as much and the
    total is the number of threads times the memory of one thread,
    without any rounding, whenever the total number of bytes is below
    2^53. *)
Theorem memory_report_is_exact (array_size nthreads : Z) :
  1 <= array_size <= INT_MAX -> 1 <= nthreads <= INT_MAX ->
  24 * (array_size * nthreads) < 2 ^ 53 ->
  let r := memory_lines array_size nthreads in
  let bytes_per_array := sizeof_STREAM_TYPE * array_size in
  exactly (fst (per_array r)) bytes_per_array (-20) /\
  exactly (snd (per_array r)) bytes_per_array (-30) /\
  exactly (fst (per_thread r)) (3 * bytes_per_array) (-20) /\
  exactly (snd (per_thread r)) (3 * bytes_per_array) (-30) /\
  exactly (fst (in_total r)) (nthreads * (3 * bytes_per_array)) (-20) /\
  exactly (snd (in_total r)) (nthreads * (3 * bytes_per_array)) (-30).
Proof.
  intros Hn Ht Htotal r bytes_per_array.
  unfold INT_MAX in *.
  assert (HM : exactly (MiB array_size) array_size (-20)).
  { unfold MiB. apply (exactly_ddiv_1024 _ _ (-10)); [ | lia | lia ].
    apply (exactly_ddiv_1024 _ _ 0); [ | lia | lia ].
    apply exactly_of_Z. lia. }
  assert (HG : exactly (GiB array_size) array_size (-30)).
  { unfold GiB. apply (exactly_ddiv_1024 _ _ (-20)); [ exact HM | lia | lia ]. }
  assert (H8 : exactly (double_of_Z BytesPerWord) 8 0)
    by (apply exactly_of_Z; lia).
  assert (H24 : exactly (dmul (double_of_Z 3) (double_of_Z BytesPerWord)) 24 0).
  { apply (exactly_dmul _ _ 3 8 0 0); try lia; apply exactly_of_Z; lia. }
  assert (H24n : exactly (dmul (dmul (double_of_Z 3) (double_of_Z BytesPerWord))
                               (double_of_Z nthreads)) (24 * nthreads) 0).
  { apply (exactly_dmul _ _ 24 nthreads 0 0); try lia; [ exact H24 | ].
    apply exactly_of_Z. lia. }
  unfold bytes_per_array, sizeof_STREAM_TYPE.
  cbn [r memory_lines per_array per_thread in_total fst snd].
  split; [ | split; [ | split; [ | split; [ | split ] ] ] ].
  - apply (exactly_dmul _ _ 8 array_size 0 (-20)); try lia; assumption.
  - apply (exactly_dmul _ _ 8 array_size 0 (-30)); try lia; assumption.
  - replace (3 * (8 * array_size)) with (24 * array_size) by lia.
    apply (exactly_dmul _ _ 24 array_size 0 (-20)); try lia; assumption.
  - replace (3 * (8 * array_size)) with (24 * array_size) by lia.
    apply (exactly_dmul _ _ 24 array_size 0 (-30)); try lia; assumption.
  - replace (nthreads * (3 * (8 * array_size))) with (24 * nthreads * array_size) by lia.
    apply (exactly_dmul _ _ (24 * nthreads) array_size 0 (-20)); try lia; try assumption; nia.
  - replace (nthreads * (3 * (8 * array_size))) with (24 * nthreads * array_size) by lia.
    apply (exactly_dmul _ _ (24 * nthreads) array_size 0 (-30)); try lia; try assumption; nia.
Qed.

Lemma memory_report_is_exact_witness :
  fst (per_array (memory_lines 4 2)) = S754_finite false 4503599627370496 (-67) /\
  exactly (fst (per_array (memory_lines 4 2))) (sizeof_STREAM_TYPE * 4) (-20) /\
  exactly (snd (per_array (memory_lines 4 2))) (sizeof_STREAM_TYPE * 4) (-30) /\
  exactly (fst (per_thread (memory_lines 4 2))) (3 * (sizeof_STREAM_TYPE * 4)) (-20) /\
  exactly (snd (per_thread (memory_lines 4 2))) (3 * (sizeof_STREAM_TYPE * 4)) (-30) /\
  exactly (fst (in_total (memory_lines 4 2))) (2 * (3 * (sizeof_STREAM_TYPE * 4))) (-20) /\
  exactly (snd (in_total (memory_lines 4 2))) (2 * (3 * (sizeof_STREAM_TYPE * 4))) (-30).
Proof.
  split; [ vm_compute; reflexivity | ].
  apply (memory_report_is_exact 4 2); unfold INT_MAX; lia.
Defined.
